(** * capinrs: the capability-routed batch dispatcher of the chat backend

    A shallow embedding of the TypeScript worker: the batch handlers of
    [rpc.ts] ([normalizeChatState], [loadChatState], [tryHandleStatsBatch],
    [tryHandleChatBatch], [handleCalculatorCall], [processRpcBatch]), the
    RPC target of [server/index.ts] with its broadcast hub ([auth],
    [sendMessage], [receiveMessages], [whoami], [registerNick],
    [identifyNick], [checkNick], [broadcastMessage], [registerClient]) and
    the command line of the terminal client ([ensureScheme],
    [normalizeEndpoint], [parseCli]).

    Conventions of the embedding.
    - A JavaScript number is a mathematical integer ([Z]).  This is exact for
      the integral values below 2^53 that capability ids, import ids and
      millisecond timestamps take; fractions, NaN and the infinities are not
      represented.
    - A string is a sequence of code units below 256.
    - [JSON.parse] and [JSON.stringify] are host functions.  The handlers take
      them as parameters; [JSON_parse s = None] stands for the [SyntaxError]
      the host throws.  A reference decoder and encoder for the integer
      fragment are given at the end so that the handlers run on request text.
    - Durable storage is a record of the four keys the worker uses.  The
      document under ["chatState"] is held as the JSON value its text denotes
      (written by [JSON.stringify], read back by [JSON.parse]); an absent,
      empty or unparsable entry is [None].
    - [Date.now()] is an input of each request. *)

From Stdlib Require Import ZArith String Ascii List Sorting.Sorted.
From stdpp Require Import base gmap strings list pretty sorting.

Local Open Scope string_scope.
#[local] Set Warnings "-clear-no-such-hyp".

(** ** JavaScript values and the operators the handlers use *)

#[local] Unset Elimination Schemes.
Inductive json : Type :=
  | JNull
  | JBool (b : bool)
  | JNum (n : Z)
  | JStr (s : string)
  | JArr (items : list json)
  | JObj (members : list (string * json)).
#[local] Set Elimination Schemes.

(** [JObj] holds the own entries of an object, each key once, in the order
    [Object.entries] lists them.  A missing property or array slot reads as
    [undefined]: an [option json] that is [None]. *)

(** [String(n)] for a number, also used for template literals. *)
Definition String_of_number (n : Z) : string := pretty n.

(** [v && typeof v === "object"]: arrays and objects; [null] has type
    ["object"] but is falsy. *)
Definition is_object (v : option json) : bool :=
  match v with Some (JArr _) | Some (JObj _) => true | _ => false end.

(** Truthiness of a value. *)
Definition truthy (v : option json) : bool :=
  match v with
  | None | Some JNull => false
  | Some (JBool b) => b
  | Some (JNum n) => negb (n =? 0)%Z
  | Some (JStr s) => negb (String.eqb s "")
  | Some (JArr _) | Some (JObj _) => true
  end.

(** Own string-keyed member of an object, first binding. *)
Fixpoint assoc {V : Type} (key : string) (l : list (string * V)) : option V :=
  match l with
  | [] => None
  | (k, v) :: l' => if String.eqb k key then Some v else assoc key l'
  end.

(** [v.name] for one of the fixed member names the handlers read
    ([credentials], [username], [from], ...).  None of them is a member of
    [Array.prototype] or [Object.prototype], so arrays and absent keys read
    as [undefined]. *)
Definition field (name : string) (v : json) : option json :=
  match v with JObj members => assoc name members | _ => None end.

(** [(v as unknown[])[i]] *)
Definition item (i : nat) (v : json) : option json :=
  match v with JArr items => items !! i | _ => None end.

(** [Object.entries(v)] for a value that passed [is_object]. *)
Definition Object_entries (v : option json) : list (string * json) :=
  match v with
  | Some (JObj members) => members
  | Some (JArr items) => imap (fun i x => (String_of_number (Z.of_nat i), x)) items
  | _ => []
  end.

(** *** Strings *)

(** White space removed by [String.prototype.trim], below code unit 256. *)
Definition is_white_space (c : ascii) : bool :=
  let n := nat_of_ascii c in
  (Nat.leb 9 n && Nat.leb n 13) || Nat.eqb n 32 || Nat.eqb n 160.

Fixpoint trim_start (s : list ascii) : list ascii :=
  match s with
  | c :: s' => if is_white_space c then trim_start s' else s
  | [] => []
  end.

Definition trim (s : string) : string :=
  string_of_list_ascii
    (rev (trim_start (rev (trim_start (list_ascii_of_string s))))).

(** [s.split("\n")] *)
Fixpoint split_go (cur : list ascii) (s : list ascii) : list string :=
  match s with
  | [] => [string_of_list_ascii (rev cur)]
  | c :: s' =>
      if Ascii.eqb c "010"%char
      then string_of_list_ascii (rev cur) :: split_go [] s'
      else split_go (c :: cur) s'
  end.

Definition split_lines (s : string) : list string :=
  split_go [] (list_ascii_of_string s).

(** *** Objects used as dictionaries

    The aggregate's tables are plain objects indexed by arbitrary strings.
    Three facts of the language show through such an index:
    - reading a key the object does not own falls back to [Object.prototype],
      whose members are functions (truthy, different from every string);
    - assigning to ["__proto__"] never creates an own property;
    - [Object.entries] lists array-index keys first, in ascending order, then
      the other keys in insertion order. *)

Definition Object_prototype : list string :=
  [ "constructor"; "__defineGetter__"; "__defineSetter__"; "hasOwnProperty";
    "__lookupGetter__"; "__lookupSetter__"; "isPrototypeOf";
    "propertyIsEnumerable"; "toString"; "valueOf"; "__proto__";
    "toLocaleString" ].

Inductive Property (V : Type) : Type :=
  | Own (v : V)
  | Inherited
  | Missing.
Arguments Own {V} v.
Arguments Inherited {V}.
Arguments Missing {V}.

Definition classify {V : Type} (key : string) (own : option V) : Property V :=
  match own with
  | Some v => Own v
  | None => if bool_decide (key ∈ Object_prototype) then Inherited else Missing
  end.

(** [table[key]] on a table held as a finite map. *)
Definition get {V : Type} (key : string) (table : gmap string V) : Property V :=
  classify key (table !! key).

(** [table[key] = v] *)
Definition set {V : Type} (key : string) (v : V) (table : gmap string V)
  : gmap string V :=
  if bool_decide (key = "__proto__") then table else <[key := v]> table.

(** A table whose enumeration order matters is held as the list of its own
    entries in the order [Object.entries] lists them. *)

Fixpoint digits_value (acc : N) (s : list ascii) : option N :=
  match s with
  | [] => Some acc
  | c :: s' =>
      let n := N_of_ascii c in
      if ((48 <=? n) && (n <=? 57))%N
      then digits_value (acc * 10 + (n - 48))%N s'
      else None
  end.

(** The array index a key denotes, if it is the canonical decimal form of an
    integer below 2^32 - 1. *)
Definition array_index (key : string) : option N :=
  match list_ascii_of_string key with
  | [] => None
  | cs =>
      match digits_value 0 cs with
      | Some n =>
          if String.eqb (pretty n) key && (n <? 4294967295)%N
          then Some n else None
      | None => None
      end
  end.

Definition enumerated_before (k k' : string) : bool :=
  match array_index k, array_index k' with
  | Some n, Some n' => (n <? n')%N
  | Some _, None => true
  | None, _ => false
  end.

Section OrderedTable.
Context {V : Type}.

(** A key the table does not own yet takes its place of enumeration. *)
Fixpoint define (key : string) (v : V) (table : list (string * V))
  : list (string * V) :=
  match table with
  | [] => [(key, v)]
  | (k', v') :: rest =>
      if enumerated_before key k' then (key, v) :: table
      else (k', v') :: define key v rest
  end.

Fixpoint replace (key : string) (v : V) (table : list (string * V))
  : list (string * V) :=
  match table with
  | [] => []
  | (k', v') :: rest =>
      if String.eqb k' key then (key, v) :: rest
      else (k', v') :: replace key v rest
  end.

(** [table[key]] *)
Definition get_entry (key : string) (table : list (string * V)) : Property V :=
  classify key (assoc key table).

(** [table[key] = v] *)
Definition set_entry (key : string) (v : V) (table : list (string * V))
  : list (string * V) :=
  if bool_decide (key = "__proto__") then table
  else match assoc key table with
       | Some _ => replace key v table
       | None => define key v table
       end.

(** [delete table[key]] *)
Definition delete_entry (key : string) (table : list (string * V))
  : list (string * V) :=
  filter (fun e => e.1 ≠ key) table.
End OrderedTable.

(** ** The aggregate ([rpc.ts]) *)

Definition CALCULATOR_CAP_ID : Z := 1.
Definition CHAT_CAPABILITY_ID : Z := 2.
Definition SESSION_CAPABILITY_START : Z := 10000.

Record SessionInfo : Type := {
  username : string;
  displayName : option string;
}.

(** [NickTokenInfo]; its [username] and [nickname] members are
    [token_username] and [token_nickname] here. *)
Record NickTokenInfo : Type := {
  token_username : string;
  token_nickname : option string;
  issuedAt : Z;
  lastUsed : option Z;
}.

Record Message : Type := {
  from : string;
  body : string;
  timestamp : Z;
}.

#[global] Instance SessionInfo_eq_dec : EqDecision SessionInfo.
Proof. solve_decision. Defined.
#[global] Instance NickTokenInfo_eq_dec : EqDecision NickTokenInfo.
Proof. solve_decision. Defined.
#[global] Instance Message_eq_dec : EqDecision Message.
Proof. solve_decision. Defined.

Record ChatState : Type := {
  credentials : gmap string string;
  messages : list Message;
  nextSessionCapId : Z;
  sessionCaps : gmap string SessionInfo;
  registeredNicks : gmap string string;
  nickOwners : gmap string string;
  nickTokens : list (string * NickTokenInfo);
}.

Definition DEFAULT_CHAT_STATE : ChatState := {|
  credentials :=
    {[ "alice" := "password123"; "bob" := "hunter2"; "carol" := "letmein" ]};
  messages := [];
  nextSessionCapId := SESSION_CAPABILITY_START;
  sessionCaps := ∅;
  registeredNicks := ∅;
  nickOwners := ∅;
  nickTokens := [];
|}.

Definition cloneDefaultChatState : ChatState := DEFAULT_CHAT_STATE.

(** The loop shared by [credentials], [registeredNicks] and [nickOwners]:
    [if (v && typeof v === "object") for (const [key, value] of
    Object.entries(v)) if (typeof value === "string") target[key] = value]. *)
Definition copy_strings (v : option json) (target : gmap string string)
  : gmap string string :=
  if is_object v then
    fold_left
      (fun acc '(key, value) =>
         match value with JStr s => set key s acc | _ => acc end)
      (Object_entries v) target
  else target.

Definition normalize_message (now : Z) (entry : json) : option Message :=
  if is_object (Some entry) then
    let from_ := match field "from" entry with Some (JStr s) => Some s | _ => None end in
    let body_ := match field "body" entry with Some (JStr s) => Some s | _ => None end in
    let timestamp_ := match field "timestamp" entry with Some (JNum t) => t | _ => now end in
    match from_, body_ with
    | Some f, Some b =>
        if negb (String.eqb f "") && negb (String.eqb b "")
        then Some {| from := f; body := b; timestamp := timestamp_ |}
        else None
    | _, _ => None
    end
  else None.

Definition normalize_session (value : json) : option SessionInfo :=
  if is_object (Some value) then
    match field "username" value with
    | Some (JStr u) =>
        Some {| username := u;
                displayName :=
                  match field "displayName" value with
                  | Some (JStr d) => Some d
                  | _ => None
                  end |}
    | _ => None
    end
  else None.

Definition normalize_token (now : Z) (value : json) : option NickTokenInfo :=
  if is_object (Some value) then
    match field "username" value with
    | Some (JStr u) =>
        if String.eqb u "" then None
        else
          Some {| token_username := u;
                  token_nickname :=
                    match field "nickname" value with
                    | Some (JStr n) => if String.eqb n "" then None else Some n
                    | _ => None
                    end;
                  issuedAt :=
                    match field "issuedAt" value with
                    | Some (JNum t) => t
                    | _ => now
                    end;
                  lastUsed :=
                    match field "lastUsed" value with
                    | Some (JNum t) => Some t
                    | _ => None
                    end |}
    | _ => None
    end
  else None.

Definition normalizeChatState (now : Z) (parsed : json) : ChatState :=
  let base := cloneDefaultChatState in
  if negb (is_object (Some parsed)) then base
  else
    let source := parsed in
    {| credentials := copy_strings (field "credentials" source) (credentials base);
       messages :=
         match field "messages" source with
         | Some (JArr entries) => omap (normalize_message now) entries
         | _ => messages base
         end;
       nextSessionCapId :=
         match field "nextSessionCapId" source with
         | Some (JNum n) => Z.max SESSION_CAPABILITY_START n
         | _ => nextSessionCapId base
         end;
       sessionCaps :=
         if is_object (field "sessionCaps" source) then
           fold_left
             (fun acc '(key, value) =>
                match normalize_session value with
                | Some info => set key info acc
                | None => acc
                end)
             (Object_entries (field "sessionCaps" source)) ∅
         else ∅;
       registeredNicks :=
         copy_strings (field "registeredNicks" source) (registeredNicks base);
       nickOwners := copy_strings (field "nickOwners" source) (nickOwners base);
       nickTokens :=
         if is_object (field "nickTokens" source) then
           fold_left
             (fun acc '(key, value) =>
                match normalize_token now value with
                | Some info => set_entry key info acc
                | None => acc
                end)
             (Object_entries (field "nickTokens" source)) []
         else [] |}.

(** [JSON.stringify(chatState)].  The four tables held as finite maps are
    written in the order of [map_to_list]; no handler observes the order of
    their members. *)

Definition strings_to_json (table : gmap string string) : json :=
  JObj ((fun e => (e.1, JStr e.2)) <$> map_to_list table).

Definition message_to_json (m : Message) : json :=
  JObj [("from", JStr (from m)); ("body", JStr (body m));
        ("timestamp", JNum (timestamp m))].

Definition session_to_json (info : SessionInfo) : json :=
  JObj (("username", JStr (username info))
        :: match displayName info with
           | Some d => [("displayName", JStr d)]
           | None => []
           end).

Definition token_to_json (info : NickTokenInfo) : json :=
  JObj (("username", JStr (token_username info))
        :: match token_nickname info with
           | Some n => [("nickname", JStr n)]
           | None => []
           end
        ++ ("issuedAt", JNum (issuedAt info))
        :: match lastUsed info with
           | Some t => [("lastUsed", JNum t)]
           | None => []
           end).

Definition chatState_to_json (st : ChatState) : json :=
  JObj [("credentials", strings_to_json (credentials st));
        ("messages", JArr (message_to_json <$> messages st));
        ("nextSessionCapId", JNum (nextSessionCapId st));
        ("sessionCaps",
          JObj ((fun e => (e.1, session_to_json e.2)) <$> map_to_list (sessionCaps st)));
        ("registeredNicks", strings_to_json (registeredNicks st));
        ("nickOwners", strings_to_json (nickOwners st));
        ("nickTokens",
          JObj ((fun e => (e.1, token_to_json e.2)) <$> nickTokens st))].

(** ** Durable storage and the environment of a request *)

Record Storage : Type := {
  chatState : option json;
  callCount : option Z;
  lastRequest : option string;
  lastResponse : option string;
}.

Definition loadChatState (now : Z) (state : Storage) : ChatState :=
  match chatState state with
  | None => cloneDefaultChatState
  | Some raw => normalizeChatState now raw
  end.

Definition persistChatState (state : Storage) (st : ChatState) : Storage :=
  {| chatState := Some (chatState_to_json st);
     callCount := callCount state;
     lastRequest := lastRequest state;
     lastResponse := lastResponse state |}.

(** The three diagnostic writes that end a dispatched batch. *)
Definition put_stats (nextCount : Z) (request response : string)
    (state : Storage) : Storage :=
  {| chatState := chatState state;
     callCount := Some nextCount;
     lastRequest := Some request;
     lastResponse := Some response |}.

(** A live connection is known to the hub by its stub; stubs are told apart
    by a number. *)
Definition Client : Type := nat.

(** What a request finds around it: the clock, the server instance
    registered on [globalThis] (its set of client stubs, in insertion order)
    and, for each stub, whether a call of its [receiveMessage] resolves
    ([true]) or throws ([false]). *)
Record Env : Type := {
  now : Z;
  serverInstance : option (list Client);
  receiveMessage : Client -> Message -> bool;
}.

(** ** The broadcast hub ([server/index.ts]) *)

(** The loop [for (const clientStub of Array.from(this.clients))] with its
    [try]/[catch]: the snapshot is walked to its end, a stub whose call throws
    is deleted from the set.  Returns the set after the loop and the stubs
    whose [receiveMessage] was called, in order. *)
Fixpoint broadcast_loop (receive : Client -> bool) (snapshot clients : list Client)
  : list Client * list Client :=
  match snapshot with
  | [] => (clients, [])
  | clientStub :: rest =>
      let clients1 :=
        if receive clientStub then clients
        else filter (fun c => c ≠ clientStub) clients in
      let '(clients2, called) := broadcast_loop receive rest clients1 in
      (clients2, clientStub :: called)
  end.

Definition broadcastMessage (receive : Client -> Message -> bool)
    (message : Message) (clients : list Client) : list Client * list Client :=
  broadcast_loop (fun c => receive c message) clients clients.

(** [this.clients.add(clientStub)] *)
Definition registerClient (clientStub : Client) (clients : list Client)
  : list Client :=
  if bool_decide (clientStub ∈ clients) then clients else clients ++ [clientStub].

(** ** The batch handlers ([rpc.ts]) *)

Inductive PayloadResult : Type :=
  | success (value : json)
  | failure (message : string).

(** [new Response(responseLine, { headers })] *)
Record Response : Type := {
  text : string;
  x_capnweb_call_count : string;
}.

(** What a handler leaves behind: its answer ([None] is [null], the batch was
    not recognized), storage, the hub's set of stubs and the stubs whose
    [receiveMessage] it called. *)
Record Outcome (A : Type) : Type := {
  answer : A;
  storage : Storage;
  clients : option (list Client);
  called : list Client;
}.
Arguments answer {A} _.
Arguments storage {A} _.
Arguments clients {A} _.
Arguments called {A} _.

(** What the [switch] of [tryHandleChatBatch] leaves behind. *)
Record Effect : Type := {
  eff_chatState : ChatState;
  eff_mutated : bool;
  eff_payloadResult : PayloadResult;
  eff_clients : option (list Client);
  eff_called : list Client;
}.

Definition with_messages (st : ChatState) (m : list Message) : ChatState :=
  {| credentials := credentials st; messages := m;
     nextSessionCapId := nextSessionCapId st; sessionCaps := sessionCaps st;
     registeredNicks := registeredNicks st; nickOwners := nickOwners st;
     nickTokens := nickTokens st |}.

Definition with_session (st : ChatState) (next : Z)
    (caps : gmap string SessionInfo) : ChatState :=
  {| credentials := credentials st; messages := messages st;
     nextSessionCapId := next; sessionCaps := caps;
     registeredNicks := registeredNicks st; nickOwners := nickOwners st;
     nickTokens := nickTokens st |}.

Definition with_nick (st : ChatState) (caps : gmap string SessionInfo)
    (nicks owners : gmap string string) : ChatState :=
  {| credentials := credentials st; messages := messages st;
     nextSessionCapId := nextSessionCapId st; sessionCaps := caps;
     registeredNicks := nicks; nickOwners := owners;
     nickTokens := nickTokens st |}.

Definition with_tokens (st : ChatState) (tokens : list (string * NickTokenInfo))
  : ChatState :=
  {| credentials := credentials st; messages := messages st;
     nextSessionCapId := nextSessionCapId st; sessionCaps := sessionCaps st;
     registeredNicks := registeredNicks st; nickOwners := nickOwners st;
     nickTokens := tokens |}.

(** [while (chatState.sessionCaps[String(sessionCapId)]) sessionCapId += 1].
    A key [String(n)] is never a member of [Object.prototype]
    ([String_of_number_not_inherited] below), so the read is a read of an own
    entry.  The loop is bounded by the size of the table: [allocate] gives
    it one turn more than the table has entries. *)
Fixpoint probe (turns : nat) (caps : gmap string SessionInfo) (sessionCapId : Z) : Z :=
  match turns with
  | O => sessionCapId
  | S turns' =>
      match caps !! String_of_number sessionCapId with
      | Some _ => probe turns' caps (sessionCapId + 1)
      | None => sessionCapId
      end
  end.

Definition allocate (st : ChatState) : Z :=
  probe (S (size (sessionCaps st))) (sessionCaps st) (nextSessionCapId st).

Definition capability (id : Z) : json :=
  JObj [("_type", JStr "capability"); ("id", JNum id)].

Definition status_error (message : string) : json :=
  JObj [("status", JStr "error"); ("message", JStr message)].

Definition status_ok_message (message : string) : json :=
  JObj [("status", JStr "ok"); ("message", JStr message)].

Definition unchanged (st : ChatState) (env : Env) (r : PayloadResult) : Effect :=
  {| eff_chatState := st; eff_mutated := false; eff_payloadResult := r;
     eff_clients := serverInstance env; eff_called := [] |}.

Definition changed (st : ChatState) (env : Env) (r : PayloadResult) : Effect :=
  {| eff_chatState := st; eff_mutated := true; eff_payloadResult := r;
     eff_clients := serverInstance env; eff_called := [] |}.

(** [sessionInfo.displayName ?? sessionInfo.username] *)
Definition display_identity (sessionInfo : SessionInfo) : string :=
  match displayName sessionInfo with
  | Some d => d
  | None => username sessionInfo
  end.

(** The branch [capabilityId === CHAT_CAPABILITY_ID].

    In [redeemNickToken], when the token names a member inherited from
    [Object.prototype] the value read is a function: truthy, without
    [username] or [nickname].  The session and the token entry the code then
    stores have no [username]; [JSON.stringify] writes them without it and
    [normalizeChatState] drops both on the next load, so they are not kept
    in the aggregate here.  The capability id is consumed all the same. *)
Definition chat_service (method : string) (args : list json) (env : Env)
    (chatState : ChatState) : Effect :=
  if String.eqb method "auth" then
    match args with
    | JStr _username :: _ =>
        let sessionCapId := allocate chatState in
        let storedUsername := "guest-" ++ String_of_number sessionCapId in
        changed
          (with_session chatState (sessionCapId + 1)
             (set (String_of_number sessionCapId)
                {| username := storedUsername; displayName := None |}
                (sessionCaps chatState)))
          env
          (success (JObj [("session", capability sessionCapId);
                          ("user", JStr storedUsername)]))
    | _ => unchanged chatState env (failure "`auth` expects <username>")
    end
  else if String.eqb method "redeemNickToken" then
    match args with
    | [JStr arg] =>
        let token := trim arg in
        if String.eqb token "" then
          unchanged chatState env (success (status_error "Token must be provided"))
        else
          match get_entry token (nickTokens chatState) with
          | Missing =>
              unchanged chatState env (success (status_error "Token not recognized"))
          | Own tokenInfo =>
              let sessionCapId := allocate chatState in
              let nick :=
                match token_nickname tokenInfo with
                | Some n => n
                | None => token_username tokenInfo
                end in
              changed
                (with_tokens
                   (with_session chatState (sessionCapId + 1)
                      (set (String_of_number sessionCapId)
                         {| username := token_username tokenInfo;
                            displayName := Some nick |}
                         (sessionCaps chatState)))
                   (set_entry token
                      {| token_username := token_username tokenInfo;
                         token_nickname := token_nickname tokenInfo;
                         issuedAt := issuedAt tokenInfo;
                         lastUsed := Some (now env) |}
                      (nickTokens chatState)))
                env
                (success (JObj [("status", JStr "ok");
                                ("session", capability sessionCapId);
                                ("user", JStr (token_username tokenInfo));
                                ("nickname", JStr nick)]))
          | Inherited =>
              let sessionCapId := allocate chatState in
              changed
                (with_session chatState (sessionCapId + 1) (sessionCaps chatState))
                env
                (success (JObj [("status", JStr "ok");
                                ("session", capability sessionCapId)]))
          end
    | _ => unchanged chatState env (failure "`redeemNickToken` expects <token>")
    end
  else if String.eqb method "sendMessage" || String.eqb method "receiveMessages" then
    unchanged chatState env
      (failure "Call this method on the session capability returned by `auth`")
  else
    unchanged chatState env (failure ("Unknown chat method: " ++ method)).

(** [.sort(([, a], [, b]) => b.issuedAt - a.issuedAt)]: the sort of the
    language is stable; entries come out by descending [issuedAt], equal ones
    in the order they had. *)
Fixpoint insert_by_issuedAt (e : string * NickTokenInfo)
    (sorted : list (string * NickTokenInfo)) : list (string * NickTokenInfo) :=
  match sorted with
  | [] => [e]
  | e' :: rest =>
      if (issuedAt e.2 <? issuedAt e'.2)%Z
      then e' :: insert_by_issuedAt e rest
      else e :: sorted
  end.

Definition sort_by_issuedAt (l : list (string * NickTokenInfo))
  : list (string * NickTokenInfo) :=
  foldr insert_by_issuedAt [] l.

(** [Object.entries(nickTokens).filter(([, info]) => info.username === user)
    .sort(...)] *)
Definition tokensForUser (user : string) (tokens : list (string * NickTokenInfo))
  : list (string * NickTokenInfo) :=
  sort_by_issuedAt (filter (fun e => token_username e.2 = user) tokens).

(** [tokensForUser.slice(5).forEach(([tokenKey]) => delete nickTokens[tokenKey])] *)
Definition prune_tokens (user : string) (tokens : list (string * NickTokenInfo))
  : list (string * NickTokenInfo) :=
  fold_left (fun table e => delete_entry e.1 table)
    (drop 5 (tokensForUser user tokens)) tokens.

(** The entries of the user that a pruning keeps and those it deletes. *)
Definition kept_tokens (user : string) (tokens : list (string * NickTokenInfo))
  : list (string * NickTokenInfo) :=
  take 5 (tokensForUser user tokens).

Definition gone_tokens (user : string) (tokens : list (string * NickTokenInfo))
  : list (string * NickTokenInfo) :=
  drop 5 (tokensForUser user tokens).

(** The truth value of [chatState.registeredNicks[nickname]]. *)
Definition nick_registered (nickname : string) (chatState : ChatState) : bool :=
  match get nickname (registeredNicks chatState) with
  | Own storedPassword => negb (String.eqb storedPassword "")
  | Inherited => true
  | Missing => false
  end.

(** The entry [storeNickToken] writes: [{username, ...(displayName ?
    {nickname: displayName} : {}), issuedAt: now, lastUsed: now}]. *)
Definition issued_token (sessionInfo : SessionInfo) (now : Z) : NickTokenInfo :=
  {| token_username := username sessionInfo;
     token_nickname :=
       match displayName sessionInfo with
       | Some d => if String.eqb d "" then None else Some d
       | None => None
       end;
     issuedAt := now;
     lastUsed := Some now |}.

(** The branch of a session capability that resolved to [sessionInfo]. *)
Definition chat_session (capabilityId : Z) (sessionInfo : SessionInfo)
    (method : string) (args : list json) (env : Env) (chatState : ChatState)
  : Effect :=
  if String.eqb method "sendMessage" then
    match args with
    | [JStr message] =>
        let newMessage :=
          {| from := display_identity sessionInfo; body := message;
             timestamp := now env |} in
        let st := with_messages chatState (messages chatState ++ [newMessage]) in
        let result :=
          success (JObj [("status", JStr "ok"); ("echo", JStr message)]) in
        match serverInstance env with
        | Some members =>
            let '(members', called) :=
              broadcastMessage (receiveMessage env) newMessage members in
            {| eff_chatState := st; eff_mutated := true;
               eff_payloadResult := result;
               eff_clients := Some members'; eff_called := called |}
        | None => changed st env result
        end
    | _ => unchanged chatState env (failure "`sendMessage` expects <message>")
    end
  else if String.eqb method "receiveMessages" then
    match args with
    | [] =>
        unchanged chatState env
          (success (JObj [("messages",
                           JArr (message_to_json <$> messages chatState))]))
    | _ => unchanged chatState env (failure "`receiveMessages` takes no arguments")
    end
  else if String.eqb method "registerNick" then
    match args with
    | [JStr nickname; JStr password] =>
        if nick_registered nickname chatState then
          unchanged chatState env
            (success (status_error "Nickname already registered"))
        else
          changed
            (with_nick chatState
               (set (String_of_number capabilityId)
                  {| username := username sessionInfo;
                     displayName := Some nickname |}
                  (sessionCaps chatState))
               (set nickname password (registeredNicks chatState))
               (set nickname (username sessionInfo) (nickOwners chatState)))
            env
            (success (status_ok_message
                        ("Nickname '" ++ nickname ++ "' registered successfully")))
    | _ =>
        unchanged chatState env
          (failure "`registerNick` expects <nickname>, <password>")
    end
  else if String.eqb method "identifyNick" then
    match args with
    | [JStr nickname; JStr password] =>
        match get nickname (registeredNicks chatState) with
        | Missing =>
            unchanged chatState env (success (status_error "Nickname not registered"))
        | Inherited =>
            unchanged chatState env (success (status_error "Invalid password"))
        | Own storedPassword =>
            if String.eqb storedPassword "" then
              unchanged chatState env
                (success (status_error "Nickname not registered"))
            else if negb (String.eqb storedPassword password) then
              unchanged chatState env (success (status_error "Invalid password"))
            else
              changed
                (with_nick chatState
                   (set (String_of_number capabilityId)
                      {| username := username sessionInfo;
                         displayName := Some nickname |}
                      (sessionCaps chatState))
                   (registeredNicks chatState)
                   (set nickname (username sessionInfo) (nickOwners chatState)))
                env
                (success (status_ok_message
                            ("Successfully identified as '" ++ nickname ++ "'")))
        end
    | _ =>
        unchanged chatState env
          (failure "`identifyNick` expects <nickname>, <password>")
    end
  else if String.eqb method "checkNick" then
    match args with
    | [JStr nickname] =>
        unchanged chatState env
          (success (JObj [("status", JStr "ok");
                          ("registered", JBool (nick_registered nickname chatState))]))
    | _ => unchanged chatState env (failure "`checkNick` expects <nickname>")
    end
  else if String.eqb method "storeNickToken" then
    match args with
    | [JStr arg] =>
        let token := trim arg in
        if String.eqb token "" then
          unchanged chatState env (success (status_error "Token must be provided"))
        else
          let stored :=
            set_entry token (issued_token sessionInfo (now env))
              (nickTokens chatState) in
          changed
            (with_tokens chatState (prune_tokens (username sessionInfo) stored))
            env
            (success (status_ok_message "Nickname token stored"))
    | _ => unchanged chatState env (failure "`storeNickToken` expects <token>")
    end
  else if String.eqb method "whoami" then
    unchanged chatState env
      (success (JObj [("username", JStr (display_identity sessionInfo))]))
  else
    unchanged chatState env
      (failure ("method " ++ method ++ " not supported on session capability")).

(** The [if]/[else] on [capabilityId] around the two [switch]es. *)
Definition chat_call (capabilityId : Z) (method : string) (args : list json)
    (env : Env) (chatState : ChatState) : Effect :=
  if (capabilityId =? CHAT_CAPABILITY_ID)%Z then
    chat_service method args env chatState
  else
    match sessionCaps chatState !! String_of_number capabilityId with
    | None =>
        unchanged chatState env (failure "unknown session capability")
    | Some sessionInfo =>
        chat_session capabilityId sessionInfo method args env chatState
    end.

(** [payload.split("\n").map((line) => line.trim()).filter((line) =>
    line.length > 0)] *)
Definition batch_lines (payload : string) : list string :=
  filter (fun line => line ≠ "") (trim <$> split_lines payload).

(** [Array.isArray(op) && op[0] === tag] *)
Definition tagged (tag : string) (op : option json) : bool :=
  match op with
  | Some (JArr (JStr t :: _)) => String.eqb t tag
  | _ => false
  end.

(** [Array.isArray(path) && typeof path[0] === "string" ? path[0] : null] *)
Definition method_of (path : option json) : option string :=
  match path with
  | Some (JArr (JStr m :: _)) => Some m
  | _ => None
  end.

Section Handlers.

(** The host's [JSON.parse] ([None]: it throws), the message of the
    [SyntaxError] it throws, and [JSON.stringify]. *)
Variable JSON_parse : string -> option json.
Variable SyntaxError_message : string -> string.
Variable JSON_stringify : json -> string.

(** [readDurableStats] *)
Definition readDurableStats (state : Storage) : json :=
  JObj [("callCount", JNum (default 0%Z (callCount state)));
        ("lastRequest", from_option JStr JNull (lastRequest state));
        ("lastResponse", from_option JStr JNull (lastResponse state))].

Definition not_recognized (env : Env) (state : Storage) : Outcome (option Response) :=
  {| answer := None; storage := state; clients := serverInstance env; called := [] |}.

Definition tryHandleStatsBatch (payload : string) (env : Env) (state : Storage)
  : Outcome (option Response) :=
  match batch_lines payload with
  | [line0; line1] =>
      match JSON_parse line0, JSON_parse line1 with
      | Some pushOp, Some pullOp =>
          if negb (tagged "push" (Some pushOp)) then not_recognized env state
          else
            let callOp := item 1 pushOp in
            if negb (tagged "call" callOp) then not_recognized env state
            else
              let path := callOp ≫= item 2 in
              if negb (bool_decide (method_of path = Some "stats"))
              then not_recognized env state
              else if negb (tagged "pull" (Some pullOp)) then not_recognized env state
              else
                match item 1 pullOp with
                | Some (JNum importId) =>
                    let stats := readDurableStats state in
                    let responseLine :=
                      JSON_stringify (JArr [JStr "result"; JNum importId; stats]) in
                    {| answer :=
                         Some {| text := responseLine;
                                 x_capnweb_call_count :=
                                   String_of_number (default 0%Z (callCount state)) |};
                       storage := state;
                       clients := serverInstance env;
                       called := [] |}
                | _ => not_recognized env state
                end
      | _, _ => not_recognized env state
      end
  | _ => not_recognized env state
  end.

(** The guards that open [tryHandleChatBatch]: the import id, the capability
    id, the method and the arguments of a batch, or [None] where the code
    returns [null]. *)
Definition chat_batch (payload : string) : option (Z * Z * string * list json) :=
  match batch_lines payload with
  | [line0; line1] =>
      match JSON_parse line0, JSON_parse line1 with
      | Some pushOp, Some pullOp =>
          if negb (tagged "push" (Some pushOp)) then None
          else if negb (tagged "pull" (Some pullOp)) then None
          else
            match item 1 pullOp with
            | Some (JNum importId) =>
                let callOp := item 1 pushOp in
                if negb (tagged "call" callOp) then None
                else
                  match callOp ≫= item 1 with
                  | Some (JNum capabilityId) =>
                      match method_of (callOp ≫= item 2) with
                      | Some method =>
                          if String.eqb method "" then None
                          else
                            match callOp ≫= item 3 with
                            | Some (JArr args) =>
                                Some (importId, capabilityId, method, args)
                            | _ => None
                            end
                      | None => None
                      end
                  | _ => None
                  end
            | _ => None
            end
      | _, _ => None
      end
  | _ => None
  end.

Definition reply_of (importId : Z) (payloadResult : PayloadResult) : json :=
  match payloadResult with
  | success value => JArr [JStr "result"; JNum importId; value]
  | failure message =>
      JArr [JStr "error"; JNum importId; JObj [("message", JStr message)]]
  end.

Definition tryHandleChatBatch (payload : string) (env : Env) (state : Storage)
  : Outcome (option Response) :=
  match chat_batch payload with
  | None => not_recognized env state
  | Some (importId, capabilityId, method, args) =>
      let chatState := loadChatState (now env) state in
      let eff := chat_call capabilityId method args env chatState in
      let state1 :=
        if eff_mutated eff then persistChatState state (eff_chatState eff)
        else state in
      let responseLine := JSON_stringify (reply_of importId (eff_payloadResult eff)) in
      let nextCount := (default 0 (callCount state1) + 1)%Z in
      {| answer :=
           Some {| text := responseLine;
                   x_capnweb_call_count := String_of_number nextCount |};
         storage := put_stats nextCount payload responseLine state1;
         clients := eff_clients eff;
         called := eff_called eff |}
  end.

(** [handleCalculatorCall]: [inl] is the message of the [Error] thrown. *)
Definition handleCalculatorCall (payload : json) : string + json :=
  match item 2 payload with
  | Some (JArr path) =>
      match path with
      | JStr method :: _ =>
          let args :=
            if truthy (item 3 payload) then default (JArr []) (item 3 payload)
            else JArr [] in
          if String.eqb method "add" then
            match args with
            | JArr [JNum a; JNum b] => inr (JNum (a + b))
            | JObj _ =>
                match field "length" args, field "0" args, field "1" args with
                | Some (JNum 2), Some (JNum a), Some (JNum b) => inr (JNum (a + b))
                | _, _, _ => inl "`add` expects exactly two numeric arguments"
                end
            | _ => inl "`add` expects exactly two numeric arguments"
            end
          else if String.eqb method "stats" then
            inl "stats should be handled by tryHandleStatsBatch"
          else inl ("unknown calculator method `" ++ method ++ "`")
      | _ => inl "call method name must be a string"
      end
  | _ => inl "call operation must include a method path array"
  end.

(** The calculator part of [processRpcBatch]: [inl] is the message of what
    the [try] block throws. *)
Definition calculator_batch (input : string) : string + (json * json) :=
  match batch_lines input with
  | [line0; line1] =>
      match JSON_parse line0 with
      | None => inl (SyntaxError_message line0)
      | Some pushOp =>
          match JSON_parse line1 with
          | None => inl (SyntaxError_message line1)
          | Some pullOp =>
              if tagged "push" (Some pushOp) && tagged "pull" (Some pullOp) then
                let callOp := item 1 pushOp in
                if tagged "call" callOp
                   && match callOp ≫= item 1 with
                      | Some (JNum id) => (id =? CALCULATOR_CAP_ID)%Z
                      | _ => false
                      end
                then
                  match handleCalculatorCall (default JNull callOp) with
                  | inr result => inr (default JNull (item 1 pullOp), result)
                  | inl message => inl message
                  end
                else inl "Unsupported operation"
              else inl "Unsupported operation"
          end
      end
  | _ => inl "Unsupported operation"
  end.

Definition processRpcBatch (input : string) (env : Env) (state : Storage)
  : Outcome string :=
  let stats := tryHandleStatsBatch input env state in
  match answer stats with
  | Some statsResponse =>
      {| answer := text statsResponse; storage := storage stats;
         clients := clients stats; called := called stats |}
  | None =>
      let chat := tryHandleChatBatch input env state in
      match answer chat with
      | Some chatResponse =>
          {| answer := text chatResponse; storage := storage chat;
             clients := clients chat; called := called chat |}
      | None =>
          match calculator_batch input with
          | inr (importId, result) =>
              let responseLine :=
                JSON_stringify (JArr [JStr "result"; importId; result]) in
              let nextCount := (default 0 (callCount state) + 1)%Z in
              {| answer := responseLine;
                 storage := put_stats nextCount input responseLine state;
                 clients := serverInstance env; called := [] |}
          | inl message =>
              {| answer :=
                   JSON_stringify
                     (JArr [JStr "error"; JNum 0; JObj [("message", JStr message)]]);
                 storage := state;
                 clients := serverInstance env; called := [] |}
          end
      end
  end.

End Handlers.

(** ** The RPC target of live connections ([server/index.ts])

    [index.ts] carries its own [ChatState] (without [nickTokens], with empty
    default credentials) and its own copies of [normalizeChatState],
    [loadChatState] and [persistChatState]. *)

Module Server.

Record ChatState : Type := {
  credentials : gmap string string;
  messages : list Message;
  nextSessionCapId : Z;
  sessionCaps : gmap string SessionInfo;
  registeredNicks : gmap string string;
  nickOwners : gmap string string;
}.

Definition DEFAULT_CHAT_STATE : ChatState := {|
  credentials := ∅;
  messages := [];
  nextSessionCapId := SESSION_CAPABILITY_START;
  sessionCaps := ∅;
  registeredNicks := ∅;
  nickOwners := ∅;
|}.

Definition cloneDefaultChatState : ChatState := DEFAULT_CHAT_STATE.

Definition normalizeChatState (now : Z) (parsed : json) : ChatState :=
  let base := cloneDefaultChatState in
  if negb (is_object (Some parsed)) then base
  else
    let source := parsed in
    {| credentials := copy_strings (field "credentials" source) (credentials base);
       messages :=
         match field "messages" source with
         | Some (JArr entries) => omap (normalize_message now) entries
         | _ => messages base
         end;
       nextSessionCapId :=
         match field "nextSessionCapId" source with
         | Some (JNum n) => Z.max SESSION_CAPABILITY_START n
         | _ => nextSessionCapId base
         end;
       sessionCaps :=
         if is_object (field "sessionCaps" source) then
           fold_left
             (fun acc '(key, value) =>
                match normalize_session value with
                | Some info => set key info acc
                | None => acc
                end)
             (Object_entries (field "sessionCaps" source)) ∅
         else ∅;
       registeredNicks :=
         copy_strings (field "registeredNicks" source) (registeredNicks base);
       nickOwners := copy_strings (field "nickOwners" source) (nickOwners base) |}.

Definition chatState_to_json (st : ChatState) : json :=
  JObj [("credentials", strings_to_json (credentials st));
        ("messages", JArr (message_to_json <$> messages st));
        ("nextSessionCapId", JNum (nextSessionCapId st));
        ("sessionCaps",
          JObj ((fun e => (e.1, session_to_json e.2)) <$> map_to_list (sessionCaps st)));
        ("registeredNicks", strings_to_json (registeredNicks st));
        ("nickOwners", strings_to_json (nickOwners st))].

Definition loadChatState (now : Z) (state : Storage) : ChatState :=
  match chatState state with
  | None => cloneDefaultChatState
  | Some raw => normalizeChatState now raw
  end.

Definition persistChatState (state : Storage) (st : ChatState) : Storage :=
  {| chatState := Some (chatState_to_json st);
     callCount := callCount state;
     lastRequest := lastRequest state;
     lastResponse := lastResponse state |}.

(** A method of the RPC target: [inl] is the message of the [Error] it
    throws, [inr] the value it returns. *)
Definition thrown {A : Type} (message : string) (members : list Client)
    (state : Storage) : Outcome (string + A) :=
  {| answer := inl message; storage := state; clients := Some members; called := [] |}.

Definition returned {A : Type} (value : A) (members : list Client)
    (state : Storage) : Outcome (string + A) :=
  {| answer := inr value; storage := state; clients := Some members; called := [] |}.

(** [CapnWebDurable.sendMessage], with its own copy of the delivery loop. *)
Definition sendMessage (capabilityId : Z) (message : string) (env : Env)
    (members : list Client) (state : Storage) : Outcome (string + json) :=
  let chatState := loadChatState (now env) state in
  match sessionCaps chatState !! String_of_number capabilityId with
  | None => thrown "unknown session capability" members state
  | Some sessionInfo =>
      let newMessage :=
        {| from := display_identity sessionInfo; body := message;
           timestamp := now env |} in
      let st :=
        {| credentials := credentials chatState;
           messages := messages chatState ++ [newMessage];
           nextSessionCapId := nextSessionCapId chatState;
           sessionCaps := sessionCaps chatState;
           registeredNicks := registeredNicks chatState;
           nickOwners := nickOwners chatState |} in
      let '(members', called) :=
        broadcast_loop (fun c => receiveMessage env c newMessage) members members in
      {| answer := inr (JObj [("status", JStr "ok"); ("echo", JStr message)]);
         storage := persistChatState state st;
         clients := Some members';
         called := called |}
  end.

(** [CapnWebDurable.registerNick] *)
Definition registerNick (capabilityId : Z) (nickname password : string)
    (env : Env) (members : list Client) (state : Storage)
  : Outcome (string + json) :=
  let chatState := loadChatState (now env) state in
  match sessionCaps chatState !! String_of_number capabilityId with
  | None => thrown "unknown session capability" members state
  | Some sessionInfo =>
      let registered :=
        match get nickname (registeredNicks chatState) with
        | Own storedPassword => negb (String.eqb storedPassword "")
        | Inherited => true
        | Missing => false
        end in
      if registered
      then returned (status_error "Nickname already registered") members state
      else
        returned
          (status_ok_message ("Nickname '" ++ nickname ++ "' registered successfully"))
          members
          (persistChatState state
             {| credentials := credentials chatState;
                messages := messages chatState;
                nextSessionCapId := nextSessionCapId chatState;
                sessionCaps :=
                  set (String_of_number capabilityId)
                    {| username := username sessionInfo;
                       displayName := Some nickname |}
                    (sessionCaps chatState);
                registeredNicks := set nickname password (registeredNicks chatState);
                nickOwners :=
                  set nickname (username sessionInfo) (nickOwners chatState) |})
  end.

(** [CapnWebDurable.identifyNick] *)
Definition identifyNick (capabilityId : Z) (nickname password : string)
    (env : Env) (members : list Client) (state : Storage)
  : Outcome (string + json) :=
  let chatState := loadChatState (now env) state in
  match sessionCaps chatState !! String_of_number capabilityId with
  | None => thrown "unknown session capability" members state
  | Some sessionInfo =>
      match get nickname (registeredNicks chatState) with
      | Missing => returned (status_error "Nickname not registered") members state
      | Inherited => returned (status_error "Invalid password") members state
      | Own storedPassword =>
          if String.eqb storedPassword "" then
            returned (status_error "Nickname not registered") members state
          else if negb (String.eqb storedPassword password) then
            returned (status_error "Invalid password") members state
          else
            returned
              (status_ok_message ("Successfully identified as '" ++ nickname ++ "'"))
              members
              (persistChatState state
                 {| credentials := credentials chatState;
                    messages := messages chatState;
                    nextSessionCapId := nextSessionCapId chatState;
                    sessionCaps :=
                      set (String_of_number capabilityId)
                        {| username := username sessionInfo;
                           displayName := Some nickname |}
                        (sessionCaps chatState);
                    registeredNicks := registeredNicks chatState;
                    nickOwners :=
                      set nickname (username sessionInfo) (nickOwners chatState) |})
      end
  end.

(** The loop [while (chatState.sessionCaps[String(sessionCapId)])] of
    [CapnWebDurable.auth]. *)
Definition allocate (st : ChatState) : Z :=
  probe (S (size (sessionCaps st))) (sessionCaps st) (nextSessionCapId st).


(** [CapnWebDurable.receiveMessages] *)
Definition receiveMessages (capabilityId : Z) (env : Env) (members : list Client)
    (state : Storage) : Outcome (string + json) :=
  let chatState := loadChatState (now env) state in
  match sessionCaps chatState !! String_of_number capabilityId with
  | None => thrown "unknown session capability" members state
  | Some _ =>
      returned
        (JObj [("messages", JArr (message_to_json <$> messages chatState))])
        members state
  end.

(** [CapnWebDurable.whoami] *)
Definition whoami (capabilityId : Z) (env : Env) (members : list Client)
    (state : Storage) : Outcome (string + json) :=
  let chatState := loadChatState (now env) state in
  match sessionCaps chatState !! String_of_number capabilityId with
  | None => thrown "unknown session capability" members state
  | Some sessionInfo =>
      returned (JObj [("username", JStr (display_identity sessionInfo))])
        members state
  end.

(** [CapnWebDurable.checkNick] *)
Definition checkNick (capabilityId : Z) (nickname : string) (env : Env)
    (members : list Client) (state : Storage) : Outcome (string + json) :=
  let chatState := loadChatState (now env) state in
  match sessionCaps chatState !! String_of_number capabilityId with
  | None => thrown "unknown session capability" members state
  | Some _ =>
      returned
        (JObj [("status", JStr "ok");
               ("registered",
                 JBool match get nickname (registeredNicks chatState) with
                       | Own storedPassword => negb (String.eqb storedPassword "")
                       | Inherited => true
                       | Missing => false
                       end)])
        members state
  end.

End Server.

(** ** The terminal client

    The command line of the terminal client: [ensureScheme],
    [normalizeEndpoint] and [parseCli].  [process.argv.slice(2)] and the
    environment variable [CAPINRS_SERVER_HOST] are inputs of [parseCli];
    [process.exit(code)] ends it with the lines it wrote to [console.error]
    (the usage text of [--help] goes to [console.log] and is not kept). *)

Module Client.

Definition DEFAULT_BACKEND : string := "ws://localhost:8787".

(** [hay.includes(needle)] *)
Fixpoint includes (needle hay : string) : bool :=
  String.prefix needle hay
  || match hay with
     | EmptyString => false
     | String _ hay' => includes needle hay'
     end.

Definition ensureScheme (raw fallback : string) : string :=
  if includes "://" raw then raw else fallback ++ raw.

Definition normalizeEndpoint (raw defaultScheme : string) : string :=
  ensureScheme raw defaultScheme.

Inductive Parsed (A : Type) : Type :=
  | parsed (a : A)
  | exited (code : Z) (errors : list string).
Arguments parsed {A} a.
Arguments exited {A} code errors.

(** The loop [for (let i = 0; i < args.length; i++)] with its [switch]; the
    value of a [--url] is skipped by the [i++] of its case. *)
Fixpoint parse_args (args : list string) (urlOverride : option string)
  : Parsed (option string) :=
  match args with
  | [] => parsed urlOverride
  | arg :: rest =>
      if String.eqb arg "--help" || String.eqb arg "-h" then exited 0 []
      else if String.eqb arg "--url" || String.eqb arg "--host" then
        match rest with
        | [] => exited 1 ["`--url` requires a value"]
        | value :: rest' => parse_args rest' (Some value)
        end
      else if String.prefix "-" arg then
        exited 1 ["Unrecognized flag `" ++ arg ++ "`"]
      else exited 1 ["Unexpected argument `" ++ arg ++ "`"]
  end.

(** [a || b] on strings that may be [undefined] *)
Definition or_else (a b : option string) : option string :=
  match a with
  | Some s => if String.eqb s "" then b else Some s
  | None => b
  end.

(** [parseCli]: the [url] of the options it returns. *)
Definition parseCli (args : list string) (CAPINRS_SERVER_HOST : option string)
  : Parsed string :=
  match parse_args args None with
  | exited code errors => exited code errors
  | parsed urlOverride =>
      let envOverride := CAPINRS_SERVER_HOST in
      let rawTarget :=
        default DEFAULT_BACKEND
          (or_else (or_else urlOverride envOverride) (Some DEFAULT_BACKEND)) in
      parsed (normalizeEndpoint rawTarget "http://")
  end.

End Client.

(** ** A reference [JSON.parse] and [JSON.stringify]

    Enough of JSON to run the handlers on request text: integers, strings
    with the two-character escapes, arrays and objects.  A number with a
    fraction or an exponent and a [\u] escape are outside the fragment and
    are refused. *)

Module Reference.

Definition is_json_space (c : ascii) : bool :=
  let n := nat_of_ascii c in
  Nat.eqb n 32 || Nat.eqb n 9 || Nat.eqb n 10 || Nat.eqb n 13.

Fixpoint skip_space (s : list ascii) : list ascii :=
  match s with
  | c :: s' => if is_json_space c then skip_space s' else s
  | [] => []
  end.

Definition is_digit (c : ascii) : bool :=
  let n := nat_of_ascii c in Nat.leb 48 n && Nat.leb n 57.

Fixpoint take_digits (s : list ascii) : list ascii * list ascii :=
  match s with
  | c :: s' =>
      if is_digit c then let '(ds, rest) := take_digits s' in (c :: ds, rest)
      else ([], s)
  | [] => ([], [])
  end.

Definition parse_number (negative : bool) (s : list ascii) : option (json * list ascii) :=
  let '(ds, rest) := take_digits s in
  let continues :=
    match rest with
    | c :: _ => Ascii.eqb c "." || Ascii.eqb c "e" || Ascii.eqb c "E"
    | [] => false
    end in
  match ds, digits_value 0 ds with
  | d :: more, Some n =>
      if continues || (Ascii.eqb d "0" && negb (bool_decide (more = []))) then None
      else Some (JNum (if negative then - Z.of_N n else Z.of_N n), rest)
  | _, _ => None
  end.

Definition unescape (c : ascii) : option ascii :=
  let n := nat_of_ascii c in
  if Nat.eqb n 34 || Nat.eqb n 92 || Nat.eqb n 47 then Some c
  else if Ascii.eqb c "n" then Some "010"%char
  else if Ascii.eqb c "t" then Some "009"%char
  else if Ascii.eqb c "r" then Some "013"%char
  else if Ascii.eqb c "b" then Some "008"%char
  else if Ascii.eqb c "f" then Some "012"%char
  else None.

(** The characters after an opening quote, up to the closing one. *)
Fixpoint parse_string (s : list ascii) : option (string * list ascii) :=
  match s with
  | [] => None
  | c :: s' =>
      let n := nat_of_ascii c in
      if Nat.eqb n 34 then Some (EmptyString, s')
      else if Nat.eqb n 92 then
        match s' with
        | e :: s'' =>
            match unescape e, parse_string s'' with
            | Some c', Some (str, rest) => Some (String c' str, rest)
            | _, _ => None
            end
        | [] => None
        end
      else if Nat.ltb n 32 then None
      else
        match parse_string s' with
        | Some (str, rest) => Some (String c str, rest)
        | None => None
        end
  end.

Fixpoint strip_prefix (p s : list ascii) : option (list ascii) :=
  match p, s with
  | [], _ => Some s
  | a :: p', b :: s' => if Ascii.eqb a b then strip_prefix p' s' else None
  | _ :: _, [] => None
  end.

(** A parsed member is created as an own property, whatever its name. *)
Definition add_member (key : string) (v : json) (members : list (string * json))
  : list (string * json) :=
  match assoc key members with
  | Some _ => replace key v members
  | None => define key v members
  end.

Fixpoint parse_value (fuel : nat) (s : list ascii) {struct fuel}
  : option (json * list ascii) :=
  match fuel with
  | O => None
  | S fuel' =>
      match skip_space s with
      | [] => None
      | c :: rest =>
          let n := nat_of_ascii c in
          if Nat.eqb n 34 then
            match parse_string rest with
            | Some (str, rest') => Some (JStr str, rest')
            | None => None
            end
          else if Ascii.eqb c "[" then
            match skip_space rest with
            | c' :: rest' =>
                if Ascii.eqb c' "]" then Some (JArr [], rest')
                else parse_items fuel' [] rest
            | [] => None
            end
          else if Ascii.eqb c "{" then
            match skip_space rest with
            | c' :: rest' =>
                if Ascii.eqb c' "}" then Some (JObj [], rest')
                else parse_members fuel' [] rest
            | [] => None
            end
          else if Ascii.eqb c "-" then parse_number true rest
          else if is_digit c then parse_number false (c :: rest)
          else
            match strip_prefix (list_ascii_of_string "null") (c :: rest),
                  strip_prefix (list_ascii_of_string "true") (c :: rest),
                  strip_prefix (list_ascii_of_string "false") (c :: rest) with
            | Some rest', _, _ => Some (JNull, rest')
            | _, Some rest', _ => Some (JBool true, rest')
            | _, _, Some rest' => Some (JBool false, rest')
            | _, _, _ => None
            end
      end
  end
with parse_items (fuel : nat) (acc : list json) (s : list ascii) {struct fuel}
  : option (json * list ascii) :=
  match fuel with
  | O => None
  | S fuel' =>
      match parse_value fuel' s with
      | Some (v, rest) =>
          match skip_space rest with
          | c :: rest' =>
              if Ascii.eqb c "," then parse_items fuel' (acc ++ [v]) rest'
              else if Ascii.eqb c "]" then Some (JArr (acc ++ [v]), rest')
              else None
          | [] => None
          end
      | None => None
      end
  end
with parse_members (fuel : nat) (acc : list (string * json)) (s : list ascii)
    {struct fuel} : option (json * list ascii) :=
  match fuel with
  | O => None
  | S fuel' =>
      match skip_space s with
      | q :: rest =>
          if Nat.eqb (nat_of_ascii q) 34 then
            match parse_string rest with
            | Some (key, rest1) =>
                match skip_space rest1 with
                | colon :: rest2 =>
                    if Ascii.eqb colon ":" then
                      match parse_value fuel' rest2 with
                      | Some (v, rest3) =>
                          match skip_space rest3 with
                          | c :: rest4 =>
                              if Ascii.eqb c ","
                              then parse_members fuel' (add_member key v acc) rest4
                              else if Ascii.eqb c "}"
                              then Some (JObj (add_member key v acc), rest4)
                              else None
                          | [] => None
                          end
                      | None => None
                      end
                    else None
                | [] => None
                end
            | None => None
            end
          else None
      | [] => None
      end
  end.

Definition JSON_parse (s : string) : option json :=
  let cs := list_ascii_of_string s in
  match parse_value (S (length cs)) cs with
  | Some (v, rest) =>
      match skip_space rest with
      | [] => Some v
      | _ :: _ => None
      end
  | None => None
  end.

Definition SyntaxError_message (s : string) : string :=
  "Unexpected token in JSON".

Definition hex_digit (n : nat) : ascii :=
  ascii_of_nat (if Nat.ltb n 10 then 48 + n else 87 + n).

Definition escape (c : ascii) : string :=
  let n := nat_of_ascii c in
  let backslash := "092"%char in
  if Nat.eqb n 34 || Nat.eqb n 92 then String backslash (String c EmptyString)
  else if Nat.eqb n 10 then String backslash "n"
  else if Nat.eqb n 9 then String backslash "t"
  else if Nat.eqb n 13 then String backslash "r"
  else if Nat.eqb n 8 then String backslash "b"
  else if Nat.eqb n 12 then String backslash "f"
  else if Nat.ltb n 32 then
    String backslash
      ("u00" ++ String (hex_digit (n / 16)) (String (hex_digit (n mod 16)) EmptyString))
  else String c EmptyString.

Fixpoint escape_all (s : string) : string :=
  match s with
  | EmptyString => EmptyString
  | String c s' => escape c ++ escape_all s'
  end.

Definition quote (s : string) : string :=
  String "034"%char (escape_all s ++ String "034"%char EmptyString).

Fixpoint join (sep : string) (parts : list string) : string :=
  match parts with
  | [] => ""
  | [p] => p
  | p :: rest => p ++ sep ++ join sep rest
  end.

Fixpoint JSON_stringify (v : json) : string :=
  match v with
  | JNull => "null"
  | JBool true => "true"
  | JBool false => "false"
  | JNum n => pretty n
  | JStr s => quote s
  | JArr items => "[" ++ join "," (map JSON_stringify items) ++ "]"
  | JObj members =>
      "{" ++ join "," (map (fun e => quote (fst e) ++ ":" ++ JSON_stringify (snd e)) members)
      ++ "}"
  end.

(** Request text is written with single quotes below; [requote] turns them
    into the double quotes of JSON. *)
Fixpoint requote (s : string) : string :=
  match s with
  | EmptyString => EmptyString
  | String c s' =>
      String (if Ascii.eqb c "'" then "034"%char else c) (requote s')
  end.

(** The two lines of a batch. *)
Definition batch (push pull : string) : string :=
  requote push ++ String "010"%char (requote pull).

End Reference.


(** ** Vocabulary of the properties *)

Section Vocabulary.

Variable JSON_parse : string -> option json.
Variable SyntaxError_message : string -> string.
Variable JSON_stringify : json -> string.

(** Storage after a sequence of requests, each with the environment it
    finds, handed to [processRpcBatch] one after the other. *)
Fixpoint serve (requests : list (string * Env)) (state : Storage) : Storage :=
  match requests with
  | [] => state
  | (input, env) :: rest =>
      serve rest
        (storage (processRpcBatch JSON_parse SyntaxError_message JSON_stringify
                    input env state))
  end.

(** The ways in which request text fails to be a chat batch: the number of
    non-empty trimmed lines, the parse of a line, the [push], [pull] and
    [call] tags, the numbers, the method path, the argument array. *)
Inductive malformed (payload : string) : Prop :=
  | wrong_line_count :
      length (batch_lines payload) <> 2 -> malformed payload
  | unparsable_line (line : string) :
      line ∈ batch_lines payload -> JSON_parse line = None -> malformed payload
  | no_push_tag (line0 line1 : string) (pushOp : json) :
      batch_lines payload = [line0; line1] ->
      JSON_parse line0 = Some pushOp ->
      (forall rest, pushOp <> JArr (JStr "push" :: rest)) ->
      malformed payload
  | no_pull_tag (line0 line1 : string) (pullOp : json) :
      batch_lines payload = [line0; line1] ->
      JSON_parse line1 = Some pullOp ->
      (forall rest, pullOp <> JArr (JStr "pull" :: rest)) ->
      malformed payload
  | no_import_id (line0 line1 : string) (pullOp : json) :
      batch_lines payload = [line0; line1] ->
      JSON_parse line1 = Some pullOp ->
      (forall n, item 1 pullOp <> Some (JNum n)) ->
      malformed payload
  | no_call_tag (line0 line1 : string) (pushOp : json) :
      batch_lines payload = [line0; line1] ->
      JSON_parse line0 = Some pushOp ->
      (forall rest, item 1 pushOp <> Some (JArr (JStr "call" :: rest))) ->
      malformed payload
  | no_capability_id (line0 line1 : string) (pushOp : json) :
      batch_lines payload = [line0; line1] ->
      JSON_parse line0 = Some pushOp ->
      (forall n, item 1 pushOp ≫= item 1 <> Some (JNum n)) ->
      malformed payload
  | no_method (line0 line1 : string) (pushOp : json) :
      batch_lines payload = [line0; line1] ->
      JSON_parse line0 = Some pushOp ->
      (forall m rest, item 1 pushOp ≫= item 2 <> Some (JArr (JStr m :: rest))) ->
      malformed payload
  | empty_method (line0 line1 : string) (pushOp : json) (rest : list json) :
      batch_lines payload = [line0; line1] ->
      JSON_parse line0 = Some pushOp ->
      item 1 pushOp ≫= item 2 = Some (JArr (JStr "" :: rest)) ->
      malformed payload
  | no_arguments (line0 line1 : string) (pushOp : json) :
      batch_lines payload = [line0; line1] ->
      JSON_parse line0 = Some pushOp ->
      (forall args, item 1 pushOp ≫= item 3 <> Some (JArr args)) ->
      malformed payload.

(** A request that calls [storeNickToken] with the argument [arg] on a
    session capability which [state] binds to [user]. *)
Definition stores_token (state : Storage) (user : string)
    (request : string * Env) (arg : string) : Prop :=
  exists importId capabilityId sessionInfo,
    chat_batch JSON_parse request.1
    = Some (importId, capabilityId, "storeNickToken", [JStr arg])
    /\ capabilityId <> CHAT_CAPABILITY_ID
    /\ sessionCaps (loadChatState (now request.2) state)
         !! String_of_number capabilityId = Some sessionInfo
    /\ username sessionInfo = user.

(** The guards that open [tryHandleStatsBatch]: the import id of a stats
    batch, or [None] where the code returns [null]. *)
Definition stats_batch (payload : string) : option Z :=
  match batch_lines payload with
  | [line0; line1] =>
      match JSON_parse line0, JSON_parse line1 with
      | Some pushOp, Some pullOp =>
          if tagged "push" (Some pushOp)
             && tagged "call" (item 1 pushOp)
             && bool_decide (method_of (item 1 pushOp ≫= item 2) = Some "stats")
             && tagged "pull" (Some pullOp)
          then match item 1 pullOp with
               | Some (JNum importId) => Some importId
               | _ => None
               end
          else None
      | _, _ => None
      end
  | _ => None
  end.

(** The requests that [processRpcBatch] counts: those the chat handler or
    the calculator answers. *)
Definition counted (input : string) : bool :=
  match stats_batch input with
  | Some _ => false
  | None =>
      match chat_batch JSON_parse input with
      | Some _ => true
      | None =>
          match calculator_batch JSON_parse SyntaxError_message input with
          | inr _ => true
          | inl _ => false
          end
      end
  end.

End Vocabulary.


Definition envelope (tag : string) (importId : Z) (value : json) : json :=
  JArr [JStr tag; JNum importId; value].

Definition empty_storage : Storage :=
  {| chatState := None; callCount := None; lastRequest := None;
     lastResponse := None |}.

(** Every key of [sessionCaps] is the text of an integer at or above
    [SESSION_CAPABILITY_START], and [nextSessionCapId] is above all of
    them. *)
Definition caps_invariant (st : ChatState) : Prop :=
  forall key, is_Some (sessionCaps st !! key) ->
    exists n, key = String_of_number n
              /\ (SESSION_CAPABILITY_START <= n < nextSessionCapId st)%Z.

(** The number of tokens the table holds for a user. *)
Definition token_count (user : string) (tokens : list (string * NickTokenInfo)) : nat :=
  length (filter (fun e => token_username e.2 = user) tokens).

(** How one call may change the table of sessions: it keeps its keys, and
    adds at most keys of numbers between the old and the new next id. *)
Definition caps_grow (st st' : ChatState) : Prop :=
  (nextSessionCapId st <= nextSessionCapId st')%Z
  /\ forall key, is_Some (sessionCaps st' !! key) ->
       is_Some (sessionCaps st !! key)
       \/ exists n, key = String_of_number n
                    /\ (nextSessionCapId st <= n < nextSessionCapId st')%Z.

(** The order [tokensForUser] leaves the entries in. *)
Definition newer_first (a b : string * NickTokenInfo) : Prop :=
  (issuedAt b.2 <= issuedAt a.2)%Z.

(** What [normalizeChatState] makes of a token entry that [JSON.stringify]
    wrote: an entry without user name is dropped, an empty nickname is left
    out. *)
Definition reload_token (info : NickTokenInfo) : NickTokenInfo :=
  {| token_username := token_username info;
     token_nickname :=
       match token_nickname info with
       | Some n => if String.eqb n "" then None else Some n
       | None => None
       end;
     issuedAt := issuedAt info;
     lastUsed := lastUsed info |}.

Definition reload_entry (e : string * NickTokenInfo)
  : option (string * NickTokenInfo) :=
  if String.eqb (token_username e.2) "" then None else Some (e.1, reload_token e.2).

(** A token table has one entry per key. *)
Definition tokens_ok (tokens : list (string * NickTokenInfo)) : Prop :=
  NoDup tokens.*1 /\ "__proto__" ∉ tokens.*1.

(** Two storages bind the same session capabilities. *)
Definition same_sessions (state state0 : Storage) : Prop :=
  forall c now,
    sessionCaps (loadChatState now state) !! String_of_number c
    = sessionCaps (loadChatState now state0) !! String_of_number c.

(** Where a user stands after storing the tokens [seen]: never more than five
    once a token was stored, and either five or more, or all of [seen]. *)
Definition holds_tokens (user : string) (seen : list string) (state : Storage)
  : Prop :=
  forall now,
    let tokens := nickTokens (loadChatState now state) in
    (seen <> [] -> token_count user tokens <= 5)
    /\ (5 <= token_count user tokens
        \/ forall t, t ∈ seen ->
             exists info, (t, info) ∈ tokens /\ token_username info = user).

(** A payload that refuses the call: an error envelope, or a result whose
    [status] is ["error"]. *)
Definition refused (r : PayloadResult) : Prop :=
  match r with
  | failure _ => True
  | success value => field "status" value = Some (JStr "error")
  end.

(** The author and the text of a message. *)
Definition heard (m : Message) : string * string := (from m, body m).

(** The hub after the connections [stubs] were registered in turn. *)
Definition register_all (stubs : list Client) : list Client :=
  fold_left (fun clients clientStub => registerClient clientStub clients) stubs [].

(** A command line made of flags with their values. *)
Fixpoint spelled (pairs : list (string * string)) : list string :=
  match pairs with
  | [] => []
  | (flag, value) :: rest => flag :: value :: spelled rest
  end.

(** The outcome of a method of the RPC target as the payload of the batch
    handler: what is thrown is an error envelope, what is returned a
    result. *)
Definition as_payload (r : string + json) : PayloadResult :=
  match r with
  | inl message => failure message
  | inr value => success value
  end.

(** White space only. *)
Definition blank (s : string) : Prop :=
  Forall (fun c => is_white_space c = true) (list_ascii_of_string s).

(** ** Sample requests

    Request text for the reference decoder, and the quiet environment it is
    served in: a clock, no server instance. *)

Definition quiet (clock : Z) : Env :=
  {| now := clock; serverInstance := None; receiveMessage := fun _ _ => true |}.

Definition call_batch (capabilityId : Z) (method arguments : string) : string :=
  Reference.batch
    ("['push',['call'," ++ String_of_number capabilityId ++ ",['" ++ method
     ++ "']," ++ arguments ++ "]]")
    "['pull',1]".

Definition auth_request : string * Env :=
  (call_batch CHAT_CAPABILITY_ID "auth" "['ann']", quiet 0).

Definition store_request (capabilityId : Z) (token : string) (clock : Z)
  : string * Env :=
  (call_batch capabilityId "storeNickToken" ("['" ++ token ++ "']"), quiet clock).

Definition serve_ref : list (string * Env) -> Storage -> Storage :=
  serve Reference.JSON_parse Reference.SyntaxError_message Reference.JSON_stringify.

(** Storage after one [auth]: the session 10000 of ["guest-10000"]. *)
Definition one_session : Storage := serve_ref [auth_request] empty_storage.

(** An environment in which the stub 2 throws and the others resolve. *)
Definition lossy (clock : Z) : Env :=
  {| now := clock; serverInstance := Some [1; 2; 3];
     receiveMessage := fun c _ => negb (Nat.eqb c 2) |}.

Definition six_tokens : list string := ["t1"; "t2"; "t3"; "t4"; "t5"; "t6"].

Definition six_stores : list (string * Env) :=
  imap (fun i t => store_request 10000 t (Z.of_nat (S i))) six_tokens.

(** Six different argument strings that trim to one token. *)
Definition six_spellings : list string :=
  ["a"; " a"; "a "; " a "; "  a"; "a  "].

Definition six_spelled_stores : list (string * Env) :=
  imap (fun i t => store_request 10000 t (Z.of_nat (S i))) six_spellings.

(** Two sessions, 10000 and 10001; the first registers the nickname
    ["bob"] with the empty password. *)
Definition bob_without_password : Storage :=
  serve_ref
    [auth_request; auth_request;
     (call_batch 10000 "registerNick" "['bob','']", quiet 1)]
    empty_storage.

Definition stats_request : string * Env :=
  (Reference.batch "['push',['call',1,['stats'],[]]]" "['pull',1]", quiet 0).

(** As before, with the password ["pw"]. *)
Definition bob_registered : Storage :=
  serve_ref
    [auth_request; auth_request;
     (call_batch 10000 "registerNick" "['bob','pw']", quiet 1)]
    empty_storage.

(** The session 10000 after it stored the token ["t1"] at time 5. *)
Definition one_token : Storage :=
  serve_ref [store_request 10000 "t1" 5] one_session.

(** * Properties *)

(** ** Keys made of numbers *)

Lemma String_of_number_inj (n m : Z) :
  String_of_number n = String_of_number m -> n = m.
Proof. unfold String_of_number. apply (inj pretty). Qed.

Lemma pretty_N_go_head (x : N) (s : string) :
  (0 < x)%N -> exists d s', pretty_N_go x s = String (pretty_N_char d) s'.
Proof.
  revert s. induction (N.lt_wf_0 x) as [x _ IH]. intros s Hx.
  rewrite pretty_N_go_step by done.
  destruct (decide (x `div` 10 = 0)%N) as [Hz | Hz].
  - rewrite Hz, pretty_N_go_0. eauto.
  - apply IH; [apply N.div_lt; lia | by apply N.neq_0_lt_0].
Qed.

(** The text of a number starts with a digit or a minus sign. *)
Lemma String_of_number_head (n : Z) :
  exists c s, String_of_number n = String c s
              /\ (c = "-"%char \/ exists d, c = pretty_N_char d).
Proof.
  unfold String_of_number, pretty, pretty_Z. destruct n as [| p | p].
  - exists "0"%char, "". split; [done | right; by exists 0%N].
  - unfold pretty, pretty_positive, pretty, pretty_N.
    destruct (decide (N.pos p = 0%N)) as [? | _]; [done |].
    destruct (pretty_N_go_head (N.pos p) "") as (d & s & ->); [lia |].
    exists (pretty_N_char d), s. eauto.
  - exists "-"%char. eexists. split; [reflexivity | by left].
Qed.

Lemma String_of_number_not_inherited (n : Z) :
  String_of_number n ∉ Object_prototype.
Proof.
  destruct (String_of_number_head n) as (c & s & -> & Hc).
  unfold Object_prototype. intros Hin.
  repeat (apply elem_of_cons in Hin as [Hin | Hin];
          [ injection Hin as Hc' _; destruct Hc as [-> | [d ->]];
            [ discriminate
            | unfold pretty_N_char in Hc'; repeat case_match; discriminate ]
          | ]).
  by apply elem_of_nil in Hin.
Qed.

(** Reading a table at the text of a number reads an own entry, and writing
    there creates one. *)
Lemma get_String_of_number {V : Type} (n : Z) (table : gmap string V) :
  get (String_of_number n) table
  = match table !! String_of_number n with Some v => Own v | None => Missing end.
Proof.
  unfold get, classify. destruct (table !! String_of_number n); [done |].
  rewrite bool_decide_eq_false_2; [done | apply String_of_number_not_inherited].
Qed.

Lemma set_String_of_number {V : Type} (n : Z) (v : V) (table : gmap string V) :
  set (String_of_number n) v table = <[String_of_number n := v]> table.
Proof.
  unfold set. rewrite bool_decide_eq_false_2; [done |].
  intros Heq. apply (String_of_number_not_inherited n). rewrite Heq.
  unfold Object_prototype. set_solver.
Qed.

(** ** Allocation of session capability ids *)

Lemma probe_spec (turns : nat) (caps : gmap string SessionInfo) (id : Z) :
  let r := probe turns caps id in
  (id <= r <= id + Z.of_nat turns)%Z
  /\ (forall j, (id <= j < r)%Z -> is_Some (caps !! String_of_number j))
  /\ ((r < id + Z.of_nat turns)%Z -> caps !! String_of_number r = None).
Proof.
  revert id. induction turns as [| turns IH]; intros id; simpl.
  - repeat split; lia.
  - destruct (caps !! String_of_number id) as [info |] eqn:Hid.
    + destruct (IH (id + 1)%Z) as (Hr & Hocc & Hfree).
      repeat split; [lia | lia | | intros; apply Hfree; lia].
      intros j Hj. destruct (decide (j = id)) as [-> | Hne]; [by rewrite Hid |].
      apply Hocc. lia.
    + repeat split; [lia | lia | intros; lia | done].
Qed.

(** A table cannot hold the keys of more consecutive numbers than it has
    entries. *)
Lemma occupied_run_bounded (caps : gmap string SessionInfo) (id : Z) (len : nat) :
  (forall j, (id <= j < id + Z.of_nat len)%Z -> is_Some (caps !! String_of_number j)) ->
  len <= size caps.
Proof.
  intros Hocc.
  set (keys := String_of_number <$> seqZ id (Z.of_nat len)).
  assert (NoDup keys) as Hnd.
  { apply NoDup_fmap_2; [intros ?? H; by apply String_of_number_inj | apply NoDup_seqZ]. }
  assert (list_to_set keys ⊆ dom caps) as Hsub.
  { intros k Hk. apply elem_of_list_to_set, list_elem_of_fmap in Hk as (j & -> & Hj).
    apply elem_of_seqZ in Hj. apply elem_of_dom, Hocc. lia. }
  apply subseteq_size in Hsub.
  rewrite size_list_to_set, size_dom in Hsub by done.
  unfold keys in Hsub. rewrite length_fmap, length_seqZ in Hsub. lia.
Qed.

(** The loop of [auth] and [redeemNickToken] ends on the first id at or above
    [nextSessionCapId] that the table does not hold. *)
Lemma allocate_spec (st : ChatState) :
  (nextSessionCapId st <= allocate st)%Z
  /\ sessionCaps st !! String_of_number (allocate st) = None
  /\ (forall j, (nextSessionCapId st <= j < allocate st)%Z ->
        is_Some (sessionCaps st !! String_of_number j)).
Proof.
  unfold allocate.
  destruct (probe_spec (S (size (sessionCaps st))) (sessionCaps st)
              (nextSessionCapId st)) as (Hr & Hocc & Hfree).
  repeat split; [lia | | done].
  apply Hfree.
  destruct (decide (probe (S (size (sessionCaps st))) (sessionCaps st)
                      (nextSessionCapId st)
                    = nextSessionCapId st + Z.of_nat (S (size (sessionCaps st))))%Z)
    as [Heq | Hne]; [| lia].
  rewrite Heq in Hocc. apply occupied_run_bounded in Hocc. lia.
Qed.

(** ** The chat batch handler, one request *)

Section ChatBatch.

Variable JSON_parse : string -> option json.
Variable JSON_stringify : json -> string.

Lemma tagged_shape (tag : string) (op : option json) :
  tagged tag op = true <-> exists rest, op = Some (JArr (JStr tag :: rest)).
Proof.
  split.
  - destruct op as [[| | | | [| [] ?] |] |]; simpl; try done.
    intros ->%String.eqb_eq. eauto.
  - intros [rest ->]. simpl. apply String.eqb_refl.
Qed.

(** C7.  Request text that is not a two-line batch of the expected shape
    (wrong number of non-empty trimmed lines, a line that does not parse,
    missing push, pull or call tag, capability id or import id that is not a
    number, method path without a leading string, arguments that are not
    an array) makes the chat handler answer [null]: nothing is thrown,
    storage and hub are untouched, and the next handler gets its turn. *)
Theorem malformed_batch_not_recognized (payload : string) (env : Env)
    (state : Storage) :
  malformed JSON_parse payload ->
  tryHandleChatBatch JSON_parse JSON_stringify payload env state
  = not_recognized env state.
Proof.
  intros Hbad. unfold tryHandleChatBatch.
  enough (chat_batch JSON_parse payload = None) as -> by done.
  unfold chat_batch.
  destruct Hbad as
    [ Hlen | line Hin Hline | l0 l1 pushOp -> Hp Hshape
    | l0 l1 pullOp -> Hp Hshape | l0 l1 pullOp -> Hp Hid
    | l0 l1 pushOp -> Hp Hshape | l0 l1 pushOp -> Hp Hid
    | l0 l1 pushOp -> Hp Hm | l0 l1 pushOp rest -> Hp Hm
    | l0 l1 pushOp -> Hp Hargs ].
  - destruct (batch_lines payload) as [| ? [| ? [| ? ?]]]; simpl in Hlen; done.
  - destruct (batch_lines payload) as [| l0 [| l1 [| ? ?]]]; try done.
    apply elem_of_cons in Hin as [-> | Hin]; [by rewrite Hline |].
    apply elem_of_cons in Hin as [-> | Hin]; [| by apply elem_of_nil in Hin].
    rewrite Hline. by destruct (JSON_parse l0).
  - rewrite Hp. destruct (JSON_parse l1); [| done].
    destruct (tagged "push" (Some pushOp)) eqn:Ht; [| done].
    apply tagged_shape in Ht as [rest [= ->]]. by destruct (Hshape rest).
  - rewrite Hp. destruct (JSON_parse l0); [| done].
    destruct (tagged "push" (Some j)); [| done]. cbn [negb].
    destruct (tagged "pull" (Some pullOp)) eqn:Ht; [| done].
    apply tagged_shape in Ht as [rest [= ->]]. by destruct (Hshape rest).
  - rewrite Hp. destruct (JSON_parse l0); [| done].
    destruct (tagged "push" (Some j)); [| done]. cbn [negb].
    destruct (tagged "pull" (Some pullOp)); [| done]. cbn [negb].
    destruct (item 1 pullOp) as [[| | n | | |] |]; try done. by destruct (Hid n).
  - rewrite Hp. destruct (JSON_parse l1); [| done].
    destruct (tagged "push" (Some pushOp)); [| done]. cbn [negb].
    destruct (tagged "pull" (Some j)); [| done]. cbn [negb].
    destruct (item 1 j) as [[| | n | | |] |]; try done.
    destruct (tagged "call" (item 1 pushOp)) eqn:Ht; [| done].
    apply tagged_shape in Ht as [rest Ht]. by destruct (Hshape rest).
  - rewrite Hp. destruct (JSON_parse l1); [| done].
    destruct (tagged "push" (Some pushOp)); [| done]. cbn [negb].
    destruct (tagged "pull" (Some j)); [| done]. cbn [negb].
    destruct (item 1 j) as [[| | n | | |] |]; try done.
    destruct (tagged "call" (item 1 pushOp)); [| done]. cbn [negb].
    destruct (item 1 pushOp ≫= item 1) as [[| | c | | |] |]; try done.
    by destruct (Hid c).
  - rewrite Hp. destruct (JSON_parse l1); [| done].
    destruct (tagged "push" (Some pushOp)); [| done]. cbn [negb].
    destruct (tagged "pull" (Some j)); [| done]. cbn [negb].
    destruct (item 1 j) as [[| | n | | |] |]; try done.
    destruct (tagged "call" (item 1 pushOp)); [| done]. cbn [negb].
    destruct (item 1 pushOp ≫= item 1) as [[| | c | | |] |]; try done.
    destruct (item 1 pushOp ≫= item 2) as [[| | | | [| [| | | m | |] rest] |] |];
      try done.
    by destruct (Hm m rest).
  - rewrite Hp. destruct (JSON_parse l1); [| done].
    destruct (tagged "push" (Some pushOp)); [| done]. cbn [negb].
    destruct (tagged "pull" (Some j)); [| done]. cbn [negb].
    destruct (item 1 j) as [[| | n | | |] |]; try done.
    destruct (tagged "call" (item 1 pushOp)); [| done]. cbn [negb].
    destruct (item 1 pushOp ≫= item 1) as [[| | c | | |] |]; try done.
    by rewrite Hm.
  - rewrite Hp. destruct (JSON_parse l1); [| done].
    destruct (tagged "push" (Some pushOp)); [| done]. cbn [negb].
    destruct (tagged "pull" (Some j)); [| done]. cbn [negb].
    destruct (item 1 j) as [[| | n | | |] |]; try done.
    destruct (tagged "call" (item 1 pushOp)); [| done]. cbn [negb].
    destruct (item 1 pushOp ≫= item 1) as [[| | c | | |] |]; try done.
    destruct (method_of (item 1 pushOp ≫= item 2)); [| done].
    destruct (String.eqb s ""); [done |].
    destruct (item 1 pushOp ≫= item 3) as [[| | | | args |] |]; try done.
    by destruct (Hargs args).
Qed.

(** C1.  A batch that decodes and whose call targets a number that is neither
    the global chat capability id nor (as text) a key of [sessionCaps] is
    answered, whatever the method, with the protocol-level envelope
    [["error", importId, {message: "unknown session capability"}]] (an error
    envelope, not a [status] value inside a result envelope), and the
    document stored under [chatState] is left as it was. *)
Theorem unknown_capability_is_protocol_error (payload : string) (env : Env)
    (state : Storage) (importId capabilityId : Z) (method : string)
    (args : list json) :
  chat_batch JSON_parse payload = Some (importId, capabilityId, method, args) ->
  capabilityId <> CHAT_CAPABILITY_ID ->
  sessionCaps (loadChatState (now env) state) !! String_of_number capabilityId = None ->
  let out := tryHandleChatBatch JSON_parse JSON_stringify payload env state in
  text <$> answer out
  = Some (JSON_stringify
            (envelope "error" importId
               (JObj [("message", JStr "unknown session capability")])))
  /\ chatState (storage out) = chatState state.
Proof.
  intros Hbatch Hcap Hnone. unfold tryHandleChatBatch. rewrite Hbatch.
  unfold chat_call. apply Z.eqb_neq in Hcap. rewrite Hcap, Hnone. done.
Qed.



(** The stats handler writes nothing. *)
Lemma tryHandleStatsBatch_storage (payload : string) (env : Env) (state : Storage) :
  storage (tryHandleStatsBatch JSON_parse JSON_stringify payload env state) = state.
Proof.
  unfold tryHandleStatsBatch, not_recognized. repeat (case_match; try done).
Qed.

(** C9, as the code has it.  Every batch the chat handler answers, with a
    result or with an error envelope, adds exactly 1 to the stored
    [callCount] and stores the request text and the response line under
    [lastRequest] and [lastResponse]; a batch it does not recognize leaves
    storage as it was.  The stats handler answers its batch with a result
    envelope and writes nothing: the three entries stay as they were. *)
Theorem diagnostics_follow_chat_batches (payload : string) (env : Env)
    (state : Storage) :
  (let out := tryHandleChatBatch JSON_parse JSON_stringify payload env state in
   match answer out with
   | Some r =>
       callCount (storage out) = Some (default 0 (callCount state) + 1)%Z
       /\ lastRequest (storage out) = Some payload
       /\ lastResponse (storage out) = Some (text r)
   | None => storage out = state
   end)
  /\ storage (tryHandleStatsBatch JSON_parse JSON_stringify payload env state) = state.
Proof.
  split.
  - unfold tryHandleChatBatch.
    destruct (chat_batch JSON_parse payload) as [[[[importId cap] method] args] |];
      [| done].
    cbn. by destruct (eff_mutated _).
  - apply tryHandleStatsBatch_storage.
Qed.

(** [registerNick] of a nickname that is registered with a non-empty password
    is answered with the value [{status: "error", message: "Nickname already
    registered"}] in a result envelope, and nothing is written to the
    aggregate. *)
Theorem registerNick_rejects_registered (payload : string) (env : Env)
    (state : Storage) (importId capabilityId : Z) (nickname password stored : string)
    (sessionInfo : SessionInfo) :
  chat_batch JSON_parse payload
  = Some (importId, capabilityId, "registerNick", [JStr nickname; JStr password]) ->
  capabilityId <> CHAT_CAPABILITY_ID ->
  sessionCaps (loadChatState (now env) state) !! String_of_number capabilityId
  = Some sessionInfo ->
  registeredNicks (loadChatState (now env) state) !! nickname = Some stored ->
  stored <> "" ->
  let out := tryHandleChatBatch JSON_parse JSON_stringify payload env state in
  text <$> answer out
  = Some (JSON_stringify
            (envelope "result" importId (status_error "Nickname already registered")))
  /\ chatState (storage out) = chatState state.
Proof.
  intros Hbatch Hcap Hsession Hnick Hstored. unfold tryHandleChatBatch.
  rewrite Hbatch. unfold chat_call. apply Z.eqb_neq in Hcap. rewrite Hcap, Hsession.
  unfold chat_session. cbn [String.eqb Ascii.eqb Bool.eqb].
  unfold nick_registered, get, classify. rewrite Hnick.
  apply String.eqb_neq in Hstored. by rewrite Hstored.
Qed.

(** [identifyNick] with the stored, non-empty password of a registered
    nickname makes the caller the owner of the nickname, whoever owned it,
    and makes the nickname the display name of the session. *)
Theorem identifyNick_transfers_ownership (payload : string) (env : Env)
    (state : Storage) (importId capabilityId : Z) (nickname password : string)
    (sessionInfo : SessionInfo) :
  chat_batch JSON_parse payload
  = Some (importId, capabilityId, "identifyNick", [JStr nickname; JStr password]) ->
  capabilityId <> CHAT_CAPABILITY_ID ->
  sessionCaps (loadChatState (now env) state) !! String_of_number capabilityId
  = Some sessionInfo ->
  registeredNicks (loadChatState (now env) state) !! nickname = Some password ->
  password <> "" ->
  let before := loadChatState (now env) state in
  let out := tryHandleChatBatch JSON_parse JSON_stringify payload env state in
  exists after,
    chatState (storage out) = Some (chatState_to_json after)
    /\ (nickname <> "__proto__" ->
        nickOwners after !! nickname = Some (username sessionInfo))
    /\ sessionCaps after !! String_of_number capabilityId
       = Some {| username := username sessionInfo; displayName := Some nickname |}
    /\ registeredNicks after = registeredNicks before
    /\ text <$> answer out
       = Some (JSON_stringify
                 (envelope "result" importId
                    (status_ok_message
                       ("Successfully identified as '" ++ nickname ++ "'")))).
Proof.
  intros Hbatch Hcap Hsession Hnick Hpassword. unfold tryHandleChatBatch.
  rewrite Hbatch. unfold chat_call. apply Z.eqb_neq in Hcap. rewrite Hcap, Hsession.
  unfold chat_session. cbn [String.eqb Ascii.eqb Bool.eqb].
  unfold get, classify. rewrite Hnick.
  apply String.eqb_neq in Hpassword. rewrite Hpassword, String.eqb_refl.
  cbn [negb eff_mutated changed eff_chatState storage put_stats chatState
       persistChatState].
  eexists. split; [reflexivity |].
  cbn [nickOwners sessionCaps registeredNicks with_nick]. repeat split.
  - intros Hproto. unfold set. rewrite bool_decide_eq_false_2 by done.
    apply lookup_insert_eq.
  - rewrite set_String_of_number. apply lookup_insert_eq.
Qed.

End ChatBatch.

(** ** The broadcast hub *)

Lemma filter_ext_in {A : Type} (P Q : A -> Prop)
    `{!forall x, Decision (P x), !forall x, Decision (Q x)} (l : list A) :
  (forall x, x ∈ l -> P x <-> Q x) -> filter P l = filter Q l.
Proof.
  induction l as [| a l IH]; intros Hext; [done |].
  rewrite !filter_cons.
  rewrite IH by (intros x Hx; apply Hext; by right).
  apply decide_ext, Hext. by left.
Qed.

Lemma filter_all {A : Type} (P : A -> Prop) `{!forall x, Decision (P x)}
    (l : list A) :
  (forall x, x ∈ l -> P x) -> filter P l = l.
Proof.
  induction l as [| a l IH]; intros Hall; [done |].
  rewrite filter_cons_True by (apply Hall; by left).
  f_equal. apply IH. intros x Hx. apply Hall. by right.
Qed.

Lemma broadcast_loop_spec (receive : Client -> bool) (snapshot clients : list Client) :
  broadcast_loop receive snapshot clients
  = (filter (fun c => ~ (c ∈ snapshot /\ receive c = false)) clients, snapshot).
Proof.
  revert clients. induction snapshot as [| stub rest IH]; intros clients; simpl.
  - f_equal. symmetry. apply filter_all.
    intros c _ [Hin _]. by apply elem_of_nil in Hin.
  - rewrite IH. f_equal. destruct (receive stub) eqn:Hstub.
    + apply list_filter_iff. intros c. rewrite elem_of_cons. split.
      * intros Hc [[-> | Hin] Hfail]; [congruence | by apply Hc].
      * intros Hc [Hin Hfail]. apply Hc. by split; [right |].
    + rewrite list_filter_filter. apply list_filter_iff. intros c.
      rewrite elem_of_cons. split.
      * intros [Hc Hne] [[-> | Hin] Hfail]; [done | by apply Hc].
      * intros Hc. split.
        -- intros [Hin Hfail]. apply Hc. by split; [right |].
        -- intros ->. apply Hc. by split; [left |].
Qed.

(** The set after a broadcast: the members whose call resolved. *)
Lemma broadcastMessage_spec (receive : Client -> Message -> bool)
    (message : Message) (members : list Client) :
  broadcastMessage receive message members
  = (filter (fun c => receive c message = true) members, members).
Proof.
  unfold broadcastMessage. rewrite broadcast_loop_spec. f_equal.
  apply filter_ext_in. intros c Hin. split.
  - intros Hc. destruct (receive c message) eqn:Hr; [done |].
    by destruct Hc.
  - intros Hr [_ Hfail]. congruence.
Qed.

(** C6.  Whatever the set of live members and the message, [receiveMessage]
    is called on every member; a member whose call throws is removed from the
    set, every other member is still called and stays, and the [sendMessage]
    that triggered the broadcast still returns [{status: "ok", echo}].  (Each
    call either resolves or throws; a call that never settles is outside
    this model.) *)
Theorem broadcast_isolates_failures (env : Env) (members : list Client)
    (state : Storage) (capabilityId : Z) (message : string)
    (sessionInfo : SessionInfo) :
  Server.sessionCaps (Server.loadChatState (now env) state)
    !! String_of_number capabilityId = Some sessionInfo ->
  let newMessage :=
    {| from := display_identity sessionInfo; body := message;
       timestamp := now env |} in
  let out := Server.sendMessage capabilityId message env members state in
  called out = members
  /\ (forall c, c ∈ members -> receiveMessage env c newMessage = false ->
        forall members', clients out = Some members' -> c ∉ members')
  /\ (forall c, c ∈ members -> receiveMessage env c newMessage = true ->
        exists members', clients out = Some members' /\ c ∈ members')
  /\ answer out = inr (JObj [("status", JStr "ok"); ("echo", JStr message)])
  /\ (forall m, broadcastMessage (receiveMessage env) m members
                = (filter (fun c => receiveMessage env c m = true) members, members))
  /\ (forall importId_cap st,
        let eff :=
          chat_session importId_cap sessionInfo "sendMessage" [JStr message]
            {| now := now env; serverInstance := Some members;
               receiveMessage := receiveMessage env |} st in
        eff_called eff = members
        /\ eff_clients eff
           = Some (filter (fun c => receiveMessage env c newMessage = true) members)
        /\ eff_payloadResult eff
           = success (JObj [("status", JStr "ok"); ("echo", JStr message)])).
Proof.
  intros Hsession newMessage out. subst out. unfold Server.sendMessage.
  rewrite Hsession.
  pose proof (broadcastMessage_spec (receiveMessage env) newMessage members) as Hb.
  unfold broadcastMessage in Hb. fold newMessage. rewrite Hb. cbn.
  repeat split.
  - intros c Hin Hfail members' [= <-]. rewrite list_elem_of_filter. intros [Hok _].
    congruence.
  - intros c Hin Hok. eexists. split; [done |]. by apply list_elem_of_filter.
  - intros m. apply broadcastMessage_spec.
  - unfold chat_session. cbn. fold newMessage. unfold broadcastMessage. by rewrite Hb.
  - unfold chat_session. cbn. fold newMessage. unfold broadcastMessage. by rewrite Hb.
  - unfold chat_session. cbn. fold newMessage. unfold broadcastMessage. by rewrite Hb.
Qed.

(** ** What a reload keeps of the aggregate *)

Lemma fold_set_lookup {V : Type} (l : list (string * V)) (acc : gmap string V)
    (k : string) :
  fold_left (fun acc e => set e.1 e.2 acc) l acc !! k
  = if decide (k = "__proto__") then acc !! k
    else match (list_to_map (reverse l) : gmap string V) !! k with
         | Some v => Some v
         | None => acc !! k
         end.
Proof.
  revert acc. induction l as [| [k0 v0] l IH]; intros acc; simpl.
  - destruct (decide _); [done |]. by rewrite lookup_empty.
  - rewrite IH. destruct (decide (k = "__proto__")) as [-> | Hk].
    + unfold set. case_bool_decide; [done |]. by rewrite lookup_insert_ne.
    + rewrite reverse_cons, list_to_map_app. simpl.
      rewrite lookup_union.
      destruct (list_to_map (reverse l) !! k) as [v |] eqn:Hl.
      * by destruct (<[k0:=v0]> ∅ !! k).
      * unfold set. case_bool_decide as Hp.
        -- subst k0. rewrite lookup_insert_ne, lookup_empty by done. done.
        -- destruct (decide (k0 = k)) as [-> | Hne].
           ++ by rewrite !lookup_insert_eq.
           ++ by rewrite !lookup_insert_ne, lookup_empty by done.
Qed.

Lemma normalize_session_to_json (info : SessionInfo) :
  normalize_session (session_to_json info) = Some info.
Proof. by destruct info as [u [d |]]. Qed.

Lemma reload_sessions_fold (l : list (string * SessionInfo))
    (acc : gmap string SessionInfo) :
  fold_left
    (fun acc '(key, value) =>
       match normalize_session value with
       | Some info => set key info acc
       | None => acc
       end)
    ((fun e => (e.1, session_to_json e.2)) <$> l) acc
  = fold_left (fun acc e => set e.1 e.2 acc) l acc.
Proof.
  revert acc. induction l as [| [k v] l IH]; intros acc; [done |].
  cbn [fmap list_fmap fold_left fst snd]. by rewrite normalize_session_to_json, IH.
Qed.

(** The sessions and the next id of the aggregate read back from the
    document [persistChatState] wrote. *)
Lemma reload_sessionCaps (now : Z) (st : ChatState) (k : string) :
  sessionCaps (normalizeChatState now (chatState_to_json st)) !! k
  = if decide (k = "__proto__") then None else sessionCaps st !! k.
Proof.
  unfold normalizeChatState, chatState_to_json.
  cbn [is_object negb sessionCaps field assoc String.eqb Ascii.eqb Bool.eqb
       Object_entries].
  rewrite reload_sessions_fold, fold_set_lookup.
  destruct (decide _); [done |].
  rewrite <- (list_to_map_to_list (sessionCaps st)) at 2.
  rewrite lookup_empty.
  assert (list_to_map (reverse (map_to_list (sessionCaps st))) !! k
          = (list_to_map (map_to_list (sessionCaps st)) : gmap string SessionInfo) !! k)
    as ->.
  { f_equal. apply list_to_map_proper.
    - rewrite fmap_reverse, reverse_Permutation. apply NoDup_fst_map_to_list.
    - apply reverse_Permutation. }
  by destruct (_ !! k).
Qed.

Lemma reload_nextSessionCapId (now : Z) (st : ChatState) :
  nextSessionCapId (normalizeChatState now (chatState_to_json st))
  = Z.max SESSION_CAPABILITY_START (nextSessionCapId st).
Proof. reflexivity. Qed.

(** ** Session capability ids *)

Lemma load_next_floor (now : Z) (state : Storage) :
  (SESSION_CAPABILITY_START <= nextSessionCapId (loadChatState now state))%Z.
Proof.
  unfold loadChatState. destruct (chatState state) as [raw |]; [| done].
  unfold normalizeChatState. destruct (negb (is_object (Some raw))); [done |].
  cbn [nextSessionCapId]. repeat case_match; try done. lia.
Qed.

(** The sessions and the next id read from storage do not depend on the
    clock of the request that reads them. *)
Lemma load_sessions_clock (now now' : Z) (state : Storage) :
  sessionCaps (loadChatState now state) = sessionCaps (loadChatState now' state)
  /\ nextSessionCapId (loadChatState now state)
     = nextSessionCapId (loadChatState now' state).
Proof.
  unfold loadChatState. destruct (chatState state) as [raw |]; [| done].
  unfold normalizeChatState. by destruct (negb (is_object (Some raw))).
Qed.

Lemma caps_grow_same (st st' : ChatState) :
  sessionCaps st' = sessionCaps st -> nextSessionCapId st' = nextSessionCapId st ->
  caps_grow st st'.
Proof. intros Hc Hn. split; [lia |]. intros key. rewrite Hc. by left. Qed.

Lemma caps_grow_allocate (st : ChatState) (info : SessionInfo) :
  caps_grow st
    (with_session st (allocate st + 1)
       (set (String_of_number (allocate st)) info (sessionCaps st))).
Proof.
  destruct (allocate_spec st) as (Hge & _ & _).
  split; cbn [nextSessionCapId sessionCaps with_session]; [lia |].
  intros key. rewrite set_String_of_number.
  destruct (decide (key = String_of_number (allocate st))) as [-> | Hne].
  - intros _. right. exists (allocate st). split; [done | lia].
  - rewrite lookup_insert_ne by done. by left.
Qed.

Lemma caps_grow_consume (st : ChatState) :
  caps_grow st (with_session st (allocate st + 1) (sessionCaps st)).
Proof.
  destruct (allocate_spec st) as (Hge & _ & _).
  split; cbn [nextSessionCapId sessionCaps with_session]; [lia | by left].
Qed.

Lemma caps_grow_rebind (st : ChatState) (capabilityId : Z)
    (old info : SessionInfo) (nicks owners : gmap string string) :
  sessionCaps st !! String_of_number capabilityId = Some old ->
  caps_grow st
    (with_nick st (set (String_of_number capabilityId) info (sessionCaps st))
       nicks owners).
Proof.
  intros Hold. split; cbn [nextSessionCapId sessionCaps with_nick]; [lia |].
  intros key. rewrite set_String_of_number.
  destruct (decide (key = String_of_number capabilityId)) as [-> | Hne].
  - intros _. left. by rewrite Hold.
  - rewrite lookup_insert_ne by done. by left.
Qed.

Lemma chat_call_caps_grow (capabilityId : Z) (method : string)
    (args : list json) (env : Env) (st : ChatState) :
  caps_grow st (eff_chatState (chat_call capabilityId method args env st)).
Proof.
  unfold chat_call. destruct (capabilityId =? CHAT_CAPABILITY_ID)%Z.
  - unfold chat_service.
    repeat case_match; cbn [eff_chatState changed unchanged];
      first [ by apply caps_grow_same
            | apply caps_grow_allocate
            | apply caps_grow_consume ].
  - destruct (sessionCaps st !! String_of_number capabilityId) as [old |] eqn:Hold;
      [| by apply caps_grow_same].
    unfold chat_session.
    repeat case_match; cbn [eff_chatState changed unchanged];
      first [ by apply caps_grow_same
            | by eapply caps_grow_rebind ].
Qed.

Lemma caps_invariant_grow (st st' : ChatState) :
  (SESSION_CAPABILITY_START <= nextSessionCapId st)%Z ->
  caps_invariant st -> caps_grow st st' -> caps_invariant st'.
Proof.
  intros Hfloor Hinv [Hnext Hkeys] key Hkey.
  destruct (Hkeys key Hkey) as [Hold | (n & -> & Hn)].
  - destruct (Hinv key Hold) as (n & -> & Hn). exists n. split; [done | lia].
  - exists n. split; [done | lia].
Qed.

Section Reachable.

Variable JSON_parse : string -> option json.
Variable SyntaxError_message : string -> string.
Variable JSON_stringify : json -> string.

(** The document under [chatState] after a batch: the one the chat handler
    wrote, if it wrote one. *)
Lemma processRpcBatch_chatState (input : string) (env : Env) (state : Storage) :
  chatState (storage (processRpcBatch JSON_parse SyntaxError_message
                        JSON_stringify input env state))
  = chatState state
  \/ exists importId capabilityId method args,
       chat_batch JSON_parse input = Some (importId, capabilityId, method, args)
       /\ let eff :=
            chat_call capabilityId method args env (loadChatState (now env) state) in
          eff_mutated eff = true
          /\ chatState (storage (processRpcBatch JSON_parse SyntaxError_message
                                   JSON_stringify input env state))
             = Some (chatState_to_json (eff_chatState eff)).
Proof.
  unfold processRpcBatch.
  assert (storage (tryHandleStatsBatch JSON_parse JSON_stringify input env state)
          = state) as Hstats.
  { apply tryHandleStatsBatch_storage. }
  destruct (answer (tryHandleStatsBatch _ _ input env state));
    [left; cbn [storage]; by rewrite Hstats |].
  unfold tryHandleChatBatch.
  destruct (chat_batch JSON_parse input) as [[[[importId cap] method] args] |] eqn:Hb.
  - cbn [answer storage].
    destruct (eff_mutated (chat_call cap method args env _)) eqn:Hm; [| by left].
    right. by exists importId, cap, method, args.
  - cbn [answer not_recognized]. left. by repeat case_match.
Qed.

Lemma processRpcBatch_caps_invariant (input : string) (env : Env) (state : Storage) :
  (forall now, caps_invariant (loadChatState now state)) ->
  forall now,
    caps_invariant
      (loadChatState now
         (storage (processRpcBatch JSON_parse SyntaxError_message JSON_stringify
                     input env state))).
Proof.
  intros Hinv now0.
  destruct (processRpcBatch_chatState input env state)
    as [Hsame | (importId & cap & method & args & _ & _ & Hdoc)].
  - unfold loadChatState. rewrite Hsame. apply Hinv.
  - unfold loadChatState. rewrite Hdoc.
    set (before := loadChatState (now env) state) in *.
    set (after := eff_chatState (chat_call cap method args env before)).
    pose proof (load_next_floor (now env) state) as Hfloor. fold before in Hfloor.
    pose proof (chat_call_caps_grow cap method args env before) as Hgrow.
    fold after in Hgrow.
    pose proof (caps_invariant_grow _ _ Hfloor (Hinv (now env)) Hgrow) as Hafter.
    intros key Hkey. rewrite reload_sessionCaps in Hkey.
    destruct (decide _) as [? | _]; [by destruct Hkey |].
    destruct (Hafter key Hkey) as (n & -> & Hn). exists n. split; [done |].
    rewrite reload_nextSessionCapId. lia.
Qed.

Lemma serve_caps_invariant (requests : list (string * Env)) (state : Storage) :
  (forall now, caps_invariant (loadChatState now state)) ->
  forall now,
    caps_invariant
      (loadChatState now
         (serve JSON_parse SyntaxError_message JSON_stringify requests state)).
Proof.
  revert state. induction requests as [| [input env] rest IH]; intros state Hinv.
  - exact Hinv.
  - cbn [serve]. apply IH. by apply processRpcBatch_caps_invariant.
Qed.


End Reachable.


(** ** Ordered tables *)

Section OrderedTableFacts.

Context {V : Type}.
Implicit Types (table : list (string * V)) (key : string) (v : V).

Lemma assoc_Some_elem key v table : assoc key table = Some v -> (key, v) ∈ table.
Proof.
  induction table as [| [k' v'] rest IH]; simpl; [done |].
  destruct (String.eqb k' key) eqn:Hk.
  - apply String.eqb_eq in Hk as ->. intros [= ->]. by left.
  - intros H. right. by apply IH.
Qed.

Lemma assoc_None_keys key table : assoc key table = None <-> key ∉ table.*1.
Proof.
  induction table as [| [k' v'] rest IH]; simpl.
  - split; [intros _ H; by apply elem_of_nil in H | done].
  - rewrite not_elem_of_cons. destruct (String.eqb k' key) eqn:Hk.
    + apply String.eqb_eq in Hk as ->. split; [done | by intros [? _]].
    + apply String.eqb_neq in Hk. rewrite IH. split; [done | by intros [_ ?]].
Qed.

Lemma assoc_NoDup key v table :
  NoDup table.*1 -> (key, v) ∈ table -> assoc key table = Some v.
Proof.
  induction table as [| [k' v'] rest IH]; simpl; intros Hnd Hin.
  - by apply elem_of_nil in Hin.
  - apply NoDup_cons in Hnd as [Hk' Hnd].
    apply elem_of_cons in Hin as [[= <- <-] | Hin].
    + by rewrite String.eqb_refl.
    + destruct (String.eqb k' key) eqn:Hk; [| by apply IH].
      apply String.eqb_eq in Hk as ->. destruct Hk'.
      apply list_elem_of_fmap. by exists (key, v).
Qed.

Lemma define_Permutation key v table : define key v table ≡ₚ (key, v) :: table.
Proof.
  induction table as [| [k' v'] rest IH]; simpl; [done |].
  destruct (enumerated_before key k'); [done |]. rewrite IH. apply Permutation_swap.
Qed.

Lemma delete_entry_absent key table :
  key ∉ table.*1 -> delete_entry key table = table.
Proof.
  intros Hk. apply filter_all. intros [k v] Hin. simpl. intros ->. apply Hk.
  apply list_elem_of_fmap. by exists (key, v).
Qed.

Lemma delete_entry_cons key k' v' table :
  delete_entry key ((k', v') :: table)
  = if decide (k' = key) then delete_entry key table
    else (k', v') :: delete_entry key table.
Proof.
  unfold delete_entry. rewrite filter_cons. simpl.
  destruct (decide (k' = key)) as [-> | Hne].
  - by rewrite decide_False by (intros H; by apply H).
  - by rewrite decide_True.
Qed.

Lemma replace_Permutation key v table :
  NoDup table.*1 -> key ∈ table.*1 ->
  replace key v table ≡ₚ (key, v) :: delete_entry key table.
Proof.
  induction table as [| [k' v'] rest IH]; simpl; intros Hnd Hin.
  - by apply elem_of_nil in Hin.
  - apply NoDup_cons in Hnd as [Hk' Hnd]. rewrite delete_entry_cons.
    destruct (String.eqb k' key) eqn:Hk.
    + apply String.eqb_eq in Hk as ->. rewrite decide_True by done.
      by rewrite (delete_entry_absent key rest Hk').
    + apply String.eqb_neq in Hk. rewrite decide_False by done.
      apply elem_of_cons in Hin as [-> | Hin]; [done |].
      rewrite IH by done. apply Permutation_swap.
Qed.

(** An assignment puts the entry in the table, in place of the one the key
    had. *)
Lemma set_entry_Permutation key v table :
  NoDup table.*1 -> key <> "__proto__" ->
  set_entry key v table ≡ₚ (key, v) :: delete_entry key table.
Proof.
  intros Hnd Hkey. unfold set_entry. rewrite bool_decide_eq_false_2 by done.
  destruct (assoc key table) as [old |] eqn:Hold.
  - apply replace_Permutation; [done |].
    apply assoc_Some_elem in Hold. apply list_elem_of_fmap. by exists (key, old).
  - apply assoc_None_keys in Hold.
    by rewrite define_Permutation, delete_entry_absent.
Qed.

Lemma set_entry_proto v table : set_entry "__proto__" v table = table.
Proof. done. Qed.

Lemma delete_entry_keys key table :
  (delete_entry key table).*1 = filter (fun k => k <> key) table.*1.
Proof.
  induction table as [| [k' v'] rest IH]; [done |].
  rewrite delete_entry_cons, fmap_cons, filter_cons. simpl.
  destruct (decide (k' = key)) as [-> | Hne].
  - by rewrite decide_False by (intros H; by apply H).
  - by rewrite decide_True, fmap_cons, IH.
Qed.

Lemma set_entry_keys key v table :
  NoDup table.*1 ->
  NoDup (set_entry key v table).*1
  /\ forall k, k ∈ (set_entry key v table).*1
               <-> (k = key /\ key <> "__proto__") \/ k ∈ table.*1.
Proof.
  intros Hnd. destruct (decide (key = "__proto__")) as [-> | Hkey].
  - rewrite set_entry_proto. split; [done | naive_solver].
  - pose proof (set_entry_Permutation key v table Hnd Hkey) as Hp.
    apply (fmap_Permutation fst) in Hp. rewrite fmap_cons in Hp. simpl in Hp.
    rewrite delete_entry_keys in Hp. split.
    + rewrite Hp. apply NoDup_cons. split; [| by apply NoDup_filter].
      rewrite list_elem_of_filter. naive_solver.
    + intros k. rewrite Hp, elem_of_cons, list_elem_of_filter.
      destruct (decide (k = key)); naive_solver.
Qed.

End OrderedTableFacts.

(** ** Pruning of tokens *)

Lemma filter_none {A : Type} (P : A -> Prop) `{!forall x, Decision (P x)}
    (l : list A) :
  (forall x, x ∈ l -> ~ P x) -> filter P l = [].
Proof.
  induction l as [| a l IH]; intros Hnone; [done |].
  rewrite filter_cons_False by (apply Hnone; by left).
  apply IH. intros x Hx. apply Hnone. by right.
Qed.

Lemma insert_by_issuedAt_Permutation e sorted :
  insert_by_issuedAt e sorted ≡ₚ e :: sorted.
Proof.
  induction sorted as [| e' rest IH]; simpl; [done |].
  destruct (issuedAt e.2 <? issuedAt e'.2)%Z; [| done].
  rewrite IH. apply Permutation_swap.
Qed.

Lemma sort_by_issuedAt_Permutation l : sort_by_issuedAt l ≡ₚ l.
Proof.
  induction l as [| e l IH]; simpl; [done |].
  by rewrite insert_by_issuedAt_Permutation, IH.
Qed.

Lemma insert_by_issuedAt_sorted e sorted :
  StronglySorted newer_first sorted ->
  StronglySorted newer_first (insert_by_issuedAt e sorted).
Proof.
  induction 1 as [| e' rest Hrest IH Hall]; simpl.
  - repeat constructor.
  - destruct (issuedAt e.2 <? issuedAt e'.2)%Z eqn:Hlt.
    + apply Z.ltb_lt in Hlt. constructor; [done |].
      rewrite insert_by_issuedAt_Permutation. constructor; [| done].
      unfold newer_first. lia.
    + apply Z.ltb_ge in Hlt. constructor; [by constructor |].
      constructor; [done |].
      eapply Forall_impl; [exact Hall |]. unfold newer_first. intros; lia.
Qed.

Lemma sort_by_issuedAt_sorted l : StronglySorted newer_first (sort_by_issuedAt l).
Proof.
  induction l as [| e l IH]; simpl; [constructor |].
  by apply insert_by_issuedAt_sorted.
Qed.

Lemma fold_delete_entry (gone tokens : list (string * NickTokenInfo)) :
  fold_left (fun table e => delete_entry e.1 table) gone tokens
  = filter (fun e => e.1 ∉ gone.*1) tokens.
Proof.
  revert tokens. induction gone as [| g gone IH]; intros tokens; simpl.
  - symmetry. apply filter_all. intros e _ Hin. by apply elem_of_nil in Hin.
  - rewrite IH. unfold delete_entry. rewrite list_filter_filter.
    apply list_filter_iff. intros e. rewrite not_elem_of_cons. naive_solver.
Qed.

Section Prune.

Variable user : string.
Variable tokens : list (string * NickTokenInfo).
Hypothesis keys_unique : NoDup tokens.*1.

Lemma tokensForUser_Permutation :
  (tokensForUser user tokens) ≡ₚ filter (fun e => token_username e.2 = user) tokens.
Proof. apply sort_by_issuedAt_Permutation. Qed.

Lemma tokensForUser_elem e :
  e ∈ (tokensForUser user tokens) <-> token_username e.2 = user /\ e ∈ tokens.
Proof. by rewrite tokensForUser_Permutation, list_elem_of_filter. Qed.

Lemma entries_unique : NoDup tokens.
Proof. by apply NoDup_fmap_1 in keys_unique. Qed.

Lemma same_key_same_entry e e' : e ∈ tokens -> e' ∈ tokens -> e.1 = e'.1 -> e = e'.
Proof.
  destruct e as [k v], e' as [k' v']. simpl. intros He He' <-.
  apply (assoc_NoDup k v tokens keys_unique) in He.
  apply (assoc_NoDup k v' tokens keys_unique) in He'. congruence.
Qed.

Lemma pruned_is_filter :
  prune_tokens user tokens = filter (fun e => e ∉ (gone_tokens user tokens)) tokens.
Proof.
  unfold prune_tokens. rewrite fold_delete_entry. fold (gone_tokens user tokens).
  apply filter_ext_in. intros e He. split.
  - intros Hk Hin. apply Hk. apply list_elem_of_fmap. by exists e.
  - intros Hne Hk. apply list_elem_of_fmap in Hk as (e' & Hkey & Hin').
    assert (e' ∈ (tokensForUser user tokens)) as Hs by (by apply (subseteq_drop 5 (tokensForUser user tokens))).
    apply tokensForUser_elem in Hs as [_ Hs].
    by rewrite (same_key_same_entry e e' He Hs Hkey) in Hne.
Qed.

Lemma sorted_unique : NoDup (tokensForUser user tokens).
Proof.
  rewrite tokensForUser_Permutation. apply NoDup_filter, entries_unique.
Qed.

(** What the user keeps: the first five of the sorted entries. *)
Lemma pruned_user_entries :
  filter (fun e => token_username e.2 = user) (prune_tokens user tokens) ≡ₚ (kept_tokens user tokens).
Proof.
  rewrite pruned_is_filter, list_filter_filter.
  rewrite (list_filter_iff _ (fun e => (e ∉ (gone_tokens user tokens)) /\ token_username e.2 = user))
    by naive_solver.
  rewrite <- list_filter_filter, <- tokensForUser_Permutation.
  rewrite <- (take_drop 5 (tokensForUser user tokens)) at 1. fold (kept_tokens user tokens) (gone_tokens user tokens).
  rewrite filter_app.
  pose proof sorted_unique as Hnd. rewrite <- (take_drop 5 (tokensForUser user tokens)) in Hnd.
  fold (kept_tokens user tokens) (gone_tokens user tokens) in Hnd. apply NoDup_app in Hnd as (_ & Hdisj & _).
  rewrite (filter_all _ (kept_tokens user tokens)) by (intros e He; by apply Hdisj).
  rewrite (filter_none _ (gone_tokens user tokens)) by (intros e He Hne; by apply Hne).
  by rewrite app_nil_r.
Qed.

Lemma pruned_count :
  token_count user (prune_tokens user tokens) = min 5 (token_count user tokens).
Proof.
  unfold token_count. rewrite pruned_user_entries. unfold kept_tokens.
  by rewrite length_take, tokensForUser_Permutation.
Qed.

Lemma pruned_nothing :
  token_count user tokens <= 5 -> prune_tokens user tokens = tokens.
Proof.
  intros Hle. rewrite pruned_is_filter. apply filter_all. intros e _.
  assert ((gone_tokens user tokens) = []) as ->; [| by intros H; apply elem_of_nil in H].
  unfold gone_tokens. apply drop_ge. by rewrite tokensForUser_Permutation.
Qed.

(** Tokens of other users are not touched. *)
Lemma pruned_others e :
  token_username e.2 <> user -> e ∈ prune_tokens user tokens <-> e ∈ tokens.
Proof.
  intros Hother. rewrite pruned_is_filter, list_elem_of_filter.
  split; [by intros [_ ?] |]. intros He. split; [| done].
  intros Hgone. apply (subseteq_drop 5 (tokensForUser user tokens)) in Hgone.
  apply tokensForUser_elem in Hgone as [Hu _]. done.
Qed.

Lemma pruned_others_count other :
  other <> user ->
  token_count other (prune_tokens user tokens) = token_count other tokens.
Proof.
  intros Hother. unfold token_count. f_equal.
  rewrite pruned_is_filter, list_filter_filter. apply filter_ext_in.
  intros e He. split; [by intros [? _] |]. intros Hu. split; [done |].
  intros Hgone. apply (subseteq_drop 5 (tokensForUser user tokens)) in Hgone.
  apply tokensForUser_elem in Hgone as [Hu' _]. congruence.
Qed.

(** Every entry of the user that is pruned was issued no later than every
    entry of the user that is kept. *)
Lemma pruned_are_oldest e_kept e_gone :
  e_kept ∈ prune_tokens user tokens -> token_username e_kept.2 = user ->
  e_gone ∈ tokens -> token_username e_gone.2 = user ->
  e_gone ∉ prune_tokens user tokens ->
  (issuedAt e_gone.2 <= issuedAt e_kept.2)%Z.
Proof.
  intros Hk Hku Hg Hgu Hng.
  assert (e_kept ∈ (kept_tokens user tokens)) as Hkept.
  { rewrite <- pruned_user_entries. by apply list_elem_of_filter. }
  assert (e_gone ∈ (gone_tokens user tokens)) as Hgone.
  { destruct (decide (e_gone ∈ (gone_tokens user tokens))) as [? | Hn]; [done |].
    destruct Hng. rewrite pruned_is_filter. by apply list_elem_of_filter. }
  pose proof (sort_by_issuedAt_sorted
                (filter (fun e => token_username e.2 = user) tokens)) as Hs.
  fold (tokensForUser user tokens) in Hs.
  rewrite <- (take_drop 5 (tokensForUser user tokens)) in Hs. fold (kept_tokens user tokens) (gone_tokens user tokens) in Hs.
  by eapply (StronglySorted_app_1_elem_of newer_first (kept_tokens user tokens) (gone_tokens user tokens)).
Qed.

Lemma pruned_keys :
  NoDup (prune_tokens user tokens).*1
  /\ forall k, k ∈ (prune_tokens user tokens).*1 -> k ∈ tokens.*1.
Proof.
  rewrite pruned_is_filter. split.
  - eapply sublist_NoDup; [exact keys_unique |].
    apply fmap_sublist, sublist_filter.
  - intros k (e & -> & He)%list_elem_of_fmap.
    apply list_elem_of_filter in He as [_ He].
    apply list_elem_of_fmap. by exists e.
Qed.

End Prune.

(** ** What a reload keeps of the tokens *)

Lemma normalize_token_to_json (now : Z) (info : NickTokenInfo) :
  normalize_token now (token_to_json info)
  = if String.eqb (token_username info) "" then None else Some (reload_token info).
Proof.
  destruct info as [u [n |] i [l |]]; unfold normalize_token, token_to_json;
    cbn [is_object field assoc String.eqb Ascii.eqb Bool.eqb app
         token_username token_nickname issuedAt lastUsed];
    by destruct (String.eqb u "").
Qed.

Lemma tokens_ok_set_entry key info tokens :
  tokens_ok tokens -> tokens_ok (set_entry key info tokens).
Proof.
  intros [Hnd Hproto]. destruct (set_entry_keys key info tokens Hnd) as [Hnd' Hkeys].
  split; [done |]. rewrite Hkeys. naive_solver.
Qed.

Lemma tokens_ok_prune user tokens :
  tokens_ok tokens -> tokens_ok (prune_tokens user tokens).
Proof.
  intros [Hnd Hproto]. destruct (pruned_keys user tokens Hnd) as [Hnd' Hkeys].
  split; [done |]. intros Hin. by apply Hproto, Hkeys.
Qed.

Lemma normalize_tokens_ok (now : Z) (l : list (string * json))
    (acc : list (string * NickTokenInfo)) :
  tokens_ok acc ->
  tokens_ok
    (fold_left
       (fun acc '(key, value) =>
          match normalize_token now value with
          | Some info => set_entry key info acc
          | None => acc
          end) l acc).
Proof.
  revert acc. induction l as [| [k j] l IH]; intros acc Hacc; [done |].
  simpl. apply IH. destruct (normalize_token now j); [| done].
  by apply tokens_ok_set_entry.
Qed.

(** The token table of an aggregate read from storage has one entry per
    key. *)
Lemma load_tokens_ok (now : Z) (state : Storage) :
  tokens_ok (nickTokens (loadChatState now state)).
Proof.
  assert (tokens_ok []) as Hnil.
  { split; [constructor | by intros H; apply elem_of_nil in H]. }
  unfold loadChatState. destruct (chatState state) as [raw |]; [| done].
  unfold normalizeChatState. destruct (negb (is_object (Some raw))); [done |].
  cbn [nickTokens]. destruct (is_object (field "nickTokens" raw)); [| done].
  by apply normalize_tokens_ok.
Qed.

Lemma reload_tokens_fold (now : Z) (l acc : list (string * NickTokenInfo)) :
  NoDup ((acc ++ l)%list).*1 -> "__proto__" ∉ l.*1 ->
  fold_left
    (fun acc '(key, value) =>
       match normalize_token now value with
       | Some info => set_entry key info acc
       | None => acc
       end)
    ((fun e => (e.1, token_to_json e.2)) <$> l) acc
  ≡ₚ (acc ++ omap reload_entry l)%list.
Proof.
  revert acc. induction l as [| [k info] l IH]; intros acc Hnd Hproto.
  - simpl. by rewrite app_nil_r.
  - rewrite fmap_cons, not_elem_of_cons in Hproto. destruct Hproto as [Hk Hproto].
    change (omap reload_entry ((k, info) :: l))
      with (match reload_entry (k, info) with
            | Some y => y :: omap reload_entry l
            | None => omap reload_entry l
            end).
    cbn [fmap list_fmap fold_left fst snd].
    rewrite normalize_token_to_json. unfold reload_entry at 1. cbn [fst snd].
    assert (NoDup (acc.*1)) as Hacc.
    { rewrite fmap_app in Hnd. by apply NoDup_app in Hnd as [? _]. }
    assert (k ∉ acc.*1) as Hfresh.
    { rewrite fmap_app, fmap_cons in Hnd. apply NoDup_app in Hnd as (_ & Hd & _).
      intros Hin. apply (Hd k Hin). by left. }
    destruct (String.eqb (token_username info) "").
    + apply IH; [| done]. rewrite fmap_app, fmap_cons in Hnd.
      rewrite fmap_app. apply NoDup_app in Hnd as (H1 & H2 & H3).
      apply NoDup_cons in H3 as [_ H3]. apply NoDup_app. repeat split; [done | | done].
      intros x Hx Hx'. apply (H2 x Hx). by right.
    + rewrite IH; [| | done].
      * rewrite set_entry_Permutation, delete_entry_absent by done.
        by rewrite <- Permutation_middle.
      * destruct (set_entry_keys k (reload_token info) acc Hacc) as [_ Hkeys].
        rewrite fmap_app, fmap_cons in Hnd. simpl in Hnd.
        apply NoDup_app in Hnd as (H1 & H2 & H3).
        apply NoDup_cons in H3 as [H3 H4].
        rewrite fmap_app. apply NoDup_app. repeat split; [| | done].
        -- by apply set_entry_keys.
        -- intros x Hx Hx'. apply Hkeys in Hx as [[-> _] | Hx]; [done |].
           apply (H2 x Hx). by right.
Qed.

Lemma reload_nickTokens (now : Z) (st : ChatState) :
  tokens_ok (nickTokens st) ->
  nickTokens (normalizeChatState now (chatState_to_json st))
  ≡ₚ omap reload_entry (nickTokens st).
Proof.
  intros [Hnd Hproto]. unfold normalizeChatState, chatState_to_json.
  cbn [is_object negb nickTokens field assoc String.eqb Ascii.eqb Bool.eqb
       Object_entries].
  by rewrite reload_tokens_fold.
Qed.

(** ** Counting tokens *)

Lemma token_count_Permutation (user : string)
    (l1 l2 : list (string * NickTokenInfo)) :
  l1 ≡ₚ l2 -> token_count user l1 = token_count user l2.
Proof. intros Hp. unfold token_count. by rewrite Hp. Qed.

Lemma token_count_cons user e tokens :
  token_count user (e :: tokens)
  = (if decide (token_username e.2 = user) then 1 else 0) + token_count user tokens.
Proof.
  unfold token_count. rewrite filter_cons.
  by destruct (decide (token_username e.2 = user)).
Qed.

Lemma token_count_delete_le user key tokens :
  token_count user (delete_entry key tokens) <= token_count user tokens.
Proof.
  induction tokens as [| [k v] rest IH]; [done |].
  rewrite delete_entry_cons. destruct (decide (k = key)).
  - rewrite token_count_cons. lia.
  - rewrite !token_count_cons. lia.
Qed.

Lemma token_count_delete_ge user key tokens :
  NoDup tokens.*1 ->
  token_count user tokens <= S (token_count user (delete_entry key tokens)).
Proof.
  induction tokens as [| [k v] rest IH]; intros Hnd; [unfold token_count; simpl; lia |].
  apply NoDup_cons in Hnd as [Hk Hnd].
  rewrite delete_entry_cons. destruct (decide (k = key)) as [-> | Hne].
  - rewrite token_count_cons, delete_entry_absent by done. case_decide; lia.
  - rewrite !token_count_cons. specialize (IH Hnd). lia.
Qed.

Lemma token_count_set_entry user key info tokens :
  tokens_ok tokens -> key <> "__proto__" ->
  token_count user (set_entry key info tokens)
  = (if decide (token_username info = user) then 1 else 0)
    + token_count user (delete_entry key tokens).
Proof.
  intros [Hnd _] Hkey.
  rewrite (token_count_Permutation _ _ _
             (set_entry_Permutation key info tokens Hnd Hkey)).
  by rewrite token_count_cons.
Qed.

Lemma token_count_reload user tokens :
  token_count user (omap reload_entry tokens)
  = if decide (user = "") then 0 else token_count user tokens.
Proof.
  induction tokens as [| [k v] rest IH].
  - by destruct (decide _).
  - cbn [omap list_omap]. unfold reload_entry at 1. cbn [fst snd].
    destruct (String.eqb (token_username v) "") eqn:Hu.
    + apply String.eqb_eq in Hu. fold (omap reload_entry rest). rewrite IH.
      destruct (decide (user = "")) as [-> | Hne]; [done |].
      rewrite token_count_cons. cbn [snd]. rewrite decide_False by congruence. done.
    + apply String.eqb_neq in Hu. fold (omap reload_entry rest).
      rewrite !token_count_cons, IH. cbn [snd token_username reload_token].
      destruct (decide (user = "")) as [-> | Hne]; [| done].
      by rewrite decide_False.
Qed.

Lemma token_count_keys user tokens (keys : list string) :
  NoDup keys ->
  (forall k, k ∈ keys -> exists info, (k, info) ∈ tokens /\ token_username info = user) ->
  length keys <= token_count user tokens.
Proof.
  intros Hnd Hall. unfold token_count.
  rewrite <- (length_fmap fst (filter _ tokens)).
  apply submseteq_length, NoDup_submseteq; [done |].
  intros k Hk. destruct (Hall k Hk) as (info & Hin & Hu).
  apply list_elem_of_fmap. exists (k, info). split; [done |].
  by apply list_elem_of_filter.
Qed.

Lemma entry_Permutation {V : Type} (key : string) (v : V)
    (table : list (string * V)) :
  NoDup table.*1 -> (key, v) ∈ table ->
  table ≡ₚ (key, v) :: delete_entry key table.
Proof.
  induction table as [| [k' v'] rest IH]; intros Hnd Hin.
  - by apply elem_of_nil in Hin.
  - apply NoDup_cons in Hnd as [Hk' Hnd]. rewrite delete_entry_cons.
    apply elem_of_cons in Hin as [[= <- <-] | Hin].
    + rewrite decide_True by done. by rewrite delete_entry_absent.
    + destruct (decide (k' = key)) as [-> | Hne].
      * destruct Hk'. apply list_elem_of_fmap. by exists (key, v).
      * rewrite (IH Hnd Hin) at 1. apply Permutation_swap.
Qed.

Lemma reload_entry_elem (key : string) (info : NickTokenInfo)
    (tokens : list (string * NickTokenInfo)) :
  (key, info) ∈ tokens -> token_username info <> "" ->
  (key, reload_token info) ∈ omap reload_entry tokens.
Proof.
  intros Hin Hu. apply list_elem_of_omap. exists (key, info). split; [done |].
  unfold reload_entry. cbn [fst snd].
  apply String.eqb_neq in Hu. by rewrite Hu.
Qed.

Lemma reload_entry_origin (e : string * NickTokenInfo)
    (tokens : list (string * NickTokenInfo)) :
  e ∈ omap reload_entry tokens ->
  exists info, (e.1, info) ∈ tokens /\ e.2 = reload_token info
               /\ token_username info <> "".
Proof.
  intros ([k info] & Hin & Hre)%list_elem_of_omap.
  unfold reload_entry in Hre. cbn [fst snd] in Hre.
  destruct (String.eqb (token_username info) "") eqn:Hu; [done |].
  apply String.eqb_neq in Hu. injection Hre as <-. by exists info.
Qed.

Lemma redeem_token_bound (token : string) (old new : NickTokenInfo)
    (tokens : list (string * NickTokenInfo)) (user : string) :
  tokens_ok tokens -> get_entry token tokens = Own old ->
  token_username new = token_username old ->
  token_count user tokens <= 5 ->
  tokens_ok (set_entry token new tokens)
  /\ token_count user (set_entry token new tokens) <= 5.
Proof.
  intros Hok Hget Hsame Hle. split; [by apply tokens_ok_set_entry |].
  destruct (decide (token = "__proto__")) as [Hp | Hp];
    [by rewrite Hp, set_entry_proto |].
  unfold get_entry, classify in Hget.
  destruct (assoc token tokens) as [old' |] eqn:Hassoc; [| by case_bool_decide].
  injection Hget as ->. apply assoc_Some_elem in Hassoc.
  rewrite token_count_set_entry by done.
  rewrite (token_count_Permutation _ _ _
             (entry_Permutation token old _ (proj1 Hok) Hassoc)) in Hle.
  rewrite token_count_cons in Hle. cbn [snd] in Hle. by rewrite Hsame.
Qed.

Lemma store_token_bound (token : string) (issued : NickTokenInfo)
    (tokens : list (string * NickTokenInfo)) (user : string) :
  tokens_ok tokens -> token_count user tokens <= 5 ->
  tokens_ok (prune_tokens (token_username issued) (set_entry token issued tokens))
  /\ token_count user
       (prune_tokens (token_username issued) (set_entry token issued tokens)) <= 5.
Proof.
  intros Hok Hle.
  assert (tokens_ok (set_entry token issued tokens)) as Hok1
    by by apply tokens_ok_set_entry.
  split; [by apply tokens_ok_prune |].
  destruct (decide (user = token_username issued)) as [-> | Hother].
  - rewrite pruned_count by apply Hok1. lia.
  - rewrite pruned_others_count by (apply Hok1 || done).
    destruct (decide (token = "__proto__")) as [Hp | Hp];
      [by rewrite Hp, set_entry_proto |].
    rewrite token_count_set_entry by done.
    rewrite decide_False by congruence.
    pose proof (token_count_delete_le user token tokens). lia.
Qed.

(** No call raises the number of tokens of a user above five. *)
Lemma chat_call_token_bound (capabilityId : Z) (method : string)
    (args : list json) (env : Env) (st : ChatState) (user : string) :
  tokens_ok (nickTokens st) ->
  token_count user (nickTokens st) <= 5 ->
  let st' := eff_chatState (chat_call capabilityId method args env st) in
  tokens_ok (nickTokens st') /\ token_count user (nickTokens st') <= 5.
Proof.
  intros Hok Hle. unfold chat_call. destruct (capabilityId =? CHAT_CAPABILITY_ID)%Z.
  - unfold chat_service.
    repeat case_match; cbn [eff_chatState changed unchanged nickTokens with_session
                            with_tokens];
      first [ done | by eapply redeem_token_bound ].
  - destruct (sessionCaps st !! String_of_number capabilityId) as [info |]; [| done].
    unfold chat_session.
    repeat case_match; cbn [eff_chatState changed unchanged nickTokens with_messages
                            with_nick with_tokens];
      first [ done
            | by apply (store_token_bound _ (issued_token info (now env))) ].
Qed.

(** ** The token table across requests *)

Section Tokens.

Variable JSON_parse : string -> option json.
Variable SyntaxError_message : string -> string.
Variable JSON_stringify : json -> string.

Lemma loadChatState_document (now : Z) (state state' : Storage) :
  chatState state' = chatState state ->
  loadChatState now state' = loadChatState now state.
Proof. unfold loadChatState. by intros ->. Qed.

Lemma processRpcBatch_token_bound (input : string) (env : Env) (state : Storage)
    (user : string) :
  (forall now, token_count user (nickTokens (loadChatState now state)) <= 5) ->
  forall now,
    token_count user
      (nickTokens
         (loadChatState now
            (storage (processRpcBatch JSON_parse SyntaxError_message JSON_stringify
                        input env state)))) <= 5.
Proof.
  intros Hle now0.
  destruct (processRpcBatch_chatState JSON_parse SyntaxError_message JSON_stringify
              input env state)
    as [Hsame | (importId & cap & method & args & _ & _ & Hdoc)].
  - rewrite (loadChatState_document _ _ _ Hsame). apply Hle.
  - unfold loadChatState at 1. rewrite Hdoc.
    destruct (chat_call_token_bound cap method args env
                (loadChatState (now env) state) user
                (load_tokens_ok _ _) (Hle (now env))) as [Hok Hle'].
    rewrite (token_count_Permutation _ _ _ (reload_nickTokens now0 _ Hok)).
    rewrite token_count_reload. case_decide; lia.
Qed.

Lemma serve_token_bound (requests : list (string * Env)) (state : Storage)
    (user : string) :
  (forall now, token_count user (nickTokens (loadChatState now state)) <= 5) ->
  forall now,
    token_count user
      (nickTokens
         (loadChatState now
            (serve JSON_parse SyntaxError_message JSON_stringify requests state)))
    <= 5.
Proof.
  revert state. induction requests as [| [input env] rest IH]; intros state Hle.
  - exact Hle.
  - cbn [serve]. apply IH. by apply processRpcBatch_token_bound.
Qed.

(** A chat batch whose method is not ["stats"] is not taken by the stats
    handler: [processRpcBatch] hands it to the chat handler. *)
Lemma processRpcBatch_chat (input : string) (env : Env) (state : Storage)
    (importId capabilityId : Z) (method : string) (args : list json) :
  chat_batch JSON_parse input = Some (importId, capabilityId, method, args) ->
  method <> "stats" ->
  storage (processRpcBatch JSON_parse SyntaxError_message JSON_stringify
             input env state)
  = storage (tryHandleChatBatch JSON_parse JSON_stringify input env state).
Proof.
  intros Hbatch Hmethod. unfold processRpcBatch.
  assert (answer (tryHandleStatsBatch JSON_parse JSON_stringify input env state)
          = None) as ->.
  { unfold chat_batch in Hbatch. unfold tryHandleStatsBatch.
    destruct (batch_lines input) as [| l0 [| l1 [| ? ?]]]; try done.
    destruct (JSON_parse l0) as [pushOp |]; [| done].
    destruct (JSON_parse l1) as [pullOp |]; [| done].
    destruct (tagged "push" (Some pushOp)); [| done]. cbn [negb] in *.
    destruct (tagged "pull" (Some pullOp)); [| done]. cbn [negb] in *.
    destruct (item 1 pullOp) as [[| | n | | |] |]; try done.
    destruct (tagged "call" (item 1 pushOp)); [| done]. cbn [negb] in *.
    destruct (item 1 pushOp ≫= item 1) as [[| | c | | |] |]; try done.
    destruct (method_of (item 1 pushOp ≫= item 2)) as [m |]; [| done].
    destruct (String.eqb m ""); [done |].
    destruct (item 1 pushOp ≫= item 3) as [[| | | | a |] |]; try done.
    injection Hbatch as -> -> -> ->.
    rewrite bool_decide_eq_false_2 by congruence. done. }
  unfold tryHandleChatBatch. by rewrite Hbatch.
Qed.

(** The document a [storeNickToken] call leaves. *)
Lemma storeNickToken_document (payload : string) (env : Env) (state : Storage)
    (importId capabilityId : Z) (arg : string) (sessionInfo : SessionInfo) :
  chat_batch JSON_parse payload
  = Some (importId, capabilityId, "storeNickToken", [JStr arg]) ->
  capabilityId <> CHAT_CAPABILITY_ID ->
  sessionCaps (loadChatState (now env) state) !! String_of_number capabilityId
  = Some sessionInfo ->
  trim arg <> "" ->
  let before := loadChatState (now env) state in
  chatState (storage (tryHandleChatBatch JSON_parse JSON_stringify payload env state))
  = Some (chatState_to_json
            (with_tokens before
               (prune_tokens (username sessionInfo)
                  (set_entry (trim arg) (issued_token sessionInfo (now env))
                     (nickTokens before))))).
Proof.
  intros Hbatch Hcap Hsession Htoken. unfold tryHandleChatBatch. rewrite Hbatch.
  unfold chat_call. apply Z.eqb_neq in Hcap. rewrite Hcap, Hsession.
  unfold chat_session. cbn [String.eqb Ascii.eqb Bool.eqb].
  apply String.eqb_neq in Htoken. by rewrite Htoken.
Qed.

Lemma store_step (state0 : Storage) (user : string) (request : string * Env)
    (arg : string) (state : Storage) (seen : list string) :
  user <> "" ->
  stores_token JSON_parse state0 user request arg ->
  trim arg <> "" -> trim arg <> "__proto__" -> trim arg ∉ seen ->
  same_sessions state state0 -> holds_tokens user seen state ->
  let state' :=
    storage (processRpcBatch JSON_parse SyntaxError_message JSON_stringify
               request.1 request.2 state) in
  same_sessions state' state0 /\ holds_tokens user (seen ++ [trim arg])%list state'.
Proof.
  intros Huser (importId & cap & info & Hbatch & Hcap & Hsession & Hinfo)
    Hne Hproto Hfresh Hsame Hholds state'.
  destruct request as [payload env]. cbn [fst snd] in *.
  assert (chatState state'
          = Some (chatState_to_json
                    (with_tokens (loadChatState (now env) state)
                       (prune_tokens user
                          (set_entry (trim arg) (issued_token info (now env))
                             (nickTokens (loadChatState (now env) state)))))))
    as Hdoc.
  { subst state'. rewrite (processRpcBatch_chat _ _ _ _ _ _ _ Hbatch) by done.
    rewrite <- Hinfo.
    eapply storeNickToken_document; [exact Hbatch | done | | done].
    by rewrite Hsame. }
  set (T0 := nickTokens (loadChatState (now env) state)) in *.
  set (issued := issued_token info (now env)) in *.
  set (T1 := set_entry (trim arg) issued T0) in *.
  assert (token_username issued = user) as Hissued by done.
  pose proof (load_tokens_ok (now env) state) as Hok0. fold T0 in Hok0.
  assert (tokens_ok T1) as Hok1 by by apply tokens_ok_set_entry.
  assert (tokens_ok (prune_tokens user T1)) as Hok2 by by apply tokens_ok_prune.
  assert (token_count user T1
          = 1 + token_count user (delete_entry (trim arg) T0)) as Hcount1.
  { unfold T1. rewrite token_count_set_entry by done. by rewrite decide_True. }
  pose proof (token_count_delete_ge user (trim arg) T0 (proj1 Hok0)) as Hdel.
  pose proof (pruned_count user T1 (proj1 Hok1)) as Hpruned.
  split.
  - intros c now0. unfold loadChatState at 1. rewrite Hdoc, reload_sessionCaps.
    rewrite decide_False.
    + cbn [sessionCaps with_tokens]. rewrite <- (Hsame c now0).
      by destruct (load_sessions_clock (now env) now0 state) as [-> _].
    + intros Heq. apply (String_of_number_not_inherited c). rewrite Heq.
      unfold Object_prototype. set_solver.
  - intros now0. cbv zeta. unfold loadChatState. rewrite Hdoc.
    pose proof (reload_nickTokens now0
                  (with_tokens (loadChatState (now env) state) (prune_tokens user T1))
                  Hok2) as Hreload.
    cbn [nickTokens with_tokens] in Hreload.
    rewrite (token_count_Permutation _ _ _ Hreload), token_count_reload.
    rewrite decide_False by done. rewrite Hpruned. split; [lia |].
    destruct (Hholds (now env)) as [_ [Hfive | Hseen]]; fold T0 in Hfive || fold T0 in Hseen.
    + left. lia.
    + destruct (decide (token_count user T1 <= 5)) as [Hfew | Hmany]; [| left; lia].
      right. intros t Ht.
      assert (exists i, (t, i) ∈ T1 /\ token_username i = user) as (i & Hi & Hu).
      { unfold T1.
        pose proof (set_entry_Permutation (trim arg) issued T0 (proj1 Hok0) Hproto)
          as Hp.
        apply elem_of_app in Ht as [Ht | Ht%list_elem_of_singleton].
        - destruct (Hseen t Ht) as (i & Hi & Hu). exists i. split; [| done].
          rewrite Hp. right. unfold delete_entry. apply list_elem_of_filter.
          split; [| done]. cbn. intros ->. done.
        - subst t. exists issued. split; [| done]. rewrite Hp. by left. }
      exists (reload_token i). split; [| done].
      rewrite Hreload, (pruned_nothing user T1 (proj1 Hok1) Hfew).
      apply reload_entry_elem; [done | congruence].
Qed.

Lemma store_run (state0 : Storage) (user : string)
    (requests : list (string * Env)) (args : list string) :
  user <> "" ->
  Forall2 (stores_token JSON_parse state0 user) requests args ->
  Forall (fun a => trim a <> "" /\ trim a <> "__proto__") args ->
  forall state seen,
    NoDup (seen ++ (trim <$> args))%list ->
    same_sessions state state0 -> holds_tokens user seen state ->
    holds_tokens user (seen ++ (trim <$> args))%list
      (serve JSON_parse SyntaxError_message JSON_stringify requests state).
Proof.
  intros Huser Hcalls. induction Hcalls as [| request arg requests args Hcall _ IH];
    intros Hargs state seen Hnd Hsame Hholds.
  - by rewrite app_nil_r.
  - apply Forall_cons in Hargs as [[Hne Hproto] Hargs].
    rewrite fmap_cons in Hnd |- *.
    assert (trim arg ∉ seen) as Hfresh.
    { apply NoDup_app in Hnd as (_ & Hdisj & _). intros Hin.
      apply (Hdisj _ Hin). by left. }
    destruct request as [payload env]. cbn [serve].
    destruct (store_step state0 user (payload, env) arg state seen
                Huser Hcall Hne Hproto Hfresh Hsame Hholds) as [Hsame' Hholds'].
    rewrite (cons_middle (trim arg)), app_assoc.
    apply IH; [done | | done | done].
    by rewrite <- app_assoc, <- cons_middle.
Qed.

(** C4, as the code has it.  Six [storeNickToken] calls on sessions of one
    user (whose name is not empty), with arguments that after trimming are
    non-empty, pairwise distinct and not ["__proto__"], leave exactly five
    tokens for that user, whatever the table held before.  One call leaves
    the caller at most five entries, the five first of its entries by
    descending [issuedAt]: every entry of the caller it prunes was issued no
    later than every entry of the caller it keeps, and the entries of other
    users stay.  No batch brings any user above five: from empty storage
    every user has at most five tokens at all times. *)
Theorem five_tokens_per_user (state : Storage) (user : string)
    (requests : list (string * Env)) (args : list string) :
  user <> "" ->
  Forall2 (stores_token JSON_parse state user) requests args ->
  Forall (fun a => trim a <> "" /\ trim a <> "__proto__") args ->
  NoDup (trim <$> args) ->
  length args = 6 ->
  (forall now,
     token_count user
       (nickTokens
          (loadChatState now
             (serve JSON_parse SyntaxError_message JSON_stringify requests state)))
     = 5)
  /\ (forall capabilityId sessionInfo arg env st,
        tokens_ok (nickTokens st) -> trim arg <> "" ->
        let caller := username sessionInfo in
        let stored :=
          set_entry (trim arg) (issued_token sessionInfo (now env)) (nickTokens st) in
        let after :=
          nickTokens
            (eff_chatState
               (chat_session capabilityId sessionInfo "storeNickToken" [JStr arg]
                  env st)) in
        token_count caller after = min 5 (token_count caller stored)
        /\ (forall e_kept e_gone,
              e_kept ∈ after -> token_username e_kept.2 = caller ->
              e_gone ∈ stored -> token_username e_gone.2 = caller ->
              e_gone ∉ after ->
              (issuedAt e_gone.2 <= issuedAt e_kept.2)%Z)
        /\ (forall e, token_username e.2 <> caller -> e ∈ after <-> e ∈ stored))
  /\ (forall now state', tokens_ok (nickTokens (loadChatState now state')))
  /\ (forall requests' now anyone,
        token_count anyone
          (nickTokens
             (loadChatState now
                (serve JSON_parse SyntaxError_message JSON_stringify requests'
                   empty_storage))) <= 5).
Proof.
  intros Huser Hcalls Hargs Hnd Hlen. split; [| split; [| split]].
  - intros now0.
    pose proof (store_run state user requests args Huser Hcalls Hargs state []) as Hrun.
    cbn [app] in Hrun.
    assert (trim <$> args <> []) as Hne by (by destruct args).
    destruct (Hrun Hnd) with (now := now0) as [Hle [Hfive | Hall]].
    + done.
    + intros now1. split; [done |]. right. intros t Ht. by apply elem_of_nil in Ht.
    + specialize (Hle Hne). lia.
    + specialize (Hle Hne).
      pose proof (token_count_keys user _ _ Hnd Hall) as Hsix.
      rewrite length_fmap, Hlen in Hsix. lia.
  - intros cap info arg env st Hok Harg caller stored after.
    assert (after = prune_tokens caller stored) as ->.
    { subst after. unfold chat_session. cbn [String.eqb Ascii.eqb Bool.eqb].
      apply String.eqb_neq in Harg. by rewrite Harg. }
    assert (tokens_ok stored) as [Hkeys _] by by apply tokens_ok_set_entry.
    split; [by apply pruned_count | split].
    + intros e_kept e_gone. by apply pruned_are_oldest.
    + intros e He. by apply pruned_others.
  - apply load_tokens_ok.
  - intros requests' now0 anyone. apply serve_token_bound. intros now1.
    unfold token_count. simpl. lia.
Qed.

End Tokens.

(** ** The properties at sample requests *)

Lemma unknown_capability_sample :
  chat_batch Reference.JSON_parse (call_batch 10007 "whoami" "[]")
  = Some (1%Z, 10007%Z, "whoami", [])
  /\ 10007%Z <> CHAT_CAPABILITY_ID
  /\ sessionCaps (loadChatState 0 one_session) !! String_of_number 10007 = None
  /\ let out :=
       tryHandleChatBatch Reference.JSON_parse Reference.JSON_stringify
         (call_batch 10007 "whoami" "[]") (quiet 0) one_session in
     text <$> answer out
     = Some (Reference.JSON_stringify
               (envelope "error" 1
                  (JObj [("message", JStr "unknown session capability")])))
     /\ chatState (storage out) = chatState one_session.
Proof.
  assert (chat_batch Reference.JSON_parse (call_batch 10007 "whoami" "[]")
          = Some (1%Z, 10007%Z, "whoami", [])) as H1 by (vm_compute; reflexivity).
  assert (10007%Z <> CHAT_CAPABILITY_ID) as H2 by (vm_compute; discriminate).
  assert (sessionCaps (loadChatState 0 one_session) !! String_of_number 10007 = None)
    as H3 by (vm_compute; reflexivity).
  exact (conj H1 (conj H2 (conj H3
           (unknown_capability_is_protocol_error
              Reference.JSON_parse Reference.JSON_stringify
              _ (quiet 0) one_session _ _ _ _ H1 H2 H3)))).
Defined.


Lemma malformed_sample :
  malformed Reference.JSON_parse "hello"
  /\ tryHandleChatBatch Reference.JSON_parse Reference.JSON_stringify
       "hello" (quiet 0) empty_storage
     = not_recognized (quiet 0) empty_storage.
Proof.
  assert (malformed Reference.JSON_parse "hello") as H1.
  { apply wrong_line_count. vm_compute. discriminate. }
  exact (conj H1
           (malformed_batch_not_recognized
              Reference.JSON_parse Reference.JSON_stringify
              "hello" (quiet 0) empty_storage H1)).
Defined.


Lemma broadcast_sample :
  Server.sessionCaps (Server.loadChatState 7 one_session) !! String_of_number 10000
  = Some {| username := "guest-10000"; displayName := None |}
  /\ let out := Server.sendMessage 10000 "hi" (lossy 7) [1; 2; 3] one_session in
     called out = [1; 2; 3]
     /\ clients out = Some [1; 3]
     /\ answer out = inr (JObj [("status", JStr "ok"); ("echo", JStr "hi")]).
Proof.
  assert (Server.sessionCaps (Server.loadChatState 7 one_session)
            !! String_of_number 10000
          = Some {| username := "guest-10000"; displayName := None |}) as H1
    by (vm_compute; reflexivity).
  pose proof (broadcast_isolates_failures (lossy 7) [1; 2; 3] one_session
                10000 "hi" _ H1) as (Hcalled & _ & _ & Hanswer & _).
  split; [exact H1 |]. split; [exact Hcalled |]. split; [| exact Hanswer].
  vm_compute. reflexivity.
Defined.

Lemma six_tokens_sample :
  "guest-10000" <> ""
  /\ Forall2 (stores_token Reference.JSON_parse one_session "guest-10000")
       six_stores six_tokens
  /\ Forall (fun a => trim a <> "" /\ trim a <> "__proto__") six_tokens
  /\ NoDup (trim <$> six_tokens)
  /\ length six_tokens = 6
  /\ forall now,
       token_count "guest-10000"
         (nickTokens (loadChatState now (serve_ref six_stores one_session))) = 5.
Proof.
  assert ("guest-10000" <> "") as H1 by discriminate.
  assert (Forall2 (stores_token Reference.JSON_parse one_session "guest-10000")
            six_stores six_tokens) as H2.
  { repeat constructor;
      exists 1%Z, 10000%Z, {| username := "guest-10000"; displayName := None |};
      (split; [vm_compute; reflexivity |]);
      (split; [vm_compute; discriminate |]);
      (split; vm_compute; reflexivity). }
  assert (Forall (fun a => trim a <> "" /\ trim a <> "__proto__") six_tokens) as H3.
  { repeat constructor; vm_compute; discriminate. }
  assert (NoDup (trim <$> six_tokens)) as H4.
  { apply (bool_decide_unpack (NoDup (trim <$> six_tokens))). vm_compute. exact I. }
  assert (length six_tokens = 6) as H5 by reflexivity.
  exact (conj H1 (conj H2 (conj H3 (conj H4 (conj H5
           (proj1 (five_tokens_per_user
                     Reference.JSON_parse Reference.SyntaxError_message
                     Reference.JSON_stringify one_session "guest-10000"
                     six_stores six_tokens H1 H2 H3 H4 H5))))))).
Defined.

(** With a clock that advances, the token issued first is the one that
    goes. *)
Lemma six_tokens_oldest_goes :
  (nickTokens (loadChatState 0 (serve_ref six_stores one_session))).*1
  = ["t2"; "t3"; "t4"; "t5"; "t6"].
Proof. vm_compute. reflexivity. Qed.

(** C4 as stated fails: six pairwise distinct argument strings that differ
    only by surrounding blanks are one token after [trim], and leave the user
    one token, not five. *)
Lemma six_spellings_one_token :
  NoDup six_spellings
  /\ length six_spellings = 6
  /\ token_count "guest-10000"
       (nickTokens (loadChatState 0 (serve_ref six_spelled_stores one_session)))
     = 1.
Proof.
  split; [| split].
  - apply (bool_decide_unpack (NoDup six_spellings)). vm_compute. exact I.
  - reflexivity.
  - vm_compute. reflexivity.
Qed.

(** C9 as stated fails on the stats batch: it is answered with a result
    envelope, and [callCount], [lastRequest] and [lastResponse] stay as they
    were (here: absent). *)
Lemma stats_batch_leaves_diagnostics :
  let out :=
    tryHandleStatsBatch Reference.JSON_parse Reference.JSON_stringify
      stats_request.1 stats_request.2 empty_storage in
  text <$> answer out
  = Some (Reference.JSON_stringify
            (envelope "result" 1
               (JObj [("callCount", JNum 0); ("lastRequest", JNull);
                      ("lastResponse", JNull)])))
  /\ callCount (storage out) = None
  /\ lastRequest (storage out) = None
  /\ lastResponse (storage out) = None.
Proof. vm_compute. repeat split; reflexivity. Qed.

(** C2 at the input where the code departs from it.  The nickname ["bob"] is
    registered, with the empty password, to the session 10000.
    [registerNick("bob", "other")] on the session 10001 is answered with
    [{status: "ok"}]: the test [if (chatState.registeredNicks[nickname])]
    reads the empty password as absent, and password and owner are
    overwritten.  [CapnWebDurable.registerNick] has the same test and gives
    the same answer. *)
Theorem registerNick_overwrites_empty_password :
  let before := loadChatState 2 bob_without_password in
  let out :=
    tryHandleChatBatch Reference.JSON_parse Reference.JSON_stringify
      (call_batch 10001 "registerNick" "['bob','other']") (quiet 2)
      bob_without_password in
  let after := loadChatState 3 (storage out) in
  registeredNicks before !! "bob" = Some ""
  /\ nickOwners before !! "bob" = Some "guest-10000"
  /\ text <$> answer out
     = Some (Reference.JSON_stringify
               (envelope "result" 1
                  (status_ok_message "Nickname 'bob' registered successfully")))
  /\ registeredNicks after !! "bob" = Some "other"
  /\ nickOwners after !! "bob" = Some "guest-10001"
  /\ answer (Server.registerNick 10001 "bob" "other" (quiet 2) [] bob_without_password)
     = inr (status_ok_message "Nickname 'bob' registered successfully").
Proof. vm_compute. repeat split; reflexivity. Qed.

(** C3 at the input where the code departs from it.  The nickname ["bob"] is
    registered with the empty password.  [identifyNick("bob", "")] supplies
    the stored password and is answered with [{status: "error", message:
    "Nickname not registered"}]: [if (!storedPassword)] reads the empty
    password as absent.  Nothing is written: the owner stays and the caller
    gets no display name.  [CapnWebDurable.identifyNick] has the same test
    and gives the same answer. *)
Theorem identifyNick_rejects_empty_password :
  let before := loadChatState 2 bob_without_password in
  let out :=
    tryHandleChatBatch Reference.JSON_parse Reference.JSON_stringify
      (call_batch 10001 "identifyNick" "['bob','']") (quiet 2)
      bob_without_password in
  registeredNicks before !! "bob" = Some ""
  /\ text <$> answer out
     = Some (Reference.JSON_stringify
               (envelope "result" 1 (status_error "Nickname not registered")))
  /\ chatState (storage out) = chatState bob_without_password
  /\ nickOwners (loadChatState 3 (storage out)) !! "bob" = Some "guest-10000"
  /\ displayName <$> sessionCaps (loadChatState 3 (storage out)) !! "10001"
     = Some None
  /\ answer (Server.identifyNick 10001 "bob" "" (quiet 2) [] bob_without_password)
     = inr (status_error "Nickname not registered").
Proof. vm_compute. repeat split; reflexivity. Qed.

Lemma registerNick_rejected_sample :
  chat_batch Reference.JSON_parse (call_batch 10001 "registerNick" "['bob','other']")
  = Some (1%Z, 10001%Z, "registerNick", [JStr "bob"; JStr "other"])
  /\ 10001%Z <> CHAT_CAPABILITY_ID
  /\ sessionCaps (loadChatState 2 bob_registered) !! String_of_number 10001
     = Some {| username := "guest-10001"; displayName := None |}
  /\ registeredNicks (loadChatState 2 bob_registered) !! "bob" = Some "pw"
  /\ "pw" <> ""
  /\ let out :=
       tryHandleChatBatch Reference.JSON_parse Reference.JSON_stringify
         (call_batch 10001 "registerNick" "['bob','other']") (quiet 2)
         bob_registered in
     text <$> answer out
     = Some (Reference.JSON_stringify
               (envelope "result" 1 (status_error "Nickname already registered")))
     /\ chatState (storage out) = chatState bob_registered.
Proof.
  assert (chat_batch Reference.JSON_parse
            (call_batch 10001 "registerNick" "['bob','other']")
          = Some (1%Z, 10001%Z, "registerNick", [JStr "bob"; JStr "other"])) as H1
    by (vm_compute; reflexivity).
  assert (10001%Z <> CHAT_CAPABILITY_ID) as H2 by (vm_compute; discriminate).
  assert (sessionCaps (loadChatState 2 bob_registered) !! String_of_number 10001
          = Some {| username := "guest-10001"; displayName := None |}) as H3
    by (vm_compute; reflexivity).
  assert (registeredNicks (loadChatState 2 bob_registered) !! "bob" = Some "pw")
    as H4 by (vm_compute; reflexivity).
  assert ("pw" <> "") as H5 by discriminate.
  exact (conj H1 (conj H2 (conj H3 (conj H4 (conj H5
           (registerNick_rejects_registered
              Reference.JSON_parse Reference.JSON_stringify
              _ (quiet 2) bob_registered _ _ _ _ _ _ H1 H2 H3 H4 H5)))))).
Defined.

Lemma identifyNick_transfer_sample :
  chat_batch Reference.JSON_parse (call_batch 10001 "identifyNick" "['bob','pw']")
  = Some (1%Z, 10001%Z, "identifyNick", [JStr "bob"; JStr "pw"])
  /\ 10001%Z <> CHAT_CAPABILITY_ID
  /\ sessionCaps (loadChatState 2 bob_registered) !! String_of_number 10001
     = Some {| username := "guest-10001"; displayName := None |}
  /\ registeredNicks (loadChatState 2 bob_registered) !! "bob" = Some "pw"
  /\ "pw" <> ""
  /\ nickOwners (loadChatState 2 bob_registered) !! "bob" = Some "guest-10000"
  /\ exists after,
       chatState
         (storage
            (tryHandleChatBatch Reference.JSON_parse Reference.JSON_stringify
               (call_batch 10001 "identifyNick" "['bob','pw']") (quiet 2)
               bob_registered))
       = Some (chatState_to_json after)
       /\ nickOwners after !! "bob" = Some "guest-10001".
Proof.
  assert (chat_batch Reference.JSON_parse
            (call_batch 10001 "identifyNick" "['bob','pw']")
          = Some (1%Z, 10001%Z, "identifyNick", [JStr "bob"; JStr "pw"])) as H1
    by (vm_compute; reflexivity).
  assert (10001%Z <> CHAT_CAPABILITY_ID) as H2 by (vm_compute; discriminate).
  assert (sessionCaps (loadChatState 2 bob_registered) !! String_of_number 10001
          = Some {| username := "guest-10001"; displayName := None |}) as H3
    by (vm_compute; reflexivity).
  assert (registeredNicks (loadChatState 2 bob_registered) !! "bob" = Some "pw")
    as H4 by (vm_compute; reflexivity).
  assert ("pw" <> "") as H5 by discriminate.
  assert (nickOwners (loadChatState 2 bob_registered) !! "bob" = Some "guest-10000")
    as H6 by (vm_compute; reflexivity).
  refine (conj H1 (conj H2 (conj H3 (conj H4 (conj H5 (conj H6 _)))))).
  destruct (identifyNick_transfers_ownership
              Reference.JSON_parse Reference.JSON_stringify
              _ (quiet 2) bob_registered _ _ _ _ _ H1 H2 H3 H4 H5)
    as (after & Hdoc & Howner & _).
  exists after. split; [exact Hdoc |]. apply Howner. discriminate.
Defined.

(** ** Further properties of the handlers *)


(** [whoami], [receiveMessages] and [checkNick] leave the aggregate as it is
    and ask for no write, whatever their arguments. *)
Theorem reading_methods_do_not_write (capabilityId : Z) (sessionInfo : SessionInfo)
    (args : list json) (env : Env) (st : ChatState) :
  (let eff := chat_session capabilityId sessionInfo "whoami" args env st in
   eff_mutated eff = false /\ eff_chatState eff = st
   /\ eff_payloadResult eff
      = success (JObj [("username", JStr (display_identity sessionInfo))]))
  /\ (let eff := chat_session capabilityId sessionInfo "receiveMessages" args env st in
      eff_mutated eff = false /\ eff_chatState eff = st)
  /\ (let eff := chat_session capabilityId sessionInfo "checkNick" args env st in
      eff_mutated eff = false /\ eff_chatState eff = st).
Proof.
  unfold chat_session. cbn [String.eqb Ascii.eqb Bool.eqb].
  repeat split; by repeat case_match.
Qed.

(** What a reload makes of a stored message: it comes back as it was, unless
    its [from] or its [body] is empty, in which case it is dropped. *)
Theorem reload_drops_empty_messages (now : Z) (m : Message) :
  normalize_message now (message_to_json m)
  = if String.eqb (from m) "" || String.eqb (body m) "" then None else Some m.
Proof.
  destruct m as [f b t]. unfold normalize_message, message_to_json.
  cbn [is_object field assoc String.eqb Ascii.eqb Bool.eqb from body timestamp].
  by destruct (String.eqb f ""), (String.eqb b "").
Qed.



(** * Further properties of the handlers *)

(** ** The lines of a request *)

Lemma list_ascii_of_string_app (s1 s2 : string) :
  list_ascii_of_string (s1 ++ s2)
  = (list_ascii_of_string s1 ++ list_ascii_of_string s2)%list.
Proof. induction s1 as [| c s1 IH]; [done |]. simpl. by rewrite IH. Qed.

Lemma split_go_app (cur l1 l2 : list ascii) :
  split_go cur (l1 ++ "010"%char :: l2)
  = (split_go cur l1 ++ split_go [] l2)%list.
Proof.
  revert cur. induction l1 as [| c l1 IH]; intros cur; simpl.
  - done.
  - destruct (Ascii.eqb c "010"); simpl; by rewrite IH.
Qed.

Lemma trim_start_fixed (l : list ascii) :
  match l with c :: _ => is_white_space c = false | [] => True end ->
  trim_start l = l.
Proof. destruct l as [| c l]; [done |]. simpl. by intros ->. Qed.

Lemma trim_start_head (l : list ascii) :
  match trim_start l with c :: _ => is_white_space c = false | [] => True end.
Proof.
  induction l as [| c l IH]; [done |]. simpl.
  destruct (is_white_space c) eqn:Hc; [done | by rewrite Hc].
Qed.

Lemma trim_start_suffix (l : list ascii) : exists pre, l = (pre ++ trim_start l)%list.
Proof.
  induction l as [| c l [pre IH]]; [by exists [] |]. simpl.
  destruct (is_white_space c); [| by exists []].
  exists (c :: pre). simpl. by rewrite <- IH.
Qed.

Lemma trim_start_blank (l : list ascii) :
  Forall (fun c => is_white_space c = true) l -> trim_start l = [].
Proof. induction 1 as [| c l Hc _ IH]; [done |]. simpl. by rewrite Hc. Qed.

Lemma trim_idempotent (s : string) : trim (trim s) = trim s.
Proof.
  unfold trim. rewrite list_ascii_of_string_of_list_ascii.
  set (A := trim_start (list_ascii_of_string s)).
  set (B := trim_start (rev A)).
  assert (trim_start (rev B) = rev B) as ->.
  { apply trim_start_fixed.
    destruct (trim_start_suffix (rev A)) as [pre Hpre]. fold B in Hpre.
    apply (f_equal (@rev ascii)) in Hpre. rewrite rev_involutive, rev_app_distr in Hpre.
    pose proof (trim_start_head (list_ascii_of_string s)) as HA. fold A in HA.
    destruct (rev B) as [| c r]; [done |]. rewrite Hpre in HA. exact HA. }
  rewrite rev_involutive.
  assert (trim_start B = B) as ->; [| done].
  apply trim_start_fixed, trim_start_head.
Qed.

Lemma trim_blank (s : string) : blank s -> trim s = "".
Proof. intros Hs. unfold trim. by rewrite (trim_start_blank _ Hs). Qed.

Lemma split_go_blank (cur l : list ascii) :
  Forall (fun c => is_white_space c = true) cur ->
  Forall (fun c => is_white_space c = true) l ->
  Forall blank (split_go cur l).
Proof.
  intros Hcur Hl. revert cur Hcur.
  induction Hl as [| c l Hc _ IH]; intros cur Hcur; simpl.
  - constructor; [| constructor]. unfold blank.
    rewrite list_ascii_of_string_of_list_ascii. by apply Forall_rev.
  - destruct (Ascii.eqb c "010").
    + constructor; [| by apply IH].
      unfold blank. rewrite list_ascii_of_string_of_list_ascii. by apply Forall_rev.
    + apply IH. by constructor.
Qed.

Lemma batch_lines_blank (s : string) : blank s -> batch_lines s = [].
Proof.
  intros Hs. unfold batch_lines, split_lines.
  pose proof (split_go_blank [] _ (Forall_nil_2 _) Hs) as Hall.
  induction Hall as [| line lines Hline _ IH]; [done |].
  rewrite fmap_cons, filter_cons_False; [done |].
  intros Hne. by apply Hne, trim_blank.
Qed.

(** The line reader distributes over a line break: the lines of two texts
    joined by a newline are the lines of the first followed by the lines of
    the second. *)
Theorem batch_lines_app (s1 s2 : string) :
  batch_lines (s1 ++ String "010"%char s2)
  = (batch_lines s1 ++ batch_lines s2)%list.
Proof.
  unfold batch_lines, split_lines.
  rewrite list_ascii_of_string_app. simpl.
  by rewrite split_go_app, fmap_app, filter_app.
Qed.

(** Every line the handlers parse is non-empty and has no white space left
    at either end: trimming it again changes nothing. *)
Theorem batch_lines_trimmed (payload line : string) :
  line ∈ batch_lines payload -> line <> "" /\ trim line = line.
Proof.
  unfold batch_lines. intros [Hne Hin]%list_elem_of_filter. split; [done |].
  apply list_elem_of_fmap in Hin as (raw & -> & _). apply trim_idempotent.
Qed.

(** ** The dispatcher *)

Section Dispatcher.

Variable JSON_parse : string -> option json.
Variable SyntaxError_message : string -> string.
Variable JSON_stringify : json -> string.

(** The stats handler answers exactly the batches [stats_batch] accepts. *)
Lemma tryHandleStatsBatch_stats_batch (payload : string) (env : Env)
    (state : Storage) :
  tryHandleStatsBatch JSON_parse JSON_stringify payload env state
  = match stats_batch JSON_parse payload with
    | Some importId =>
        {| answer :=
             Some {| text :=
                       JSON_stringify
                         (JArr [JStr "result"; JNum importId; readDurableStats state]);
                     x_capnweb_call_count :=
                       String_of_number (default 0%Z (callCount state)) |};
           storage := state;
           clients := serverInstance env;
           called := [] |}
    | None => not_recognized env state
    end.
Proof.
  unfold tryHandleStatsBatch, stats_batch.
  destruct (batch_lines payload) as [| l0 [| l1 [| ? ?]]]; try done.
  destruct (JSON_parse l0) as [pushOp |]; [| done].
  destruct (JSON_parse l1) as [pullOp |]; [| done].
  destruct (tagged "push" (Some pushOp)); [| done].
  destruct (tagged "call" (item 1 pushOp)); [| done].
  destruct (bool_decide (method_of (item 1 pushOp ≫= item 2) = Some "stats"));
    [| done].
  destruct (tagged "pull" (Some pullOp)); [| done].
  cbn [negb andb]. by destruct (item 1 pullOp) as [[| | n | | |] |].
Qed.

(** A chat batch whose method is ["stats"] is a stats batch. *)
Lemma chat_batch_stats (payload : string) (importId capabilityId : Z)
    (args : list json) :
  chat_batch JSON_parse payload = Some (importId, capabilityId, "stats", args) ->
  stats_batch JSON_parse payload = Some importId.
Proof.
  unfold chat_batch, stats_batch.
  destruct (batch_lines payload) as [| l0 [| l1 [| ? ?]]]; try done.
  destruct (JSON_parse l0) as [pushOp |]; [| done].
  destruct (JSON_parse l1) as [pullOp |]; [| done].
  destruct (tagged "push" (Some pushOp)); [| done]. cbn [negb andb].
  destruct (tagged "pull" (Some pullOp)); [| done]. cbn [negb andb].
  destruct (item 1 pullOp) as [[| | n | | |] |]; try done.
  destruct (tagged "call" (item 1 pushOp)); [| done]. cbn [negb andb].
  destruct (item 1 pushOp ≫= item 1) as [[| | c | | |] |]; try done.
  destruct (method_of (item 1 pushOp ≫= item 2)) as [m |]; [| done].
  destruct (String.eqb m ""); [done |].
  destruct (item 1 pushOp ≫= item 3) as [[| | | | a |] |]; try done.
  intros [= -> -> -> ->]. by rewrite bool_decide_eq_true_2.
Qed.

(** A chat batch of another method is not. *)
Lemma chat_batch_not_stats (payload : string) (importId capabilityId : Z)
    (method : string) (args : list json) :
  chat_batch JSON_parse payload = Some (importId, capabilityId, method, args) ->
  method <> "stats" ->
  stats_batch JSON_parse payload = None.
Proof.
  unfold chat_batch, stats_batch.
  destruct (batch_lines payload) as [| l0 [| l1 [| ? ?]]]; try done.
  destruct (JSON_parse l0) as [pushOp |]; [| done].
  destruct (JSON_parse l1) as [pullOp |]; [| done].
  destruct (tagged "push" (Some pushOp)); [| done]. cbn [negb andb].
  destruct (tagged "pull" (Some pullOp)); [| done]. cbn [negb andb].
  destruct (item 1 pullOp) as [[| | n | | |] |]; try done.
  destruct (tagged "call" (item 1 pushOp)); [| done]. cbn [negb andb].
  destruct (item 1 pushOp ≫= item 1) as [[| | c | | |] |]; try done.
  destruct (method_of (item 1 pushOp ≫= item 2)) as [m |]; [| done].
  destruct (String.eqb m ""); [done |].
  destruct (item 1 pushOp ≫= item 3) as [[| | | | a |] |]; try done.
  intros [= -> -> -> ->] Hm. by rewrite bool_decide_eq_false_2 by congruence.
Qed.

(** What [processRpcBatch] does with a batch the chat handler takes. *)
Lemma processRpcBatch_chat_batch (input : string) (env : Env) (state : Storage)
    (importId capabilityId : Z) (method : string) (args : list json) :
  chat_batch JSON_parse input = Some (importId, capabilityId, method, args) ->
  method <> "stats" ->
  let eff :=
    chat_call capabilityId method args env (loadChatState (now env) state) in
  let state1 :=
    if eff_mutated eff then persistChatState state (eff_chatState eff) else state in
  let responseLine :=
    JSON_stringify (reply_of importId (eff_payloadResult eff)) in
  processRpcBatch JSON_parse SyntaxError_message JSON_stringify input env state
  = {| answer := responseLine;
       storage :=
         put_stats (default 0 (callCount state1) + 1)%Z input responseLine state1;
       clients := eff_clients eff;
       called := eff_called eff |}.
Proof.
  intros Hbatch Hmethod. cbv zeta. unfold processRpcBatch.
  rewrite tryHandleStatsBatch_stats_batch.
  rewrite (chat_batch_not_stats _ _ _ _ _ Hbatch Hmethod).
  cbn [answer not_recognized]. unfold tryHandleChatBatch. rewrite Hbatch. done.
Qed.

(** A batch that calls ["stats"] is answered by the stats handler whatever
    capability it names, also one that no session holds, and whatever its
    arguments: the answer is the result envelope of the three diagnostic
    entries as stored, and nothing is written. *)
Theorem stats_answers_on_any_capability (payload : string) (env : Env)
    (state : Storage) (importId capabilityId : Z) (args : list json) :
  chat_batch JSON_parse payload = Some (importId, capabilityId, "stats", args) ->
  let out := processRpcBatch JSON_parse SyntaxError_message JSON_stringify payload env state in
  answer out
  = JSON_stringify
      (envelope "result" importId
         (JObj [("callCount", JNum (default 0%Z (callCount state)));
                ("lastRequest", from_option JStr JNull (lastRequest state));
                ("lastResponse", from_option JStr JNull (lastResponse state))]))
  /\ storage out = state.
Proof.
  intros Hbatch. cbv zeta. unfold processRpcBatch.
  rewrite tryHandleStatsBatch_stats_batch, (chat_batch_stats _ _ _ _ Hbatch). done.
Qed.

(** A request without exactly two non-blank lines, the empty request and a
    request of white space among them, is answered with the error envelope
    [["error", 0, {message: "Unsupported operation"}]]; nothing is written
    and no client is called. *)
Theorem unsupported_without_two_lines (input : string) (env : Env)
    (state : Storage) :
  (blank input -> batch_lines input = [])
  /\ (length (batch_lines input) <> 2 ->
      processRpcBatch JSON_parse SyntaxError_message JSON_stringify input env state
      = {| answer :=
             JSON_stringify
               (envelope "error" 0
                  (JObj [("message", JStr "Unsupported operation")]));
           storage := state;
           clients := serverInstance env;
           called := [] |}).
Proof.
  split; [apply batch_lines_blank |]. intros Hlen.
  unfold processRpcBatch, tryHandleStatsBatch, tryHandleChatBatch,
    chat_batch, calculator_batch.
  destruct (batch_lines input) as [| l0 [| l1 [| ? ?]]]; done.
Qed.

(** What a batch does to [callCount]. *)
Lemma processRpcBatch_callCount (input : string) (env : Env) (state : Storage) :
  callCount
    (storage (processRpcBatch JSON_parse SyntaxError_message JSON_stringify
                input env state))
  = if counted JSON_parse SyntaxError_message input
    then Some (default 0 (callCount state) + 1)%Z
    else callCount state.
Proof.
  unfold processRpcBatch, counted. rewrite tryHandleStatsBatch_stats_batch.
  destruct (stats_batch JSON_parse input) as [importId |]; [done |].
  cbn [answer not_recognized]. unfold tryHandleChatBatch.
  destruct (chat_batch JSON_parse input) as [[[[importId cap] method] args] |].
  - cbn. by destruct (eff_mutated _).
  - cbn [answer not_recognized].
    by destruct (calculator_batch JSON_parse SyntaxError_message input) as [? | [? ?]].
Qed.

(** [callCount] counts the requests answered by the chat handler or by the
    calculator: over any sequence of requests it grows by the number of those
    among them.  Stats batches and requests answered with the error envelope
    of id 0 are not counted. *)
Theorem callCount_counts_dispatched (requests : list (string * Env))
    (state : Storage) :
  default 0%Z
    (callCount (serve JSON_parse SyntaxError_message JSON_stringify requests state))
  = (default 0 (callCount state)
     + Z.of_nat
         (length
            (filter (fun r => counted JSON_parse SyntaxError_message r.1 = true)
               requests)))%Z.
Proof.
  revert state. induction requests as [| [input env] rest IH]; intros state.
  - cbn. lia.
  - cbn [serve]. rewrite IH, processRpcBatch_callCount, filter_cons. cbn [fst].
    destruct (counted JSON_parse SyntaxError_message input).
    + rewrite decide_True by done. rewrite length_cons. unfold default at 1.
      cbn [from_option id]. lia.
    + rewrite decide_False by done. lia.
Qed.

(** A stats batch reports the batch dispatched before it: the count that
    batch left, its request text and its response line. *)
Theorem stats_reports_last_batch (payload : string) (env : Env) (state : Storage)
    (importId capabilityId : Z) (method : string) (args : list json)
    (payload' : string) (env' : Env) (importId' : Z) :
  chat_batch JSON_parse payload = Some (importId, capabilityId, method, args) ->
  method <> "stats" ->
  stats_batch JSON_parse payload' = Some importId' ->
  let out :=
    processRpcBatch JSON_parse SyntaxError_message JSON_stringify payload env state in
  answer (processRpcBatch JSON_parse SyntaxError_message JSON_stringify
            payload' env' (storage out))
  = JSON_stringify
      (envelope "result" importId'
         (JObj [("callCount", JNum (default 0 (callCount state) + 1)%Z);
                ("lastRequest", JStr payload);
                ("lastResponse", JStr (answer out))])).
Proof.
  intros Hbatch Hmethod Hstats. cbv zeta.
  rewrite (processRpcBatch_chat_batch _ _ _ _ _ _ _ Hbatch Hmethod).
  cbn [storage answer]. unfold processRpcBatch at 1.
  rewrite tryHandleStatsBatch_stats_batch, Hstats. cbn.
  by destruct (eff_mutated _).
Qed.

(** In storage reached from empty storage, a call on the calculator
    capability with a numeric import id and an array of arguments, [add]
    included, never reaches the calculator: the chat handler takes it and
    answers that the session capability is unknown. *)
Theorem calculator_capability_is_shadowed (requests : list (string * Env))
    (payload : string) (env : Env) (importId : Z) (method : string)
    (args : list json) :
  chat_batch JSON_parse payload = Some (importId, CALCULATOR_CAP_ID, method, args) ->
  method <> "stats" ->
  let state :=
    serve JSON_parse SyntaxError_message JSON_stringify requests empty_storage in
  let out :=
    processRpcBatch JSON_parse SyntaxError_message JSON_stringify payload env state in
  answer out
  = JSON_stringify
      (envelope "error" importId
         (JObj [("message", JStr "unknown session capability")]))
  /\ chatState (storage out) = chatState state.
Proof.
  intros Hbatch Hmethod state out. subst out.
  rewrite (processRpcBatch_chat_batch _ _ _ _ _ _ _ Hbatch Hmethod).
  assert (sessionCaps (loadChatState (now env) state)
            !! String_of_number CALCULATOR_CAP_ID = None) as Hnone.
  { destruct (sessionCaps (loadChatState (now env) state)
                !! String_of_number CALCULATOR_CAP_ID) as [info |] eqn:Hinfo;
      [| done].
    destruct (serve_caps_invariant JSON_parse SyntaxError_message JSON_stringify
                requests empty_storage) with (now := now env)
                (key := String_of_number CALCULATOR_CAP_ID)
      as (n & Hn & Hfloor & _).
    - intros now' key [? Hkey]. done.
    - fold state. by rewrite Hinfo.
    - apply String_of_number_inj in Hn. subst n.
      unfold SESSION_CAPABILITY_START, CALCULATOR_CAP_ID in Hfloor. lia. }
  unfold chat_call. cbn [Z.eqb CALCULATOR_CAP_ID CHAT_CAPABILITY_ID Pos.eqb].
  rewrite Hnone. done.
Qed.


End Dispatcher.

(** ** What a reload keeps of the tables and of the messages *)

Lemma fold_set_strings (l : list (string * string)) (target : gmap string string) :
  fold_left
    (fun acc '(key, value) =>
       match value with JStr s => set key s acc | _ => acc end)
    ((fun e => (e.1, JStr e.2)) <$> l) target
  = fold_left (fun acc e => set e.1 e.2 acc) l target.
Proof.
  revert target. induction l as [| [k v] l IH]; intros target; [done |].
  cbn [fmap list_fmap fold_left fst snd]. by rewrite IH.
Qed.

Lemma list_to_map_reverse_lookup {V : Type} (table : gmap string V) (k : string) :
  (list_to_map (reverse (map_to_list table)) : gmap string V) !! k = table !! k.
Proof.
  transitivity ((list_to_map (map_to_list table) : gmap string V) !! k);
    [| by rewrite list_to_map_to_list].
  f_equal. apply list_to_map_proper.
  - rewrite fmap_reverse, reverse_Permutation. apply NoDup_fst_map_to_list.
  - apply reverse_Permutation.
Qed.

(** A table of strings read back from the text [JSON.stringify] made of it,
    over the defaults [target]. *)
Lemma reload_strings (table target : gmap string string) (k : string) :
  copy_strings (Some (strings_to_json table)) target !! k
  = if decide (k = "__proto__") then target !! k
    else match table !! k with Some v => Some v | None => target !! k end.
Proof.
  unfold copy_strings, strings_to_json. cbn [is_object Object_entries].
  rewrite fold_set_strings, fold_set_lookup.
  destruct (decide _); [done |]. by rewrite list_to_map_reverse_lookup.
Qed.

(** No table read from storage owns the key ["__proto__"]. *)
Lemma copy_strings_proto (v : option json) (target : gmap string string) :
  copy_strings v target !! "__proto__" = target !! "__proto__".
Proof.
  unfold copy_strings. destruct (is_object v); [| done].
  generalize (Object_entries v). intros l. revert target.
  induction l as [| [k j] l IH]; intros target; [done |].
  cbn [fold_left]. rewrite IH. destruct j; try done.
  unfold set. case_bool_decide; [done |]. by rewrite lookup_insert_ne.
Qed.

Lemma load_sessions_proto (now : Z) (state : Storage) :
  sessionCaps (loadChatState now state) !! "__proto__" = None.
Proof.
  unfold loadChatState. destruct (chatState state) as [raw |]; [| done].
  unfold normalizeChatState. destruct (negb (is_object (Some raw))); [done |].
  cbn [sessionCaps]. destruct (is_object (field "sessionCaps" raw)); [| done].
  generalize (Object_entries (field "sessionCaps" raw)). intros l.
  assert ((∅ : gmap string SessionInfo) !! "__proto__" = None) as Hacc by done.
  revert Hacc. generalize (∅ : gmap string SessionInfo).
  induction l as [| [k j] l IH]; intros acc Hacc; [done |].
  cbn [fold_left]. apply IH. destruct (normalize_session j); [| done].
  unfold set. case_bool_decide; [done |]. by rewrite lookup_insert_ne.
Qed.

Lemma load_nicks_proto (now : Z) (state : Storage) :
  registeredNicks (loadChatState now state) !! "__proto__" = None.
Proof.
  unfold loadChatState. destruct (chatState state) as [raw |]; [| done].
  unfold normalizeChatState. destruct (negb (is_object (Some raw))); [done |].
  cbn [registeredNicks]. by rewrite copy_strings_proto.
Qed.

Lemma reload_registeredNicks (now : Z) (st : ChatState) (k : string) :
  registeredNicks (normalizeChatState now (chatState_to_json st)) !! k
  = if decide (k = "__proto__") then None else registeredNicks st !! k.
Proof.
  unfold normalizeChatState, chatState_to_json.
  cbn [is_object negb registeredNicks field assoc String.eqb Ascii.eqb Bool.eqb].
  rewrite reload_strings. destruct (decide _); [done |].
  cbn [registeredNicks cloneDefaultChatState DEFAULT_CHAT_STATE].
  rewrite lookup_empty. by destruct (_ !! k).
Qed.

Lemma reload_nickOwners (now : Z) (st : ChatState) (k : string) :
  nickOwners (normalizeChatState now (chatState_to_json st)) !! k
  = if decide (k = "__proto__") then None else nickOwners st !! k.
Proof.
  unfold normalizeChatState, chatState_to_json.
  cbn [is_object negb nickOwners field assoc String.eqb Ascii.eqb Bool.eqb].
  rewrite reload_strings. destruct (decide _); [done |].
  cbn [nickOwners cloneDefaultChatState DEFAULT_CHAT_STATE].
  rewrite lookup_empty. by destruct (_ !! k).
Qed.

(** The tables read from storage do not depend on the clock. *)
Lemma load_nicks_clock (now now' : Z) (state : Storage) :
  registeredNicks (loadChatState now state)
  = registeredNicks (loadChatState now' state)
  /\ nickOwners (loadChatState now state) = nickOwners (loadChatState now' state)
  /\ credentials (loadChatState now state)
     = credentials (loadChatState now' state).
Proof.
  unfold loadChatState. destruct (chatState state) as [raw |]; [| done].
  unfold normalizeChatState. by destruct (negb (is_object (Some raw))).
Qed.

Lemma normalize_message_to_json (now : Z) (m : Message) :
  normalize_message now (message_to_json m)
  = if decide (from m <> "" /\ body m <> "") then Some m else None.
Proof.
  destruct m as [f b t]. unfold normalize_message, message_to_json.
  cbn [is_object field assoc String.eqb Ascii.eqb Bool.eqb from body timestamp].
  destruct (String.eqb_spec f ""), (String.eqb_spec b ""); cbn [negb andb];
    case_decide; naive_solver.
Qed.

Lemma normalize_message_heard (now : Z) (entry : json) (m : Message) :
  normalize_message now entry = Some m ->
  from m <> "" /\ body m <> ""
  /\ forall now', exists m',
       normalize_message now' entry = Some m' /\ heard m' = heard m.
Proof.
  unfold normalize_message. destruct (is_object (Some entry)); [| done].
  destruct (field "from" entry) as [[| | | f | |] |]; try done.
  destruct (field "body" entry) as [[| | | b | |] |]; try done.
  destruct (String.eqb_spec f ""), (String.eqb_spec b ""); cbn [negb andb];
    try done.
  intros [= <-]. cbn [from body]. repeat split; try done.
  intros now'. eexists. split; [reflexivity | done].
Qed.

(** The messages read back from the document [persistChatState] wrote: those
    with an author and a text. *)
Lemma reload_messages (now : Z) (st : ChatState) :
  messages (normalizeChatState now (chatState_to_json st))
  = filter (fun m => from m <> "" /\ body m <> "") (messages st).
Proof.
  unfold normalizeChatState, chatState_to_json.
  cbn [is_object negb messages field assoc String.eqb Ascii.eqb Bool.eqb].
  induction (messages st) as [| m l IH]; [done |].
  rewrite fmap_cons, filter_cons.
  change (omap (normalize_message now) (message_to_json m :: (message_to_json <$> l)))
    with (match normalize_message now (message_to_json m) with
          | Some y => y :: omap (normalize_message now) (message_to_json <$> l)
          | None => omap (normalize_message now) (message_to_json <$> l)
          end).
  rewrite normalize_message_to_json, IH. by case_decide.
Qed.

Lemma load_messages_nonempty (now : Z) (state : Storage) :
  Forall (fun m => from m <> "" /\ body m <> "") (messages (loadChatState now state)).
Proof.
  unfold loadChatState. destruct (chatState state) as [raw |]; [| by constructor].
  unfold normalizeChatState.
  destruct (negb (is_object (Some raw))); [by constructor |].
  cbn [messages].
  destruct (field "messages" raw) as [[| | | | entries |] |]; try by constructor.
  apply Forall_forall. intros m (entry & _ & Hm)%list_elem_of_omap.
  apply normalize_message_heard in Hm. naive_solver.
Qed.

(** Authors and texts of the messages read from storage do not depend on the
    clock (a stored message without time stamp takes the time of the load). *)
Lemma load_messages_heard (now now' : Z) (state : Storage) :
  heard <$> messages (loadChatState now state)
  = heard <$> messages (loadChatState now' state).
Proof.
  unfold loadChatState. destruct (chatState state) as [raw |]; [| done].
  unfold normalizeChatState. destruct (negb (is_object (Some raw))); [done |].
  cbn [messages].
  destruct (field "messages" raw) as [[| | | | entries |] |]; try done.
  induction entries as [| e entries IH]; [done |].
  change (omap (normalize_message now) (e :: entries))
    with (match normalize_message now e with
          | Some y => y :: omap (normalize_message now) entries
          | None => omap (normalize_message now) entries
          end).
  change (omap (normalize_message now') (e :: entries))
    with (match normalize_message now' e with
          | Some y => y :: omap (normalize_message now') entries
          | None => omap (normalize_message now') entries
          end).
  destruct (normalize_message now e) as [m |] eqn:Hm.
  - apply normalize_message_heard in Hm as (_ & _ & Hm).
    destruct (Hm now') as (m' & -> & Hh). rewrite !fmap_cons, IH. by rewrite Hh.
  - destruct (normalize_message now' e) as [m' |] eqn:Hm'; [| done].
    apply normalize_message_heard in Hm' as (_ & _ & Hm').
    destruct (Hm' now) as (m & Hm2 & _). congruence.
Qed.

(** ** What a call keeps *)

(** A call that is refused changes nothing and calls no client. *)
Lemma chat_call_refused (capabilityId : Z) (method : string) (args : list json)
    (env : Env) (st : ChatState) :
  let eff := chat_call capabilityId method args env st in
  refused (eff_payloadResult eff) ->
  eff_mutated eff = false /\ eff_chatState eff = st
  /\ eff_clients eff = serverInstance env /\ eff_called eff = [].
Proof.
  cbv zeta. unfold chat_call. destruct (capabilityId =? CHAT_CAPABILITY_ID)%Z.
  - unfold chat_service. repeat case_match; cbn; intros Hr; try done.
  - destruct (sessionCaps st !! String_of_number capabilityId) as [info |];
      [| done].
    unfold chat_session. repeat case_match; cbn; intros Hr; try done.
Qed.

(** A call appends to the messages or leaves them. *)
Lemma chat_call_messages (capabilityId : Z) (method : string) (args : list json)
    (env : Env) (st : ChatState) :
  exists new,
    messages (eff_chatState (chat_call capabilityId method args env st))
    = (messages st ++ new)%list.
Proof.
  unfold chat_call. destruct (capabilityId =? CHAT_CAPABILITY_ID)%Z.
  - unfold chat_service. exists [].
    repeat case_match; cbn; by rewrite app_nil_r.
  - destruct (sessionCaps st !! String_of_number capabilityId) as [info |];
      [| exists []; cbn; by rewrite app_nil_r].
    unfold chat_session.
    repeat case_match; cbn;
      first [ by eexists | exists []; by rewrite app_nil_r ].
Qed.

(** A call keeps every session, with its user name. *)
Lemma chat_call_sessions_kept (capabilityId : Z) (method : string)
    (args : list json) (env : Env) (st : ChatState) (key : string)
    (info : SessionInfo) :
  sessionCaps st !! key = Some info ->
  exists info',
    sessionCaps (eff_chatState (chat_call capabilityId method args env st)) !! key
    = Some info'
    /\ username info' = username info.
Proof.
  intros Hkey.
  assert (forall info0,
            exists info',
              set (String_of_number (allocate st)) info0 (sessionCaps st) !! key
              = Some info' /\ username info' = username info) as Hnew.
  { intros info0. exists info. split; [| done].
    rewrite set_String_of_number, lookup_insert_ne; [done |].
    intros <-. destruct (allocate_spec st) as (_ & Hfree & _). congruence. }
  unfold chat_call. destruct (capabilityId =? CHAT_CAPABILITY_ID)%Z.
  - unfold chat_service.
    repeat case_match; cbn [eff_chatState changed unchanged sessionCaps with_session
                            with_tokens];
      first [ by eexists | apply Hnew ].
  - destruct (sessionCaps st !! String_of_number capabilityId) as [old |] eqn:Hold;
      [| by eexists].
    assert (forall d,
              exists info',
                set (String_of_number capabilityId)
                  {| username := username old; displayName := d |}
                  (sessionCaps st) !! key = Some info'
                /\ username info' = username info) as Hrebind.
    { intros d. rewrite set_String_of_number.
      destruct (decide (key = String_of_number capabilityId)) as [-> | Hne].
      - rewrite lookup_insert_eq. eexists. split; [done |]. cbn. congruence.
      - rewrite lookup_insert_ne by done. by eexists. }
    unfold chat_session.
    repeat case_match; cbn [eff_chatState changed unchanged sessionCaps with_messages
                            with_nick with_tokens];
      first [ by eexists | apply Hrebind ].
Qed.

(** A call keeps the password of every nickname registered with one. *)
Lemma chat_call_passwords_kept (capabilityId : Z) (method : string)
    (args : list json) (env : Env) (st : ChatState) (nickname password : string) :
  registeredNicks st !! nickname = Some password -> password <> "" ->
  registeredNicks (eff_chatState (chat_call capabilityId method args env st))
    !! nickname
  = Some password.
Proof.
  intros Hnick Hpw.
  unfold chat_call. destruct (capabilityId =? CHAT_CAPABILITY_ID)%Z.
  - unfold chat_service. repeat case_match; done.
  - destruct (sessionCaps st !! String_of_number capabilityId) as [old |]; [| done].
    unfold chat_session.
    destruct (String.eqb method "sendMessage");
      [repeat case_match; done |].
    destruct (String.eqb method "receiveMessages"); [repeat case_match; done |].
    destruct (String.eqb method "registerNick").
    { destruct args as [| [| | | n | |] [| [| | | p | |] [| ? ?]]]; try done.
      destruct (nick_registered n st) eqn:Hreg; [done |].
      cbn [eff_chatState changed registeredNicks with_nick].
      unfold set. case_bool_decide; [done |].
      destruct (decide (n = nickname)) as [-> | Hne];
        [| by rewrite lookup_insert_ne].
      unfold nick_registered, get, classify in Hreg. rewrite Hnick in Hreg.
      apply String.eqb_neq in Hpw. by rewrite Hpw in Hreg. }
    repeat case_match; done.
Qed.

Section Invariants.

Variable JSON_parse : string -> option json.
Variable SyntaxError_message : string -> string.
Variable JSON_stringify : json -> string.

(** A call that the handler refuses, with an error envelope or with a result
    of status ["error"], writes nothing to the chat state document and calls
    no client. *)
Theorem refusals_do_not_write (payload : string) (env : Env) (state : Storage)
    (importId capabilityId : Z) (method : string) (args : list json) :
  chat_batch JSON_parse payload = Some (importId, capabilityId, method, args) ->
  refused
    (eff_payloadResult
       (chat_call capabilityId method args env (loadChatState (now env) state))) ->
  let out := tryHandleChatBatch JSON_parse JSON_stringify payload env state in
  chatState (storage out) = chatState state
  /\ called out = []
  /\ clients out = serverInstance env.
Proof.
  intros Hbatch Hrefused. cbv zeta. unfold tryHandleChatBatch. rewrite Hbatch.
  destruct (chat_call_refused _ _ _ _ _ Hrefused) as (Hm & _ & Hc & Hd).
  cbn [storage called clients]. by rewrite Hm, Hc, Hd.
Qed.

(** No batch unbinds a session capability or changes the user it is bound
    to: a key of [sessionCaps] is a key of it after any sequence of requests,
    with the same [username]. *)
Theorem sessions_stay_bound (requests : list (string * Env)) (state : Storage)
    (clock clock' : Z) (key : string) (info : SessionInfo) :
  sessionCaps (loadChatState clock state) !! key = Some info ->
  exists info',
    sessionCaps
      (loadChatState clock'
         (serve JSON_parse SyntaxError_message JSON_stringify requests state))
      !! key
    = Some info'
    /\ username info' = username info.
Proof.
  revert state info. induction requests as [| [input env] rest IH];
    intros state info Hkey.
  - cbn [serve]. exists info. split; [| done].
    by rewrite <- (proj1 (load_sessions_clock clock clock' state)).
  - cbn [serve].
    set (state' := storage (processRpcBatch _ _ _ input env state)).
    assert (exists info1,
              sessionCaps (loadChatState clock state') !! key = Some info1
              /\ username info1 = username info) as (info1 & Hkey1 & Hu).
    { destruct (processRpcBatch_chatState JSON_parse SyntaxError_message
                  JSON_stringify input env state)
        as [Hsame | (importId & cap & method & args & _ & _ & Hdoc)].
      - exists info. split; [| done].
        by rewrite (loadChatState_document _ _ _ Hsame).
      - fold state' in Hdoc. unfold loadChatState at 1. rewrite Hdoc.
        rewrite reload_sessionCaps.
        destruct (decide (key = "__proto__")) as [-> | _].
        { by rewrite load_sessions_proto in Hkey. }
        apply chat_call_sessions_kept.
        by rewrite <- (proj1 (load_sessions_clock clock (now env) state)). }
    destruct (IH state' info1 Hkey1) as (info' & Hkey' & Hu').
    exists info'. split; [done | congruence].
Qed.

(** No batch changes or removes the password of a nickname registered with a
    non-empty password. *)
Theorem passwords_are_stable (requests : list (string * Env)) (state : Storage)
    (clock clock' : Z) (nickname password : string) :
  registeredNicks (loadChatState clock state) !! nickname = Some password ->
  password <> "" ->
  registeredNicks
    (loadChatState clock'
       (serve JSON_parse SyntaxError_message JSON_stringify requests state))
    !! nickname
  = Some password.
Proof.
  intros Hnick Hpw. revert state Hnick.
  induction requests as [| [input env] rest IH]; intros state Hnick.
  - cbn [serve]. by rewrite <- (proj1 (load_nicks_clock clock clock' state)).
  - cbn [serve]. apply IH.
    destruct (processRpcBatch_chatState JSON_parse SyntaxError_message
                JSON_stringify input env state)
      as [Hsame | (importId & cap & method & args & _ & _ & Hdoc)].
    + by rewrite (loadChatState_document _ _ _ Hsame).
    + unfold loadChatState at 1. rewrite Hdoc, reload_registeredNicks.
      destruct (decide (nickname = "__proto__")) as [-> | _].
      { by rewrite load_nicks_proto in Hnick. }
      apply chat_call_passwords_kept; [| done].
      by rewrite <- (proj1 (load_nicks_clock clock (now env) state)).
Qed.

(** The messages are an append-only log: after any sequence of requests the
    messages read from storage start with the messages that were there, same
    authors and same texts in the same order. *)
Theorem messages_are_append_only (requests : list (string * Env))
    (state : Storage) (clock clock' : Z) :
  (heard <$> messages (loadChatState clock state))
  `prefix_of`
  (heard <$> messages
               (loadChatState clock'
                  (serve JSON_parse SyntaxError_message JSON_stringify
                     requests state))).
Proof.
  revert state. induction requests as [| [input env] rest IH]; intros state.
  - cbn [serve]. by rewrite (load_messages_heard clock clock' state).
  - cbn [serve]. etrans; [| apply IH].
    destruct (processRpcBatch_chatState JSON_parse SyntaxError_message
                JSON_stringify input env state)
      as [Hsame | (importId & cap & method & args & _ & _ & Hdoc)].
    + by rewrite (loadChatState_document _ _ _ Hsame).
    + unfold loadChatState at 2. rewrite Hdoc, reload_messages.
      destruct (chat_call_messages cap method args env
                  (loadChatState (now env) state)) as [new ->].
      rewrite filter_app, (filter_all _ _) by
        (apply Forall_forall, load_messages_nonempty).
      rewrite fmap_app, (load_messages_heard clock (now env) state).
      by eexists.
Qed.




End Invariants.

(** ** Calls that follow each other *)

Lemma String_of_number_not_proto (n : Z) : String_of_number n <> "__proto__".
Proof.
  intros Heq. apply (String_of_number_not_inherited n). rewrite Heq.
  unfold Object_prototype. set_solver.
Qed.

Lemma set_entry_elem {V : Type} (key : string) (v : V) (table : list (string * V))
    (e : string * V) :
  e ∈ set_entry key v table -> e = (key, v) \/ e ∈ table.
Proof.
  unfold set_entry. case_bool_decide; [by right |].
  destruct (assoc key table) as [old |].
  - induction table as [| [k' v'] rest IH]; simpl; [by right |].
    destruct (String.eqb k' key).
    + intros [-> | Hin]%elem_of_cons; [by left | right; by right].
    + intros [-> | Hin]%elem_of_cons; [right; by left |].
      destruct (IH Hin) as [-> | Hr]; [by left | right; by right].
  - induction table as [| [k' v'] rest IH]; simpl.
    + intros [-> | Hin]%elem_of_cons; [by left | by right].
    + destruct (enumerated_before key k').
      * intros [-> | Hin]%elem_of_cons; [by left | by right].
      * intros [-> | Hin]%elem_of_cons; [right; by left |].
        destruct (IH Hin) as [-> | Hr]; [by left | right; by right].
Qed.

(** Every token entry read from storage has a user name, and a nickname that
    is not empty if it has one: a reload keeps it as it is. *)
Lemma load_tokens_normal (now : Z) (state : Storage) (e : string * NickTokenInfo) :
  e ∈ nickTokens (loadChatState now state) -> reload_entry e = Some e.
Proof.
  unfold loadChatState. destruct (chatState state) as [raw |];
    [| by intros H; apply elem_of_nil in H].
  unfold normalizeChatState.
  destruct (negb (is_object (Some raw))); [by intros H; apply elem_of_nil in H |].
  cbn [nickTokens].
  destruct (is_object (field "nickTokens" raw));
    [| by intros H; apply elem_of_nil in H].
  generalize (Object_entries (field "nickTokens" raw)). intros l.
  assert (forall e0 : string * NickTokenInfo, e0 ∈ [] -> reload_entry e0 = Some e0)
    as Hacc.
  { intros e0 H. by apply elem_of_nil in H. }
  revert Hacc. generalize ([] : list (string * NickTokenInfo)). revert e.
  induction l as [| [k j] l IH]; intros e acc Hacc; [apply Hacc |].
  cbn [fold_left]. apply IH.
  destruct (normalize_token now j) as [info |] eqn:Hinfo; [| done].
  intros e0 [-> | Hin]%set_entry_elem; [| by apply Hacc].
  unfold normalize_token in Hinfo.
  destruct (is_object (Some j)); [| done].
  destruct (field "username" j) as [[| | | u | |] |]; try done.
  destruct (String.eqb u "") eqn:Hu; [done |].
  injection Hinfo as <-. unfold reload_entry, reload_token.
  cbn [fst snd token_username token_nickname issuedAt lastUsed]. rewrite Hu.
  destruct (field "nickname" j) as [[| | | n | |] |]; try done.
  by destruct (String.eqb n "") eqn:Hn; [| rewrite Hn].
Qed.

Lemma omap_id_Forall {A : Type} (f : A -> option A) (l : list A) :
  (forall x, x ∈ l -> f x = Some x) -> omap f l = l.
Proof.
  induction l as [| a l IH]; intros Hall; [done |].
  change (omap f (a :: l))
    with (match f a with Some y => y :: omap f l | None => omap f l end).
  rewrite (Hall a) by (by left). f_equal. apply IH. intros x Hx. apply Hall.
  by right.
Qed.

(** A table of strings read from storage keeps the keys of its defaults. *)
Lemma copy_strings_keeps (v : option json) (target : gmap string string)
    (k : string) :
  copy_strings v target !! k = None -> target !! k = None.
Proof.
  unfold copy_strings. destruct (is_object v); [| done].
  generalize (Object_entries v). intros l. revert target.
  induction l as [| [k0 j] l IH]; intros target; [done |].
  cbn [fold_left]. intros Hnone. apply IH in Hnone.
  destruct j; try done. unfold set in Hnone. case_bool_decide; [done |].
  by apply lookup_insert_None in Hnone as [? _].
Qed.

Lemma load_owners_proto (now : Z) (state : Storage) :
  nickOwners (loadChatState now state) !! "__proto__" = None.
Proof.
  unfold loadChatState. destruct (chatState state) as [raw |]; [| done].
  unfold normalizeChatState. destruct (negb (is_object (Some raw))); [done |].
  cbn [nickOwners]. by rewrite copy_strings_proto.
Qed.

Lemma load_credentials_keep (now : Z) (state : Storage) (k : string) :
  credentials (loadChatState now state) !! k = None ->
  credentials DEFAULT_CHAT_STATE !! k = None.
Proof.
  unfold loadChatState. destruct (chatState state) as [raw |]; [| done].
  unfold normalizeChatState. destruct (negb (is_object (Some raw))); [done |].
  cbn [credentials]. apply copy_strings_keeps.
Qed.

(** Persisting the aggregate a request loaded and loading it again gives the
    same aggregate: every table, the messages with their time stamps and the
    next session id are read back as they were, and the token table holds the
    same entries. *)
Theorem persist_then_load (state : Storage) (clock clock' : Z) :
  let st := loadChatState clock state in
  let st' := loadChatState clock' (persistChatState state st) in
  credentials st' = credentials st
  /\ messages st' = messages st
  /\ nextSessionCapId st' = nextSessionCapId st
  /\ sessionCaps st' = sessionCaps st
  /\ registeredNicks st' = registeredNicks st
  /\ nickOwners st' = nickOwners st
  /\ nickTokens st' ≡ₚ nickTokens st.
Proof.
  intros st st'. subst st'.
  change (loadChatState clock' (persistChatState state st))
    with (normalizeChatState clock' (chatState_to_json st)).
  repeat split.
  - apply map_eq. intros k. unfold normalizeChatState at 1, chatState_to_json.
    cbn [is_object negb credentials field assoc String.eqb Ascii.eqb Bool.eqb].
    rewrite reload_strings. destruct (decide (k = "__proto__")) as [-> | _].
    + subst st. unfold loadChatState.
      destruct (chatState state) as [raw |]; [| done].
      unfold normalizeChatState. destruct (negb (is_object (Some raw))); [done |].
      cbn [credentials]. by rewrite copy_strings_proto.
    + destruct (credentials st !! k) eqn:Hk; [done |].
      by apply load_credentials_keep in Hk.
  - rewrite reload_messages. apply filter_all.
    apply Forall_forall, load_messages_nonempty.
  - rewrite reload_nextSessionCapId.
    pose proof (load_next_floor clock state). fold st in H. lia.
  - apply map_eq. intros k. rewrite reload_sessionCaps.
    destruct (decide _) as [-> | _]; [| done].
    symmetry. apply load_sessions_proto.
  - apply map_eq. intros k. rewrite reload_registeredNicks.
    destruct (decide _) as [-> | _]; [| done].
    symmetry. apply load_nicks_proto.
  - apply map_eq. intros k. rewrite reload_nickOwners.
    destruct (decide _) as [-> | _]; [| done].
    symmetry. apply load_owners_proto.
  - rewrite reload_nickTokens by apply load_tokens_ok.
    rewrite omap_id_Forall; [done |]. apply load_tokens_normal.
Qed.

Section Sequences.

Variable JSON_parse : string -> option json.
Variable SyntaxError_message : string -> string.
Variable JSON_stringify : json -> string.

(** What a later request loads after a batch that wrote the aggregate. *)
Lemma load_after_chat_batch (input : string) (env : Env) (state : Storage)
    (importId capabilityId : Z) (method : string) (args : list json) (clock : Z) :
  chat_batch JSON_parse input = Some (importId, capabilityId, method, args) ->
  method <> "stats" ->
  let eff :=
    chat_call capabilityId method args env (loadChatState (now env) state) in
  eff_mutated eff = true ->
  loadChatState clock
    (storage (processRpcBatch JSON_parse SyntaxError_message JSON_stringify
                input env state))
  = normalizeChatState clock (chatState_to_json (eff_chatState eff)).
Proof.
  intros Hbatch Hmethod eff Hm.
  rewrite (processRpcBatch_chat_batch _ _ _ _ _ _ _ _ _ _ Hbatch) by done.
  cbn [storage]. fold eff. by rewrite Hm.
Qed.

(** [receiveMessages] returns what [sendMessage] stored: after a
    [sendMessage] on a session, [receiveMessages] on that session answers
    with the messages that were there followed by the message sent, under
    the display name of the session and with the time of the send.  A message
    whose text or whose author is the empty string is answered with
    [status: "ok"] like any other, and is not among the messages read
    back. *)
Theorem sendMessage_then_receiveMessages (payload : string) (env : Env)
    (state : Storage) (importId capabilityId : Z) (body_ : string)
    (sessionInfo : SessionInfo) (payload' : string) (env' : Env) (importId' : Z) :
  chat_batch JSON_parse payload
  = Some (importId, capabilityId, "sendMessage", [JStr body_]) ->
  capabilityId <> CHAT_CAPABILITY_ID ->
  sessionCaps (loadChatState (now env) state) !! String_of_number capabilityId
  = Some sessionInfo ->
  chat_batch JSON_parse payload'
  = Some (importId', capabilityId, "receiveMessages", []) ->
  let sent :=
    {| from := display_identity sessionInfo; body := body_;
       timestamp := now env |} in
  let state' :=
    storage (processRpcBatch JSON_parse SyntaxError_message JSON_stringify
               payload env state) in
  answer (processRpcBatch JSON_parse SyntaxError_message JSON_stringify
            payload' env' state')
  = JSON_stringify
      (envelope "result" importId'
         (JObj [("messages",
                  JArr (message_to_json
                          <$> (messages (loadChatState (now env) state)
                               ++ if decide (display_identity sessionInfo <> ""
                                             /\ body_ <> "")
                                  then [sent] else [])%list))])).
Proof.
  intros Hsend Hcap Hsession Hreceive sent state'.
  apply Z.eqb_neq in Hcap.
  assert (exists members called,
            chat_call capabilityId "sendMessage" [JStr body_] env
              (loadChatState (now env) state)
            = {| eff_chatState :=
                   with_messages (loadChatState (now env) state)
                     (messages (loadChatState (now env) state) ++ [sent]);
                 eff_mutated := true;
                 eff_payloadResult :=
                   success (JObj [("status", JStr "ok"); ("echo", JStr body_)]);
                 eff_clients := members; eff_called := called |})
    as (members & called & Heff).
  { unfold chat_call. rewrite Hcap, Hsession.
    unfold chat_session. cbn [String.eqb Ascii.eqb Bool.eqb].
    destruct (serverInstance env) as [members |]; [| by eexists _, _].
    destruct (broadcastMessage (receiveMessage env) _ members). by eexists _, _. }
  rewrite (processRpcBatch_chat_batch _ _ _ _ _ _ _ _ _ _ Hreceive) by done.
  cbn [answer]. subst state'.
  rewrite (load_after_chat_batch _ _ _ _ _ _ _ _ Hsend) by (done || by rewrite Heff).
  rewrite Heff. cbn [eff_chatState].
  unfold chat_call. rewrite Hcap, reload_sessionCaps.
  rewrite decide_False by apply String_of_number_not_proto.
  cbn [sessionCaps with_messages]. rewrite Hsession.
  unfold chat_session. cbn [String.eqb Ascii.eqb Bool.eqb].
  cbn [eff_payloadResult unchanged reply_of]. rewrite reload_messages.
  cbn [messages with_messages]. rewrite filter_app.
  rewrite (filter_all _ (messages _)) by
    (apply Forall_forall, load_messages_nonempty).
  rewrite filter_cons, filter_nil. cbn [from body sent]. by case_decide.
Qed.

(** After a [registerNick] that is accepted, [whoami] on the same session
    answers with the nickname, and the next load finds the nickname
    registered with the password given and owned by the user of the
    session. *)
Theorem registerNick_then_whoami (payload : string) (env : Env)
    (state : Storage) (importId capabilityId : Z) (nickname password : string)
    (sessionInfo : SessionInfo) (payload' : string) (env' : Env) (importId' : Z)
    (args' : list json) :
  chat_batch JSON_parse payload
  = Some (importId, capabilityId, "registerNick", [JStr nickname; JStr password]) ->
  capabilityId <> CHAT_CAPABILITY_ID ->
  sessionCaps (loadChatState (now env) state) !! String_of_number capabilityId
  = Some sessionInfo ->
  nick_registered nickname (loadChatState (now env) state) = false ->
  chat_batch JSON_parse payload' = Some (importId', capabilityId, "whoami", args') ->
  let state' :=
    storage (processRpcBatch JSON_parse SyntaxError_message JSON_stringify
               payload env state) in
  answer (processRpcBatch JSON_parse SyntaxError_message JSON_stringify
            payload' env' state')
  = JSON_stringify
      (envelope "result" importId' (JObj [("username", JStr nickname)]))
  /\ (nickname <> "__proto__" ->
      registeredNicks (loadChatState (now env') state') !! nickname = Some password
      /\ nickOwners (loadChatState (now env') state') !! nickname
         = Some (username sessionInfo)).
Proof.
  intros Hregister Hcap Hsession Hfree Hwhoami state'.
  apply Z.eqb_neq in Hcap.
  assert (chat_call capabilityId "registerNick" [JStr nickname; JStr password] env
            (loadChatState (now env) state)
          = changed
              (with_nick (loadChatState (now env) state)
                 (set (String_of_number capabilityId)
                    {| username := username sessionInfo;
                       displayName := Some nickname |}
                    (sessionCaps (loadChatState (now env) state)))
                 (set nickname password
                    (registeredNicks (loadChatState (now env) state)))
                 (set nickname (username sessionInfo)
                    (nickOwners (loadChatState (now env) state))))
              env
              (success (status_ok_message
                          ("Nickname '" ++ nickname ++ "' registered successfully"))))
    as Heff.
  { unfold chat_call. rewrite Hcap, Hsession. unfold chat_session.
    cbn [String.eqb Ascii.eqb Bool.eqb]. by rewrite Hfree. }
  assert (forall clock,
            loadChatState clock state'
            = normalizeChatState clock
                (chatState_to_json
                   (eff_chatState
                      (chat_call capabilityId "registerNick"
                         [JStr nickname; JStr password] env
                         (loadChatState (now env) state))))) as Hload.
  { intros clock. subst state'.
    apply (load_after_chat_batch _ _ _ _ _ _ _ _ Hregister); [done |].
    by rewrite Heff. }
  rewrite Heff in Hload. cbn [eff_chatState changed] in Hload.
  split.
  - rewrite (processRpcBatch_chat_batch _ _ _ _ _ _ _ _ _ _ Hwhoami) by done.
    cbn [answer]. rewrite Hload.
    unfold chat_call. rewrite Hcap, reload_sessionCaps.
    rewrite decide_False by apply String_of_number_not_proto.
    cbn [sessionCaps with_nick]. rewrite set_String_of_number, lookup_insert_eq.
    unfold chat_session. cbn [String.eqb Ascii.eqb Bool.eqb]. done.
  - intros Hproto. rewrite Hload, reload_registeredNicks, reload_nickOwners.
    rewrite !decide_False by done. cbn [registeredNicks nickOwners with_nick].
    unfold set. rewrite !bool_decide_eq_false_2 by done.
    by rewrite !lookup_insert_eq.
Qed.


End Sequences.

(** ** The RPC target of live connections *)




Section Tokens_and_the_RPC_target.

Variable JSON_parse : string -> option json.
Variable SyntaxError_message : string -> string.
Variable JSON_stringify : json -> string.

(** The document the RPC target writes has no [nickTokens]: after a
    [sendMessage] over a live connection the batch handler loads an empty
    token table, and [redeemNickToken] no longer recognizes any token stored
    before. *)
Theorem rpc_target_write_drops_tokens (capabilityId : Z) (message : string)
    (env : Env) (members : list Client) (state : Storage)
    (sessionInfo : SessionInfo) :
  Server.sessionCaps (Server.loadChatState (now env) state)
    !! String_of_number capabilityId = Some sessionInfo ->
  let state' :=
    storage (Server.sendMessage capabilityId message env members state) in
  (forall clock, nickTokens (loadChatState clock state') = [])
  /\ forall payload env' importId arg,
       chat_batch JSON_parse payload
       = Some (importId, CHAT_CAPABILITY_ID, "redeemNickToken", [JStr arg]) ->
       trim arg <> "" -> trim arg ∉ Object_prototype ->
       answer (processRpcBatch JSON_parse SyntaxError_message JSON_stringify
                 payload env' state')
       = JSON_stringify
           (envelope "result" importId (status_error "Token not recognized")).
Proof.
  intros Hsession state'.
  assert (forall clock, nickTokens (loadChatState clock state') = []) as Hnone.
  { intros clock. subst state'. unfold Server.sendMessage. rewrite Hsession.
    by destruct (broadcast_loop _ members members). }
  split; [done |]. intros payload env' importId arg Hbatch Htoken Hproto.
  rewrite (processRpcBatch_chat_batch _ _ _ _ _ _ _ _ _ _ Hbatch) by done.
  cbn [answer]. unfold chat_call, chat_service.
  cbn [Z.eqb CHAT_CAPABILITY_ID Pos.eqb String.eqb Ascii.eqb Bool.eqb].
  apply String.eqb_neq in Htoken. rewrite Htoken, Hnone.
  unfold get_entry, classify. cbn [assoc].
  by rewrite bool_decide_eq_false_2.
Qed.

End Tokens_and_the_RPC_target.

(** ** Registration of clients *)

Lemma registerClient_spec (clientStub : Client) (clients : list Client) :
  NoDup clients ->
  NoDup (registerClient clientStub clients)
  /\ forall c, c ∈ registerClient clientStub clients <-> c = clientStub \/ c ∈ clients.
Proof.
  intros Hnd. unfold registerClient. case_bool_decide as Hin.
  - split; [done |]. intros c. split; [by right | by intros [-> | ?]].
  - split.
    + apply NoDup_app. repeat split; [done | | apply NoDup_singleton].
      intros c Hc ->%list_elem_of_singleton. done.
    + intros c. rewrite elem_of_app, list_elem_of_singleton. tauto.
Qed.

Lemma register_all_spec (stubs acc : list Client) :
  NoDup acc ->
  NoDup (fold_left (fun clients clientStub => registerClient clientStub clients)
           stubs acc)
  /\ forall c,
       c ∈ fold_left (fun clients clientStub => registerClient clientStub clients)
             stubs acc
       <-> c ∈ stubs \/ c ∈ acc.
Proof.
  revert acc. induction stubs as [| s stubs IH]; intros acc Hnd; cbn [fold_left].
  - split; [done |]. intros c. rewrite elem_of_nil. tauto.
  - destruct (registerClient_spec s acc Hnd) as [Hnd' Hin'].
    destruct (IH _ Hnd') as [Hnd'' Hin'']. split; [done |].
    intros c. rewrite Hin'', Hin', elem_of_cons. tauto.
Qed.

(** The hub holds each connection once, however often it was registered, and
    a broadcast calls [receiveMessage] once on each connection registered:
    no client hears a message twice. *)
Theorem registered_clients_hear_once (stubs : list Client)
    (receive : Client -> Message -> bool) (message : Message) :
  let members := register_all stubs in
  let called := (broadcastMessage receive message members).2 in
  NoDup called
  /\ (forall c, c ∈ called <-> c ∈ stubs)
  /\ (broadcastMessage receive message members).1
     = filter (fun c => receive c message = true) members.
Proof.
  intros members called. subst called. rewrite broadcastMessage_spec. cbn [fst snd].
  destruct (register_all_spec stubs [] (NoDup_nil_2)) as [Hnd Hin].
  repeat split; try done.
  - intros Hc. apply Hin in Hc as [? | Hc]; [done | by apply elem_of_nil in Hc].
  - intros Hc. apply Hin. by left.
Qed.

(** ** The command line of the client *)

Lemma prefix_app (p a b : string) :
  String.prefix p a = true -> String.prefix p (a ++ b) = true.
Proof.
  revert a. induction p as [| c p IH]; intros a;
    [intros _; by destruct (a ++ b) |].
  destruct a as [| c' a]; [done |]. simpl.
  destruct (Ascii.ascii_dec c c'); [apply IH | done].
Qed.

Lemma includes_app_l (needle a b : string) :
  Client.includes needle a = true -> Client.includes needle (a ++ b) = true.
Proof.
  induction a as [| c a IH]; simpl.
  - rewrite orb_false_r. destruct needle; simpl; [by destruct b | done].
  - intros [Hp | Hi]%orb_true_iff.
    + apply orb_true_iff. left. by apply (prefix_app needle (String c a) b).
    + apply orb_true_iff. right. by apply IH.
Qed.

Lemma ensureScheme_includes (raw fallback : string) :
  Client.includes "://" fallback = true ->
  Client.includes "://" (Client.ensureScheme raw fallback) = true.
Proof.
  intros Hf. unfold Client.ensureScheme.
  destruct (Client.includes "://" raw) eqn:Hraw; [done |].
  by apply includes_app_l.
Qed.

(** The endpoint [ensureScheme] returns names a scheme whenever the fallback
    does: a target that has one is returned as it is, any other gets the
    fallback in front, and a second pass changes nothing. *)
Theorem ensureScheme_spec (raw fallback : string) :
  Client.includes "://" fallback = true ->
  Client.includes "://" (Client.ensureScheme raw fallback) = true
  /\ Client.ensureScheme (Client.ensureScheme raw fallback) fallback
     = Client.ensureScheme raw fallback
  /\ (Client.includes "://" raw = true -> Client.ensureScheme raw fallback = raw).
Proof.
  intros Hf.
  pose proof (ensureScheme_includes raw fallback Hf) as Hr.
  repeat split; [done | |].
  - unfold Client.ensureScheme at 1. by rewrite Hr.
  - intros Hraw. unfold Client.ensureScheme. by rewrite Hraw.
Qed.

Lemma parse_args_spelled (pairs : list (string * string)) (acc : option string) :
  Forall (fun p => p.1 = "--url" \/ p.1 = "--host") pairs ->
  Client.parse_args (spelled pairs) acc
  = Client.parsed (from_option Some acc (last pairs.*2)).
Proof.
  intros Hall. revert acc. induction Hall as [| [f v] pairs Hf _ IH]; intros acc.
  - done.
  - cbn [spelled Client.parse_args]. cbn [fst] in Hf.
    assert ((String.eqb f "--help" || String.eqb f "-h") = false) as ->.
    { by destruct Hf as [-> | ->]. }
    assert ((String.eqb f "--url" || String.eqb f "--host") = true) as ->.
    { by destruct Hf as [-> | ->]. }
    rewrite IH. f_equal. rewrite fmap_cons. cbn [snd].
    destruct pairs as [| p pairs]; [done |].
    rewrite fmap_cons, last_cons_cons.
    by destruct (last (p.2 :: pairs.*2)) eqn:Hl;
      [| apply last_None in Hl].
Qed.

Lemma parse_args_parsed (n : nat) (args : list string) (acc r : option string) :
  length args <= n ->
  Client.parse_args args acc = Client.parsed r ->
  exists pairs,
    args = spelled pairs
    /\ Forall (fun p => p.1 = "--url" \/ p.1 = "--host") pairs.
Proof.
  revert args acc. induction n as [| n IH]; intros args acc Hlen.
  - destruct args; [| simpl in Hlen; lia]. intros _. by exists [].
  - destruct args as [| arg rest]; [intros _; by exists [] |].
    cbn [Client.parse_args].
    destruct (String.eqb arg "--help" || String.eqb arg "-h"); [done |].
    destruct (String.eqb arg "--url" || String.eqb arg "--host") eqn:Hflag.
    + destruct rest as [| value rest']; [done |]. intros Hp.
      apply IH in Hp as (pairs & -> & Hall); [| simpl in Hlen; lia].
      exists ((arg, value) :: pairs). split; [done |]. constructor; [| done].
      cbn [fst]. apply orb_true_iff in Hflag as [H | H];
        apply String.eqb_eq in H; auto.
    + by destruct (String.prefix "-" arg).
Qed.

(** [parseCli] returns options exactly for a command line made of [--url]
    or [--host] flags, each followed by a value: a positional argument,
    another flag or a flag without value ends the process.  The value of the
    last flag is the target, if it is not empty; otherwise the environment
    variable, if set and not empty; otherwise the default backend.  The URL
    returned always names a scheme. *)
Theorem parseCli_accepts_flag_value_pairs (args : list string)
    (CAPINRS_SERVER_HOST : option string) (url : string) :
  (Client.parseCli args CAPINRS_SERVER_HOST = Client.parsed url
   <-> exists pairs,
         args = spelled pairs
         /\ Forall (fun p => p.1 = "--url" \/ p.1 = "--host") pairs
         /\ url
            = Client.normalizeEndpoint
                (default Client.DEFAULT_BACKEND
                   (Client.or_else
                      (Client.or_else (last pairs.*2) CAPINRS_SERVER_HOST)
                      (Some Client.DEFAULT_BACKEND)))
                "http://")
  /\ (Client.parseCli args CAPINRS_SERVER_HOST = Client.parsed url ->
      Client.includes "://" url = true).
Proof.
  split; [split |].
  - unfold Client.parseCli.
    destruct (Client.parse_args args None) as [r |] eqn:Hp; [| done].
    intros [= <-].
    destruct (parse_args_parsed _ _ _ _ (le_n _) Hp) as (pairs & -> & Hall).
    exists pairs. repeat split; [done |].
    rewrite (parse_args_spelled pairs None Hall) in Hp. injection Hp as <-.
    by destruct (last pairs.*2).
  - intros (pairs & -> & Hall & ->). unfold Client.parseCli.
    rewrite (parse_args_spelled pairs None Hall).
    by destruct (last pairs.*2).
  - unfold Client.parseCli.
    destruct (Client.parse_args args None) as [r |]; [| done].
    intros [= <-]. unfold Client.normalizeEndpoint. by apply ensureScheme_includes.
Qed.

(** ** The two handlers of a method *)

Lemma loads_agree (clock : Z) (state : Storage) :
  let s := Server.loadChatState clock state in
  let st := loadChatState clock state in
  Server.sessionCaps s = sessionCaps st
  /\ Server.registeredNicks s = registeredNicks st
  /\ Server.nickOwners s = nickOwners st
  /\ Server.messages s = messages st
  /\ Server.nextSessionCapId s = nextSessionCapId st.
Proof.
  unfold Server.loadChatState, loadChatState.
  destruct (chatState state) as [raw |]; [| done].
  unfold Server.normalizeChatState, normalizeChatState.
  by destruct (negb (is_object (Some raw))).
Qed.

(** The RPC target of live connections and the batch handler answer a method
    of a session capability alike: [whoami], [receiveMessages], [checkNick],
    [registerNick], [identifyNick] and [sendMessage] return over a
    connection the value the batch handler puts in its result envelope, and
    throw the message it puts in its error envelope when no session holds
    the capability. *)
Theorem rpc_target_agrees_with_batch_handler (capabilityId : Z) (env : Env)
    (members : list Client) (state : Storage) (nickname password message : string) :
  capabilityId <> CHAT_CAPABILITY_ID ->
  let st := loadChatState (now env) state in
  let batch method args :=
    eff_payloadResult (chat_call capabilityId method args env st) in
  as_payload (answer (Server.whoami capabilityId env members state))
  = batch "whoami" []
  /\ as_payload (answer (Server.receiveMessages capabilityId env members state))
     = batch "receiveMessages" []
  /\ as_payload (answer (Server.checkNick capabilityId nickname env members state))
     = batch "checkNick" [JStr nickname]
  /\ as_payload
       (answer (Server.registerNick capabilityId nickname password env members state))
     = batch "registerNick" [JStr nickname; JStr password]
  /\ as_payload
       (answer (Server.identifyNick capabilityId nickname password env members state))
     = batch "identifyNick" [JStr nickname; JStr password]
  /\ as_payload (answer (Server.sendMessage capabilityId message env members state))
     = batch "sendMessage" [JStr message].
Proof.
  intros Hcap st batch. subst batch st. cbv beta. apply Z.eqb_neq in Hcap.
  destruct (loads_agree (now env) state) as (Hs & Hn & Ho & Hm & _).
  set (st := loadChatState (now env) state) in *.
  unfold Server.whoami, Server.receiveMessages, Server.checkNick,
    Server.registerNick, Server.identifyNick, Server.sendMessage, chat_call.
  rewrite Hcap, Hs, Hn, Hm.
  destruct (sessionCaps st !! String_of_number capabilityId) as [info |];
    [| done].
  unfold chat_session, nick_registered. cbn [String.eqb Ascii.eqb Bool.eqb].
  repeat split; try done.
  - by destruct (get nickname (registeredNicks st)) as [stored | |];
      [destruct (String.eqb stored "") |..].
  - destruct (get nickname (registeredNicks st)) as [stored | |]; try done.
    destruct (String.eqb stored ""); [done |].
    by destruct (String.eqb stored password).
  - destruct (broadcast_loop _ members members).
    destruct (serverInstance env) as [hub |]; [| done].
    by destruct (broadcastMessage (receiveMessage env) _ hub).
Qed.

(** ** What [normalizeChatState] guarantees *)

(** Whatever value the stored text denotes, the aggregate that
    [normalizeChatState] makes of it is well formed: [nextSessionCapId] is at
    least [SESSION_CAPABILITY_START], every message has an author and a text,
    the token table has one entry per key and every token a user name and, if
    any, a non-empty nickname, no table owns the key ["__proto__"], and the
    default credentials are present. *)
Theorem normalizeChatState_validates (clock : Z) (parsed : json) :
  let st := normalizeChatState clock parsed in
  (SESSION_CAPABILITY_START <= nextSessionCapId st)%Z
  /\ Forall (fun m => from m <> "" /\ body m <> "") (messages st)
  /\ NoDup (nickTokens st).*1
  /\ Forall (fun e => token_username e.2 <> "" /\ token_nickname e.2 <> Some "")
       (nickTokens st)
  /\ sessionCaps st !! "__proto__" = None
  /\ registeredNicks st !! "__proto__" = None
  /\ nickOwners st !! "__proto__" = None
  /\ ("__proto__" ∉ (nickTokens st).*1)
  /\ forall k, is_Some (credentials DEFAULT_CHAT_STATE !! k) ->
               is_Some (credentials st !! k).
Proof.
  set (state := {| chatState := Some parsed; callCount := None;
                   lastRequest := None; lastResponse := None |}).
  change (normalizeChatState clock parsed) with (loadChatState clock state).
  cbv zeta. destruct (load_tokens_ok clock state) as [Hnd Hproto].
  repeat split; try done.
  - apply load_next_floor.
  - apply load_messages_nonempty.
  - apply Forall_forall. intros [k info] Hin. apply load_tokens_normal in Hin.
    unfold reload_entry in Hin. cbn [fst snd] in *.
    destruct (String.eqb (token_username info) "") eqn:Hu; [done |].
    apply String.eqb_neq in Hu. split; [done |].
    injection Hin as Hin. intros Hn.
    apply (f_equal token_nickname) in Hin. unfold reload_token in Hin.
    cbn [token_nickname] in Hin. by rewrite Hn in Hin.
  - apply load_sessions_proto.
  - apply load_nicks_proto.
  - apply load_owners_proto.
  - intros k Hk.
    destruct (credentials (loadChatState clock state) !! k) eqn:Hc; [done |].
    apply load_credentials_keep in Hc. rewrite Hc in Hk. by destruct Hk.
Qed.

(** ** Samples of the further properties *)

Lemma batch_lines_trimmed_sample :
  "a" ∈ batch_lines (" a " ++ String "010"%char "  b")
  /\ "a" <> "" /\ trim "a" = "a".
Proof.
  assert ("a" ∈ batch_lines (" a " ++ String "010"%char "  b")) as H1.
  { vm_compute. left. }
  exact (conj H1 (batch_lines_trimmed _ _ H1)).
Defined.

Lemma stats_answers_on_any_capability_sample :
  chat_batch Reference.JSON_parse (call_batch 10007 "stats" "[]")
  = Some (1%Z, 10007%Z, "stats", [])
  /\ let out :=
       processRpcBatch Reference.JSON_parse Reference.SyntaxError_message
         Reference.JSON_stringify (call_batch 10007 "stats" "[]") (quiet 0)
         one_session in
     answer out
     = Reference.JSON_stringify
         (envelope "result" 1
            (JObj [("callCount", JNum (default 0%Z (callCount one_session)));
                   ("lastRequest", from_option JStr JNull (lastRequest one_session));
                   ("lastResponse",
                     from_option JStr JNull (lastResponse one_session))]))
     /\ storage out = one_session.
Proof.
  assert (chat_batch Reference.JSON_parse (call_batch 10007 "stats" "[]")
          = Some (1%Z, 10007%Z, "stats", [])) as H1 by (vm_compute; reflexivity).
  exact (conj H1
           (stats_answers_on_any_capability
              Reference.JSON_parse Reference.SyntaxError_message
              Reference.JSON_stringify _ (quiet 0) one_session _ _ _ H1)).
Defined.

Lemma stats_reports_last_batch_sample :
  chat_batch Reference.JSON_parse (call_batch 2 "auth" "['ann']")
  = Some (1%Z, CHAT_CAPABILITY_ID, "auth", [JStr "ann"])
  /\ "auth" <> "stats"
  /\ stats_batch Reference.JSON_parse stats_request.1 = Some 1%Z
  /\ let out :=
       processRpcBatch Reference.JSON_parse Reference.SyntaxError_message
         Reference.JSON_stringify (call_batch 2 "auth" "['ann']") (quiet 0)
         empty_storage in
     answer (processRpcBatch Reference.JSON_parse Reference.SyntaxError_message
               Reference.JSON_stringify stats_request.1 (quiet 3) (storage out))
     = Reference.JSON_stringify
         (envelope "result" 1
            (JObj [("callCount", JNum (default 0 (callCount empty_storage) + 1)%Z);
                   ("lastRequest", JStr (call_batch 2 "auth" "['ann']"));
                   ("lastResponse", JStr (answer out))])).
Proof.
  assert (chat_batch Reference.JSON_parse (call_batch 2 "auth" "['ann']")
          = Some (1%Z, CHAT_CAPABILITY_ID, "auth", [JStr "ann"])) as H1
    by (vm_compute; reflexivity).
  assert ("auth" <> "stats") as H2 by discriminate.
  assert (stats_batch Reference.JSON_parse stats_request.1 = Some 1%Z) as H3
    by (vm_compute; reflexivity).
  exact (conj H1 (conj H2 (conj H3
           (stats_reports_last_batch
              Reference.JSON_parse Reference.SyntaxError_message
              Reference.JSON_stringify _ (quiet 0) empty_storage _ _ _ _
              _ (quiet 3) _ H1 H2 H3)))).
Defined.

(** The example of the help text, [add] of 10 and 20 on capability 1, is
    answered with an error. *)
Lemma calculator_capability_is_shadowed_sample :
  chat_batch Reference.JSON_parse (call_batch 1 "add" "[10,20]")
  = Some (1%Z, CALCULATOR_CAP_ID, "add", [JNum 10; JNum 20])
  /\ "add" <> "stats"
  /\ let state := serve_ref [auth_request] empty_storage in
     let out :=
       processRpcBatch Reference.JSON_parse Reference.SyntaxError_message
         Reference.JSON_stringify (call_batch 1 "add" "[10,20]") (quiet 0) state in
     answer out
     = Reference.JSON_stringify
         (envelope "error" 1
            (JObj [("message", JStr "unknown session capability")]))
     /\ chatState (storage out) = chatState state.
Proof.
  assert (chat_batch Reference.JSON_parse (call_batch 1 "add" "[10,20]")
          = Some (1%Z, CALCULATOR_CAP_ID, "add", [JNum 10; JNum 20])) as H1
    by (vm_compute; reflexivity).
  assert ("add" <> "stats") as H2 by discriminate.
  exact (conj H1 (conj H2
           (calculator_capability_is_shadowed
              Reference.JSON_parse Reference.SyntaxError_message
              Reference.JSON_stringify [auth_request] _ (quiet 0) _ _ _ H1 H2))).
Defined.


Lemma refusals_do_not_write_sample :
  chat_batch Reference.JSON_parse (call_batch 10000 "sendMessage" "[]")
  = Some (1%Z, 10000%Z, "sendMessage", [])
  /\ refused
       (eff_payloadResult
          (chat_call 10000 "sendMessage" [] (quiet 0) (loadChatState 0 one_session)))
  /\ let out :=
       tryHandleChatBatch Reference.JSON_parse Reference.JSON_stringify
         (call_batch 10000 "sendMessage" "[]") (quiet 0) one_session in
     chatState (storage out) = chatState one_session
     /\ called out = []
     /\ clients out = None.
Proof.
  assert (chat_batch Reference.JSON_parse (call_batch 10000 "sendMessage" "[]")
          = Some (1%Z, 10000%Z, "sendMessage", [])) as H1
    by (vm_compute; reflexivity).
  assert (refused
            (eff_payloadResult
               (chat_call 10000 "sendMessage" [] (quiet 0)
                  (loadChatState 0 one_session)))) as H2
    by (vm_compute; exact I).
  exact (conj H1 (conj H2
           (refusals_do_not_write
              Reference.JSON_parse Reference.JSON_stringify
              _ (quiet 0) one_session _ _ _ _ H1 H2))).
Defined.

Lemma sessions_stay_bound_sample :
  sessionCaps (loadChatState 0 one_session) !! "10000"
  = Some {| username := "guest-10000"; displayName := None |}
  /\ exists info',
       sessionCaps
         (loadChatState 9
            (serve_ref
               [auth_request;
                (call_batch 10000 "registerNick" "['bob','pw']", quiet 1)]
               one_session))
         !! "10000"
       = Some info'
       /\ username info' = "guest-10000".
Proof.
  assert (sessionCaps (loadChatState 0 one_session) !! "10000"
          = Some {| username := "guest-10000"; displayName := None |}) as H1
    by (vm_compute; reflexivity).
  exact (conj H1
           (sessions_stay_bound
              Reference.JSON_parse Reference.SyntaxError_message
              Reference.JSON_stringify
              [auth_request;
               (call_batch 10000 "registerNick" "['bob','pw']", quiet 1)]
              one_session 0 9 "10000" _ H1)).
Defined.

Lemma passwords_are_stable_sample :
  registeredNicks (loadChatState 0 bob_registered) !! "bob" = Some "pw"
  /\ "pw" <> ""
  /\ registeredNicks
       (loadChatState 9
          (serve_ref
             [(call_batch 10001 "registerNick" "['bob','other']", quiet 2)]
             bob_registered))
       !! "bob"
     = Some "pw".
Proof.
  assert (registeredNicks (loadChatState 0 bob_registered) !! "bob" = Some "pw")
    as H1 by (vm_compute; reflexivity).
  assert ("pw" <> "") as H2 by discriminate.
  exact (conj H1 (conj H2
           (passwords_are_stable
              Reference.JSON_parse Reference.SyntaxError_message
              Reference.JSON_stringify
              [(call_batch 10001 "registerNick" "['bob','other']", quiet 2)]
              bob_registered 0 9 "bob" "pw" H1 H2))).
Defined.


Lemma sendMessage_then_receiveMessages_sample :
  chat_batch Reference.JSON_parse (call_batch 10000 "sendMessage" "['hi']")
  = Some (1%Z, 10000%Z, "sendMessage", [JStr "hi"])
  /\ 10000%Z <> CHAT_CAPABILITY_ID
  /\ sessionCaps (loadChatState 7 one_session) !! String_of_number 10000
     = Some {| username := "guest-10000"; displayName := None |}
  /\ chat_batch Reference.JSON_parse (call_batch 10000 "receiveMessages" "[]")
     = Some (1%Z, 10000%Z, "receiveMessages", [])
  /\ answer
       (processRpcBatch Reference.JSON_parse Reference.SyntaxError_message
          Reference.JSON_stringify (call_batch 10000 "receiveMessages" "[]")
          (quiet 8)
          (storage
             (processRpcBatch Reference.JSON_parse Reference.SyntaxError_message
                Reference.JSON_stringify (call_batch 10000 "sendMessage" "['hi']")
                (quiet 7) one_session)))
     = Reference.JSON_stringify
         (envelope "result" 1
            (JObj [("messages",
                     JArr [message_to_json
                             {| from := "guest-10000"; body := "hi";
                                timestamp := 7 |}])])).
Proof.
  assert (chat_batch Reference.JSON_parse (call_batch 10000 "sendMessage" "['hi']")
          = Some (1%Z, 10000%Z, "sendMessage", [JStr "hi"])) as H1
    by (vm_compute; reflexivity).
  assert (10000%Z <> CHAT_CAPABILITY_ID) as H2 by (vm_compute; discriminate).
  assert (sessionCaps (loadChatState 7 one_session) !! String_of_number 10000
          = Some {| username := "guest-10000"; displayName := None |}) as H3
    by (vm_compute; reflexivity).
  assert (chat_batch Reference.JSON_parse (call_batch 10000 "receiveMessages" "[]")
          = Some (1%Z, 10000%Z, "receiveMessages", [])) as H4
    by (vm_compute; reflexivity).
  exact (conj H1 (conj H2 (conj H3 (conj H4
           (sendMessage_then_receiveMessages
              Reference.JSON_parse Reference.SyntaxError_message
              Reference.JSON_stringify _ (quiet 7) one_session _ _ _ _
              _ (quiet 8) _ H1 H2 H3 H4))))).
Defined.

Lemma registerNick_then_whoami_sample :
  chat_batch Reference.JSON_parse (call_batch 10000 "registerNick" "['bob','pw']")
  = Some (1%Z, 10000%Z, "registerNick", [JStr "bob"; JStr "pw"])
  /\ 10000%Z <> CHAT_CAPABILITY_ID
  /\ sessionCaps (loadChatState 1 one_session) !! String_of_number 10000
     = Some {| username := "guest-10000"; displayName := None |}
  /\ nick_registered "bob" (loadChatState 1 one_session) = false
  /\ chat_batch Reference.JSON_parse (call_batch 10000 "whoami" "[]")
     = Some (1%Z, 10000%Z, "whoami", [])
  /\ answer
       (processRpcBatch Reference.JSON_parse Reference.SyntaxError_message
          Reference.JSON_stringify (call_batch 10000 "whoami" "[]") (quiet 2)
          (storage
             (processRpcBatch Reference.JSON_parse Reference.SyntaxError_message
                Reference.JSON_stringify
                (call_batch 10000 "registerNick" "['bob','pw']") (quiet 1)
                one_session)))
     = Reference.JSON_stringify
         (envelope "result" 1 (JObj [("username", JStr "bob")])).
Proof.
  assert (chat_batch Reference.JSON_parse
            (call_batch 10000 "registerNick" "['bob','pw']")
          = Some (1%Z, 10000%Z, "registerNick", [JStr "bob"; JStr "pw"])) as H1
    by (vm_compute; reflexivity).
  assert (10000%Z <> CHAT_CAPABILITY_ID) as H2 by (vm_compute; discriminate).
  assert (sessionCaps (loadChatState 1 one_session) !! String_of_number 10000
          = Some {| username := "guest-10000"; displayName := None |}) as H3
    by (vm_compute; reflexivity).
  assert (nick_registered "bob" (loadChatState 1 one_session) = false) as H4
    by (vm_compute; reflexivity).
  assert (chat_batch Reference.JSON_parse (call_batch 10000 "whoami" "[]")
          = Some (1%Z, 10000%Z, "whoami", [])) as H5 by (vm_compute; reflexivity).
  exact (conj H1 (conj H2 (conj H3 (conj H4 (conj H5
           (proj1 (registerNick_then_whoami
                     Reference.JSON_parse Reference.SyntaxError_message
                     Reference.JSON_stringify _ (quiet 1) one_session _ _ _ _ _
                     _ (quiet 2) _ _ H1 H2 H3 H4 H5))))))).
Defined.


Lemma rpc_target_write_drops_tokens_sample :
  Server.sessionCaps (Server.loadChatState 7 one_token) !! String_of_number 10000
  = Some {| username := "guest-10000"; displayName := None |}
  /\ (nickTokens (loadChatState 7 one_token)).*1 = ["t1"]
  /\ forall clock,
       nickTokens
         (loadChatState clock
            (storage (Server.sendMessage 10000 "hi" (quiet 7) [] one_token)))
       = [].
Proof.
  assert (Server.sessionCaps (Server.loadChatState 7 one_token)
            !! String_of_number 10000
          = Some {| username := "guest-10000"; displayName := None |}) as H1
    by (vm_compute; reflexivity).
  assert ((nickTokens (loadChatState 7 one_token)).*1 = ["t1"]) as H2
    by (vm_compute; reflexivity).
  exact (conj H1 (conj H2
           (proj1 (rpc_target_write_drops_tokens
                     Reference.JSON_parse Reference.SyntaxError_message
                     Reference.JSON_stringify 10000 "hi" (quiet 7) [] one_token
                     _ H1)))).
Defined.

Lemma ensureScheme_sample :
  Client.includes "://" "http://" = true
  /\ Client.includes "://" (Client.ensureScheme "localhost:8787" "http://") = true
  /\ Client.ensureScheme (Client.ensureScheme "localhost:8787" "http://") "http://"
     = Client.ensureScheme "localhost:8787" "http://"
  /\ (Client.includes "://" "localhost:8787" = true ->
      Client.ensureScheme "localhost:8787" "http://" = "localhost:8787").
Proof.
  assert (Client.includes "://" "http://" = true) as H1 by reflexivity.
  exact (conj H1 (ensureScheme_spec "localhost:8787" "http://" H1)).
Defined.

Lemma rpc_target_agrees_with_batch_handler_sample :
  10000%Z <> CHAT_CAPABILITY_ID
  /\ as_payload (answer (Server.whoami 10000 (quiet 3) [] one_session))
     = eff_payloadResult
         (chat_call 10000 "whoami" [] (quiet 3) (loadChatState 3 one_session)).
Proof.
  assert (10000%Z <> CHAT_CAPABILITY_ID) as H1 by (vm_compute; discriminate).
  exact (conj H1
           (proj1 (rpc_target_agrees_with_batch_handler
                     10000 (quiet 3) [] one_session "bob" "pw" "hi" H1))).
Defined.
